(** * llm_trader: the orchestration core of the trading agent, embedded in Rocq

    The development follows the TypeScript sources of the agent:
    - [src/agent.ts]: the price lookup, the trade tools, net worth, CAGR, the
      thread store, the report P&L, [withRetry] and the market scheduler;
    - the trading service ([TradingService.getStockPrice],
      [TradingService.calculateCAGR]) and the two other revisions of the
      agent kept in the repository, which carry the three-stage price chain
      and the reasoning check of [loadThread].

    Conventions.
    - An [async] function that can reject is a function into [outcome]:
      [Returns v] for a fulfilled promise, [Throws e] for a rejected one.
    - Monetary amounts (JS numbers holding dollars, share counts, delays) are
      exact rationals [Q], compared with [==].  [calculateCAGR], whose
      behaviour at [days = 0] is decided by IEEE-754 special values, is
      embedded on binary64 floats instead.
    - A [Date] is its epoch time in milliseconds, an integer [Z]. *)

From Stdlib Require Import ZArith QArith Qround Qabs List String Ascii Bool Lia Lqa Floats.
From Stdlib Require Import Sorted Permutation.
From stdpp Require Import base gmap strings pretty.
Import ListNotations.

(** ** Promise outcomes *)

Inductive outcome (E A : Type) : Type :=
| Returns (a : A)
| Throws (e : E).
Arguments Returns {E A} a.
Arguments Throws {E A} e.

(** ** JS number helpers on rationals *)

Module JSNum.
Local Open Scope Q_scope.

(** [Math.round(x)]: the integer nearest to [x], ties towards +infinity. *)
Definition Math_round (x : Q) : Q := inject_Z (Qfloor (x + (1 # 2))).

(** The idiom [Math.round(x * 100) / 100] of the sources. *)
Definition round2 (x : Q) : Q := Math_round (x * 100) / 100.

(** A JS number is truthy when it is not zero (NaN is outside the model). *)
Definition truthy (x : Q) : bool := negb (Qeq_bool x 0).

Definition Qltb (x y : Q) : bool := negb (Qle_bool y x).

Fixpoint sumQ (l : list Q) : Q :=
  match l with
  | [] => 0
  | x :: r => x + sumQ r
  end.

(** [2^i] as a rational, for [Math.pow(2, i)] with a loop counter [i]. *)
Definition pow2 (i : nat) : Q := inject_Z (2 ^ Z.of_nat i).
End JSNum.

(** ** Market scheduler ([isMarketOpen], [getNextMarketOpen]) *)

Module Market.
Local Open Scope Z_scope.

(** The fields read from
    [et = new Date(now.toLocaleString("en-US", {timeZone: "America/New_York"}))]. *)
Record WallClock := mkClock { getDay : Z; getHours : Z; getMinutes : Z }.

Definition marketOpen : Z := 9 * 60 + 30.
Definition marketClose : Z := 16 * 60.

(** [isMarketOpen]; [TESTING_MODE] is [process.env.TESTING_MODE]. *)
Definition isMarketOpen (TESTING_MODE : option string) (et : WallClock) : bool :=
  if decide (TESTING_MODE = Some "true"%string) then true
  else
    let dayOfWeek := getDay et in
    if (dayOfWeek =? 0) || (dayOfWeek =? 6) then false
    else
      let hours := getHours et in
      let minutes := getMinutes et in
      let timeInMinutes := hours * 60 + minutes in
      (marketOpen <=? timeInMinutes) && (timeInMinutes <? marketClose).

(** *** Dates

    A [Date] is its epoch time in milliseconds.  The zone of the process is a
    fixed offset of [tz] minutes east of UTC (no daylight-saving switch inside
    the few days the function looks at).  A calendar date (year, month, day
    of month) is carried as the number of days since 1970-01-01 it denotes,
    so that [Date.UTC(y, m, d, 0, 0)] of day number [n] is [n * msPerDay]. *)

Definition msPerDay : Z := 86400000.
Definition msPerHour : Z := 3600000.
Definition msPerMinute : Z := 60000.

Section LocalZone.
Variable tz : Z.

(** The local calendar date of instant [t]
    ([getFullYear()], [getMonth()], [getDate()] taken together). *)
Definition localDate (t : Z) : Z := (t + tz * msPerMinute) / msPerDay.

(** [t.getDay()]: 0 is Sunday; 1970-01-01 was a Thursday. *)
Definition Date_getDay (t : Z) : Z := (localDate t + 4) mod 7.

(** [t.setDate(t.getDate() + k)]. *)
Definition Date_addDays (t k : Z) : Z := t + k * msPerDay.

(** [Date.UTC(y, m, d, hours, minutes, 0, 0)] for the calendar date [d]. *)
Definition Date_UTC (d hours minutes : Z) : Z :=
  d * msPerDay + hours * msPerHour + minutes * msPerMinute.

Definition getNextMarketOpen (now : Z) : Z :=
  let tomorrow := Date_addDays now 1 in
  let nextOpen := Date_UTC (localDate tomorrow) 13 30 in
  if Date_getDay nextOpen =? 6 then Date_addDays nextOpen 2
  else if Date_getDay nextOpen =? 0 then Date_addDays nextOpen 1
  else nextOpen.
End LocalZone.

(** 09:30 New York time on calendar date [d] during daylight-saving time,
    which is the instant the source aims at (13:30 UTC). *)
Definition openingOf (d : Z) : Z := Date_UTC d 13 30.
End Market.

(** ** Annualised return ([calculateCAGR]) on binary64 floats *)

Module CAGR.
Local Open Scope float_scope.

Section Pow.
(** What [Math.pow] returns for a finite, non-zero exponent (the result is
    implementation-approximated in ECMA-262, so it is left open). *)
Variable pow_finite : float -> float -> float.

(** [Math.pow(base, exponent)], following Number::exponentiate of
    ECMA-262: NaN and zero exponents first, then a NaN base, then the
    infinite exponents, decided by [abs base] against 1 (for an infinite or
    zero base this agrees with the dedicated cases of the standard, an
    infinity not being an odd integer). *)
Definition Math_pow (base exponent : float) : float :=
  if is_nan exponent then nan
  else if exponent =? 0 then 1
  else if is_nan base then nan
  else if exponent =? infinity then
    if 1 <? abs base then infinity
    else if abs base =? 1 then nan
    else 0
  else if exponent =? neg_infinity then
    if 1 <? abs base then 0
    else if abs base =? 1 then nan
    else infinity
  else pow_finite base exponent.

(** [TradingService.calculateCAGR(days, currentValue, startValue = 1000)]. *)
Definition calculateCAGR (days currentValue startValue : float) : float :=
  let years := days / 365 in
  let cagr := Math_pow (currentValue / startValue) (1 / years) - 1 in
  cagr.

(** [calculateCAGR(days, currentValue)] of [src/agent.ts]. *)
Definition calculateCAGR_agent (days currentValue : float) : float :=
  let startValue := 1000 in
  let years := days / 365 in
  let cagr := Math_pow (currentValue / startValue) (1 / years) - 1 in
  cagr.
End Pow.
End CAGR.

(** ** Errors

    A thrown JS error, as far as the sources inspect it: the structured
    [status] field ([undefined] is [None]) and the [message]. *)

Record JSError := mkError { status : option Z; message : option string }.

(** ** Report P&L (the [map] callbacks of [updateReadme] and [generateCSVReport]) *)

Module Report.
Import JSNum.
Local Open Scope Q_scope.

Inductive Side := buy | sell.

Definition Side_eqb (a b : Side) : bool :=
  match a, b with
  | buy, buy | sell, sell => true
  | _, _ => false
  end.

(** A history entry; [date] is [new Date(t.date).getTime()]. *)
Record Trade := mkTrade {
  date : Z; type : Side; ticker : string; shares : Q; price : Q; total : Q }.

(** [Array.prototype.sort(cmp)]: the stable sort by a comparator that answers
    a negative number when its first argument goes first. *)
Fixpoint insert_sorted {A} (cmp : A -> A -> Z) (x : A) (l : list A) : list A :=
  match l with
  | [] => [x]
  | y :: r => if (cmp x y <=? 0)%Z then x :: y :: r else y :: insert_sorted cmp x r
  end.

Definition Array_sort {A} (cmp : A -> A -> Z) (l : list A) : list A :=
  fold_right (insert_sorted cmp) [] l.

(** The filter of both report writers:
    [t.ticker === trade.ticker && t.type === "buy" && new Date(t.date) < new Date(trade.date)]. *)
Definition isPriorBuy (trade t : Trade) : bool :=
  String.eqb (ticker t) (ticker trade) && Side_eqb (type t) buy && (date t <? date trade)%Z.

Record PnL := mkPnL { avgBuyPrice : Q; pnl : Q; pnlPercent : Q }.

(** The P&L block both writers evaluate for one [trade] of [portfolio.history];
    [None] when the writer leaves the P&L text empty. *)
Definition tradePnL (history : list Trade) (trade : Trade) : option PnL :=
  if Side_eqb (type trade) sell then
    let buyTrades :=
      Array_sort (fun a b => (date b - date a)%Z)
                 (List.filter (isPriorBuy trade) history) in
    if (0 <? length buyTrades)%nat then
      let totalBuyShares := fold_left (fun sum t => sum + shares t) buyTrades 0 in
      let totalBuyCost := fold_left (fun sum t => sum + total t) buyTrades 0 in
      let avgBuyPrice :=
        if Qltb 0 totalBuyShares then totalBuyCost / totalBuyShares else 0 in
      let pnl := (price trade - avgBuyPrice) * shares trade in
      let pnlPercent :=
        if Qltb 0 avgBuyPrice
        then ((price trade - avgBuyPrice) / avgBuyPrice) * 100 else 0 in
      Some (mkPnL avgBuyPrice pnl pnlPercent)
    else None
  else None.

(** For the statements: the buys a sell is measured against, in history order. *)
Definition priorBuys (history : list Trade) (trade : Trade) : list Trade :=
  List.filter (isPriorBuy trade) history.
End Report.

(** ** Price resolution ([getStockPrice]) *)

Module Price.
Import JSNum.
Local Open Scope Q_scope.

(** The quote object of [alpaca.getLatestQuote]; an absent field reads as 0. *)
Record Quote := mkQuote { BidPrice : Q; AskPrice : Q }.

(** What [data?.chart?.result?.[0]?.meta?.regularMarketPrice] can hold. *)
Inductive JSValue :=
| JNumber (n : Q)
| JString (s : string)
| JBoolean (b : bool)
| JNull.

(** The response of [fetch]; [json] is the outcome of [response.json()]
    followed by the optional chain ([None] is [undefined]). *)
Record Response := mkResponse {
  ok : bool;
  json : outcome JSError (option JSValue) }.

(** The outside world of one price lookup. *)
Record Sources := mkSources {
  getLatestQuote : string -> outcome JSError (option Quote);
  fetchChart : string -> outcome JSError Response;
  Math_random : Q }.

(** The lines written by [log], one constructor per message template. *)
Inductive LogEvent :=
| FoundViaAlpaca (ticker : string) (midPrice : Q)
| AlpacaFailed (ticker : string) (e : JSError)
| FoundViaYahoo (ticker : string) (price : Q)
| YahooFailed (ticker : string) (e : JSError)
| UsingFallback (ticker : string) (fallbackPrice : Q)
| FailedToGetPrice (ticker : string) (e : JSError).

Definition mockPrices : list (string * Q) :=
  [ ("AAPL", 224.50); ("GOOGL", 175.20); ("MSFT", 419.70); ("TSLA", 246.80);
    ("NVDA", 126.50); ("XLI", 135.40); ("HEI", 225.30); ("RCL", 160.25);
    ("NIO", 4.25); ("XLP", 80.15); ("XLV", 135.60); ("XLY", 190.25);
    ("XLF", 42.80); ("SPY", 550.20) ]%string.

(** [mockPrices[key]]. *)
Fixpoint lookupPrice (table : list (string * Q)) (key : string) : option Q :=
  match table with
  | [] => None
  | (k, v) :: r => if String.eqb k key then Some v else lookupPrice r key
  end.

Definition upper (c : ascii) : ascii :=
  let n := nat_of_ascii c in
  if ((97 <=? n) && (n <=? 122))%nat then ascii_of_nat (n - 32) else c.

(** [ticker.toUpperCase()] on ASCII tickers. *)
Fixpoint toUpperCase (s : string) : string :=
  match s with
  | EmptyString => EmptyString
  | String c r => String (upper c) (toUpperCase r)
  end.

(** First [try] block: the brokerage quote.  [Some] is the early [return]. *)
Definition tryAlpaca (src : Sources) (ticker : string) : option Q * list LogEvent :=
  match getLatestQuote src ticker with
  | Returns (Some quote) =>
      if truthy (BidPrice quote) && truthy (AskPrice quote) then
        let midPrice := (BidPrice quote + AskPrice quote) / 2 in
        (Some (round2 midPrice), [FoundViaAlpaca ticker midPrice])
      else (None, [])
  | Returns None => (None, [])
  | Throws alpacaError => (None, [AlpacaFailed ticker alpacaError])
  end.

(** Second [try] block: the public chart endpoint. *)
Definition tryYahoo (src : Sources) (ticker : string) : option Q * list LogEvent :=
  match fetchChart src ticker with
  | Returns response =>
      if ok response then
        match json response with
        | Returns (Some (JNumber price)) =>
            if truthy price && Qltb 0 price
            then (Some price, [FoundViaYahoo ticker price])
            else (None, [])
        | Returns _ => (None, [])
        | Throws yahooError => (None, [YahooFailed ticker yahooError])
        end
      else (None, [])
  | Throws yahooError => (None, [YahooFailed ticker yahooError])
  end.

(** [mockPrices[ticker.toUpperCase()] || (50 + Math.random() * 200)]. *)
Definition fallbackPriceOf (src : Sources) (ticker : string) : Q :=
  match lookupPrice mockPrices (toUpperCase ticker) with
  | Some p => if truthy p then p else 50 + Math_random src * 200
  | None => 50 + Math_random src * 200
  end.

(** The body of the outer [try] of the three-stage [getStockPrice] (the first
    agent revision). *)
Definition getStockPrice_body (src : Sources) (ticker : string)
  : outcome JSError Q * list LogEvent :=
  let '(found, log1) := tryAlpaca src ticker in
  match found with
  | Some p => (Returns p, log1)
  | None =>
      let '(found, log2) := tryYahoo src ticker in
      match found with
      | Some p => (Returns p, log1 ++ log2)
      | None =>
          let fallbackPrice := fallbackPriceOf src ticker in
          (Returns (round2 fallbackPrice),
           log1 ++ log2 ++ [UsingFallback ticker fallbackPrice])
      end
  end.

(** Three-stage [getStockPrice]: the outer [catch] answers a random price. *)
Definition getStockPrice (src : Sources) (ticker : string)
  : outcome JSError Q * list LogEvent :=
  match getStockPrice_body src ticker with
  | (Returns p, log) => (Returns p, log)
  | (Throws error, log) =>
      (Returns (round2 (50 + Math_random src * 200)),
       log ++ [FailedToGetPrice ticker error])
  end.

(** [invariant(cond, msg)] raises an error carrying the message. *)
Definition invariantError (msg : string) : JSError :=
  mkError None (Some ("Invariant failed: " ++ msg)%string).

(** [getStockPrice] of [src/agent.ts]: the brokerage quote or a rethrown error. *)
Definition getStockPrice_agent (src : Sources) (ticker : string)
  : outcome JSError Q * list LogEvent :=
  match getLatestQuote src ticker with
  | Returns quote =>
      match quote with
      | Some q =>
          if truthy (BidPrice q) && truthy (AskPrice q) then
            let midPrice := (BidPrice q + AskPrice q) / 2 in
            (Returns (round2 midPrice), [FoundViaAlpaca ticker midPrice])
          else
            let error := invariantError ("Failed to get Alpaca market data for " ++ ticker) in
            (Throws error, [FailedToGetPrice ticker error])
      | None =>
          let error := invariantError ("Failed to get Alpaca market data for " ++ ticker) in
          (Throws error, [FailedToGetPrice ticker error])
      end
  | Throws error => (Throws error, [FailedToGetPrice ticker error])
  end.

(** For the statements: the first two stages found no price. *)
Definition primaryFails (src : Sources) (ticker : string) : Prop :=
  match getLatestQuote src ticker with
  | Returns (Some quote) => BidPrice quote == 0 \/ AskPrice quote == 0
  | _ => True
  end.

Definition secondaryFails (src : Sources) (ticker : string) : Prop :=
  match fetchChart src ticker with
  | Returns response =>
      ok response = false \/
      match json response with
      | Returns (Some (JNumber price)) => price <= 0
      | _ => True
      end
  | Throws _ => True
  end.

(** For the statements: the log carries no fallback line. *)
Definition noFallbackLogged (log : list LogEvent) : Prop :=
  forall t p, ~ In (UsingFallback t p) log.

(** Test worlds. *)

(** A world where both real sources are down. *)
Definition sourcesDown : Sources :=
  mkSources (fun _ => Throws (mkError (Some 503%Z) None))
            (fun _ => Throws (mkError None (Some "fetch failed"%string)))
            (1 # 2).

(** A world where the brokerage quotes 10.004 / 10.005. *)
Definition closeQuote : Sources :=
  mkSources (fun _ => Returns (Some (mkQuote 10.004 10.005)))
            (fun _ => Throws (mkError None (Some "fetch failed"%string)))
            (1 # 2).

(** A world where the brokerage is down and the chart endpoint quotes a price
    with three decimals. *)
Definition yahooOnly : Sources :=
  mkSources (fun _ => Throws (mkError (Some 503%Z) None))
            (fun _ => Returns (mkResponse true (Returns (Some (JNumber 123.456)))))
            (1 # 2).
End Price.

(** ** Retry policy ([withRetry] of [src/agent.ts]) *)

Module Retry.
Import JSNum.
Local Open Scope Q_scope.

Definition is_digit (c : ascii) : bool :=
  ((48 <=? nat_of_ascii c) && (nat_of_ascii c <=? 57))%nat.

Definition digit_value (c : ascii) : Z := Z.of_nat (nat_of_ascii c - 48).

(** [message.match(/(\d{3}) status code/)] followed by
    [parseInt(match[1], 10)]: the leftmost three digits that are followed by
    the text " status code". *)
Fixpoint match_status_code (s : string) : option Z :=
  match s with
  | EmptyString => None
  | String a rest =>
      match rest with
      | String b (String c tail) =>
          if is_digit a && is_digit b && is_digit c
             && String.prefix " status code" tail
          then Some (100 * digit_value a + 10 * digit_value b + digit_value c)%Z
          else match_status_code rest
      | _ => None
      end
  end.




(** Truthiness of [error.status] and of [error.message]. *)
Definition status_truthy (s : option Z) : bool :=
  match s with
  | Some n => negb (n =? 0)%Z
  | None => false
  end.

Definition message_truthy (m : option string) : bool :=
  match m with
  | Some EmptyString | None => false
  | Some _ => true
  end.

(** The [status] variable after the recovery from the message. *)
Definition errorStatus (error : JSError) : option Z :=
  let status0 := status error in
  if negb (status_truthy status0) && message_truthy (message error) then
    match message error with
    | Some m =>
        match match_status_code m with
        | Some n => Some n
        | None => status0
        end
    | None => status0
    end
  else status0.

(** [status === 429 || (status >= 500 && status < 600)]. *)
Definition retryable (status : option Z) : bool :=
  match status with
  | Some n => (n =? 429)%Z || ((500 <=? n)%Z && (n <? 600)%Z)
  | None => false
  end.

(** What a run of [withRetry] leaves behind: the settled promise ([None] is
    [undefined], thrown when the loop never ran), the number of calls of [fn],
    and the arguments of [sleep] in order. *)
Record Run (T : Type) := mkRun {
  result : outcome (option JSError) T;
  calls : nat;
  sleeps : list Q }.
Arguments mkRun {T}.
Arguments result {T}.
Arguments calls {T}.
Arguments sleeps {T}.

Section WithRetry.
Context {T : Type}.
(** [fn k]: how the call number [k] (from 0) of the operation settles. *)
Variable fn : nat -> outcome JSError T.
(** [Math_random i]: the draw of [Math.random()] in iteration [i]. *)
Variable Math_random : nat -> Q.
Variable delay : Q.

(** The [for] loop with [n] iterations left, at counter [i]. *)
Fixpoint retryLoop (n i : nat) (lastError : option JSError) (slept : list Q) : Run T :=
  match n with
  | O => mkRun (Throws lastError) i slept
  | S n' =>
      match fn i with
      | Returns v => mkRun (Returns v) (S i) slept
      | Throws error =>
          let status := errorStatus error in
          if retryable status then
            let waitTime := delay * pow2 i + Math_random i * 1000 in
            retryLoop n' (S i) (Some error) (slept ++ [waitTime])
          else mkRun (Throws (Some error)) (S i) slept
      end
  end.

Definition withRetry (retries : nat) : Run T := retryLoop retries 0 None [].
End WithRetry.

(** For the statements: call [j] fails with an error the policy retries. *)
Definition failsRetryably {T} (fn : nat -> outcome JSError T) (j : nat) : Prop :=
  exists e, fn j = Throws e /\ retryable (errorStatus e) = true.

(** For the statements: the argument of [sleep] in iteration [i]. *)
Definition waitTime (Math_random : nat -> Q) (delay : Q) (i : nat) : Q :=
  delay * pow2 i + Math_random i * 1000.

(** Test operation: status 500 three times, then success. *)
Definition flaky500 (k : nat) : outcome JSError string :=
  if (k <? 3)%nat then Throws (mkError (Some 500%Z) None) else Returns "ok"%string.


End Retry.

(** ** Thread store ([loadThread]) *)

Module ThreadStore.

(** A thread item, as far as [loadThread] reads it ([undefined] is [None]). *)
Record Item := mkItem {
  type : option string;
  callId : option string;
  id : option string }.

(** The content of a file: a JSON array of items, or text [JSON.parse] rejects. *)
Inductive FileData :=
| JsonThread (items : list Item)
| NotJson (text : string).

Definition JSON_parse (data : FileData) : outcome JSError (list Item) :=
  match data with
  | JsonThread items => Returns items
  | NotJson _ => Throws (mkError None (Some "Unexpected token"%string))
  end.

(** The file system: the files by path, and which paths accept a write. *)
Record FS := mkFS {
  files : gmap string FileData;
  writable : string -> bool }.

Definition writeFile (path : string) (data : FileData) (fs : FS) : outcome JSError FS :=
  if writable fs path
  then Returns (mkFS (<[path := data]> (files fs)) (writable fs))
  else Throws (mkError None (Some "EACCES"%string)).

Inductive LogEvent :=
| ReasoningMismatch
| CorruptionDetected
| HistoryTooLarge (n : nat)
| FailedToLoad (e : JSError).

Definition threadFile (profileName : string) : string :=
  ("results/" ++ profileName ++ "/thread-" ++ profileName ++ ".json")%string.

(** The quarantine path, [`${threadFile}.corrupted-${Date.now()}`]. *)
Definition corruptedFile (profileName : string) (now : Z) : string :=
  (threadFile profileName ++ ".corrupted-" ++ pretty now)%string.

Definition hasType (item : Item) (t : string) : bool :=
  bool_decide (type item = Some t).

(** [s.replace(pattern, replacement)]: the first occurrence only. *)
Fixpoint String_replace (pattern replacement s : string) : string :=
  if String.prefix pattern s
  then (replacement ++ String.substring (String.length pattern) (String.length s) s)%string
  else match s with
       | EmptyString => EmptyString
       | String c r => String c (String_replace pattern replacement r)
       end.

(** [fullThread.some(item => item.callId === '...' || (item.type ===
    'function_call_result' && !fullThread.find(call => call.callId ===
    item.callId && call.type === 'function_call')))]. *)
Definition hasCorruption (fullThread : list Item) : bool :=
  existsb (fun item =>
    bool_decide (callId item = Some "call_en9S0pLVBoYjEcU4hnyuVl5X"%string) ||
    (hasType item "function_call_result" &&
     negb (existsb (fun call =>
             bool_decide (callId call = callId item) && hasType call "function_call")
           fullThread)))
  fullThread.

(** [functionCalls.some(fc => ...)]: a call with an [fc_] id and no reasoning
    item with the matching [rs_] id. *)
Definition hasReasoningMismatch (fullThread : list Item) : bool :=
  let functionCalls := List.filter (fun item => hasType item "function_call") fullThread in
  let reasoningItems := List.filter (fun item => hasType item "reasoning") fullThread in
  existsb (fun fc =>
    match id fc with
    | None => false
    | Some fcid =>
        if String.eqb fcid "" || negb (String.prefix "fc_" fcid) then false
        else
          let expectedReasoningId := String_replace "fc_" "rs_" fcid in
          negb (existsb (fun rs => bool_decide (id rs = Some expectedReasoningId))
                        reasoningItems)
    end)
  functionCalls.

(** The quarantine step shared by both corruption branches; a failed write
    lands in the [catch] of [loadThread]. *)
Definition quarantine (profileName : string) (now : Z) (threadData : FileData)
    (fs : FS) (event : LogEvent) : list Item * FS * list LogEvent :=
  match writeFile (corruptedFile profileName now) threadData fs with
  | Returns fs' => ([], fs', [event])
  | Throws error => ([], fs, [event; FailedToLoad error])
  end.

(** [loadThread] with the reasoning check (the second agent revision);
    [now] is [Date.now()]. *)
Definition loadThread (profileName : string) (now : Z) (fs : FS)
  : list Item * FS * list LogEvent :=
  match files fs !! threadFile profileName with
  | Some threadData =>
      match JSON_parse threadData with
      | Returns fullThread =>
          if hasReasoningMismatch fullThread then
            quarantine profileName now threadData fs ReasoningMismatch
          else if hasCorruption fullThread then
            quarantine profileName now threadData fs CorruptionDetected
          else if (50 <? length fullThread)%nat then
            ([], fs, [HistoryTooLarge (length fullThread)])
          else (fullThread, fs, [])
      | Throws error => ([], fs, [FailedToLoad error])
      end
  | None => ([], fs, [])
  end.

(** [loadThread] of [src/agent.ts], without the reasoning check. *)
Definition loadThread_agent (profileName : string) (now : Z) (fs : FS)
  : list Item * FS * list LogEvent :=
  match files fs !! threadFile profileName with
  | Some threadData =>
      match JSON_parse threadData with
      | Returns fullThread =>
          if hasCorruption fullThread then
            quarantine profileName now threadData fs CorruptionDetected
          else if (50 <? length fullThread)%nat then
            ([], fs, [HistoryTooLarge (length fullThread)])
          else (fullThread, fs, [])
      | Throws error => ([], fs, [FailedToLoad error])
      end
  | None => ([], fs, [])
  end.

(** For the statements: the three conditions of the thread store. *)

(** A function result whose call id no function call of the thread carries. *)
Definition orphanResult (fullThread : list Item) : Prop :=
  exists item, In item fullThread /\ type item = Some "function_call_result"%string /\
    forall call, In call fullThread ->
      ~ (callId call = callId item /\ type call = Some "function_call"%string).

(** A function call with an [fc_] id whose [rs_] reasoning item is absent. *)
Definition missingReasoning (fullThread : list Item) : Prop :=
  exists fc rest, In fc fullThread /\ type fc = Some "function_call"%string /\
    id fc = Some ("fc_" ++ rest)%string /\
    forall rs, In rs fullThread -> type rs = Some "reasoning"%string ->
      id rs <> Some ("rs_" ++ rest)%string.

(** An item carrying the one call id the source knows as stale. *)
Definition staleCallId (fullThread : list Item) : Prop :=
  exists item, In item fullThread /\
    callId item = Some "call_en9S0pLVBoYjEcU4hnyuVl5X"%string.

(** Test data: a result without its call. *)
Definition orphanThread : list Item :=
  [ mkItem (Some "function_call"%string) (Some "call_1"%string) (Some "item_1"%string);
    mkItem (Some "function_call_result"%string) (Some "call_2"%string) None ].

(** Test data: a function call with an [fc_] id and no reasoning item. *)
Definition unreasonedCall : Item :=
  mkItem (Some "function_call"%string) (Some "call_1"%string) (Some "fc_1"%string).

(** Test data: a thread of 51 plain messages, and a disk that holds it. *)
Definition plainMessage : Item := mkItem (Some "message"%string) None None.
Definition bloatedThread : list Item := repeat plainMessage 51.
Definition diskWith (profileName : string) (items : list Item) : FS :=
  mkFS {[ threadFile profileName := JsonThread items ]} (fun _ => true).
End ThreadStore.

(** ** Brokerage, portfolio and trade tools ([src/agent.ts]) *)

Module Broker.
Import JSNum.
Local Open Scope Q_scope.

(** The account object; the numeric fields are the [parseFloat] of the
    strings the brokerage sends. *)
Record Account := mkAccount {
  cash : Q; buying_power : Q; portfolio_value : Q; account_status : string }.

Record Position := mkPosition { symbol : string; qty : Q; market_value : Q }.

(** An order of the history; [filled_at] is absent until the order fills. *)
Record Order := mkOrder {
  order_symbol : string; order_side : string;
  filled_qty : option Q; filled_avg_price : option Q; filled_at : option Z }.

Inductive Side := buy | sell.

(** The argument of [alpaca.createOrder]. *)
Record OrderRequest := mkRequest {
  req_symbol : string; req_qty : Q; req_side : Side;
  req_type : string; time_in_force : string }.

Record OrderAck := mkAck { order_id : string; order_status : string }.

(** How the brokerage answers.  The account, position, order-history and
    order-submission endpoints are scripted by the number of API calls made
    before (so that a call can fail once and succeed later); quotes are
    constant over one tool call. *)
Record Brokerage := mkBrokerage {
  getAccount : nat -> outcome JSError Account;
  getPositions : nat -> outcome JSError (list Position);
  getOrders : nat -> outcome JSError (list Order);
  market : Price.Sources;
  createOrder : nat -> OrderRequest -> outcome JSError OrderAck }.

(** The state the agent's calls act on: the number of API calls made so far
    and the order requests handed to [alpaca.createOrder], in order. *)
Record World := mkWorld { tick : nat; submitted : list OrderRequest }.

(** State and exception monad of the [async] functions. *)
Definition M (A : Type) : Type := World -> outcome JSError A * World.

Definition ret {A} (a : A) : M A := fun w => (Returns a, w).

Definition bind {A B} (m : M A) (k : A -> M B) : M B :=
  fun w => match m w with
           | (Returns a, w') => k a w'
           | (Throws e, w') => (Throws e, w')
           end.

Definition try_catch {A} (m : M A) (handler : JSError -> M A) : M A :=
  fun w => match m w with
           | (Returns a, w') => (Returns a, w')
           | (Throws e, w') => handler e w'
           end.

Notation "'await' x <- m ; k" := (bind m (fun x => k))
  (at level 10, x name, m at level 100, k at level 200).

Section Agent.
Variable alpaca : Brokerage.

Definition next (w : World) : World := mkWorld (S (tick w)) (submitted w).

(** [getAlpacaAccount], [getAlpacaPositions], [getAlpacaOrderHistory]: the
    API call; their [catch] logs and rethrows. *)
Definition getAlpacaAccount : M Account :=
  fun w => (getAccount alpaca (tick w), next w).

Definition getAlpacaPositions : M (list Position) :=
  fun w => (getPositions alpaca (tick w), next w).

Definition getAlpacaOrderHistory (limit : nat) : M (list Order) :=
  fun w => (match getOrders alpaca (tick w) with
            | Returns orders => Returns (firstn limit orders)
            | Throws e => Throws e
            end, next w).

(** [alpaca.createOrder(request)]: the request reaches the brokerage. *)
Definition alpaca_createOrder (request : OrderRequest) : M OrderAck :=
  fun w => (createOrder alpaca (tick w) request,
            mkWorld (S (tick w)) (submitted w ++ [request])).

(** [getStockPrice] of [src/agent.ts]. *)
Definition getStockPrice (ticker : string) : M Q :=
  fun w => (fst (Price.getStockPrice_agent (market alpaca) ticker), w).

(** *** Portfolio *)

Record Portfolio := mkPortfolio {
  portfolio_cash : Q;
  holdings : list (string * Q);
  history : list Report.Trade }.

(** [holdings[key] = value] on an object with string keys: an existing key
    keeps its place, a new key goes last. *)
Fixpoint obj_set (o : list (string * Q)) (key : string) (value : Q) : list (string * Q) :=
  match o with
  | [] => [(key, value)]
  | (k, v) :: r => if String.eqb k key then (k, value) :: r
                   else (k, v) :: obj_set r key value
  end.

Definition holdingsOf (positions : list Position) : list (string * Q) :=
  fold_left (fun holdings position =>
               if truthy (qty position)
               then obj_set holdings (symbol position) (qty position)
               else holdings)
            positions [].

Definition default0 (x : option Q) : Q :=
  match x with Some v => v | None => 0 end.

Definition isFilled (order : Order) : bool :=
  match filled_at order with Some _ => true | None => false end.

(** [orders.filter(order => order.filled_at).map(...).sort(...)], oldest first. *)
Definition historyOf (orders : list Order) : list Report.Trade :=
  Report.Array_sort (fun a b => (Report.date a - Report.date b)%Z)
    (map (fun order =>
            Report.mkTrade
              (match filled_at order with Some filled => filled | None => 0%Z end)
              (if String.eqb (order_side order) "buy" then Report.buy else Report.sell)
              (order_symbol order)
              (default0 (filled_qty order))
              (default0 (filled_avg_price order))
              (default0 (filled_qty order) * default0 (filled_avg_price order)))
         (List.filter isFilled orders)).

(** [Promise.all] of the three fetches: all three calls are made; the first
    rejection, in argument order, rejects the whole. *)
Definition fetchAll : M (Account * list Position * list Order) :=
  fun w =>
    let '(account, w1) := getAlpacaAccount w in
    let '(positions, w2) := getAlpacaPositions w1 in
    let '(orders, w3) := getAlpacaOrderHistory 100 w2 in
    (match account, positions, orders with
     | Returns a, Returns p, Returns o => Returns (a, p, o)
     | Throws e, _, _ => Throws e
     | _, Throws e, _ => Throws e
     | _, _, Throws e => Throws e
     end, w3).

(** [getPortfolio]: never rejects; a failed fetch gives the empty portfolio. *)
Definition getPortfolio : M Portfolio :=
  try_catch
    (await fetched <- fetchAll ;
     let '(account, positions, orders) := fetched in
     ret (mkPortfolio (cash account) (holdingsOf positions) (historyOf orders)))
    (fun error => ret (mkPortfolio 0 [] [])).

(** The [for ... of Object.entries(portfolio.holdings)] loop of
    [calculateNetWorth]. *)
Fixpoint sumHoldings (entries : list (string * Q)) (totalHoldingsValue : Q) : M Q :=
  match entries with
  | [] => ret totalHoldingsValue
  | (ticker, shares) :: rest =>
      if Qltb 0 shares then
        await total <- try_catch
                         (await price <- getStockPrice ticker ;
                          ret (totalHoldingsValue + shares * price))
                         (fun error => ret totalHoldingsValue) ;
        sumHoldings rest total
      else sumHoldings rest totalHoldingsValue
  end.

Definition calculateNetWorth : M Q :=
  try_catch
    (await account <- getAlpacaAccount ;
     let netWorth := portfolio_value account in
     ret (round2 netWorth))
    (fun error =>
       await portfolio <- getPortfolio ;
       await totalHoldingsValue <- sumHoldings (holdings portfolio) 0 ;
       let netWorth := round2 (portfolio_cash portfolio + totalHoldingsValue) in
       ret netWorth).
End Agent.

(** *** Trade tools

    The [execute] functions of [buyTool], [sellTool], [shortSellTool] and
    [coverShortTool].  A tool never rejects: it answers a string.  The three
    ways a value is spliced into a template are parameters. *)

Section Tools.
Variable alpaca : Brokerage.
(** [`${x}`] for a number, [x.toFixed(2)], and [`${error}`]. *)
Variable show : Q -> string.
Variable toFixed2 : Q -> string.
Variable showError : JSError -> string.

Local Open Scope string_scope.

(** The end of a tool: the settled string, a rejection turned into text. *)
Definition settle (failed : JSError -> string) (m : M string) (w : World)
  : string * World :=
  match m w with
  | (Returns s, w') => (s, w')
  | (Throws error, w') => (failed error, w')
  end.

Definition marketOrder (ticker : string) (shares : Q) (side : Side) : OrderRequest :=
  mkRequest ticker shares side "market" "gtc".

Definition buyTool (ticker : string) (shares : Q) : World -> string * World :=
  settle
    (fun error => "Failed to place buy order for " ++ show shares ++ " shares of "
                  ++ ticker ++ ". Error: " ++ showError error)
    (await account <- getAlpacaAccount alpaca ;
     await price <- getStockPrice alpaca ticker ;
     let orderValue := (shares * price)%Q in
     if Qltb (buying_power account) orderValue then
       ret ("You don't have enough buying power to buy " ++ show shares
            ++ " shares of " ++ ticker ++ ". Your buying power is $"
            ++ show (buying_power account) ++ " and the estimated cost is $"
            ++ toFixed2 orderValue ++ ".")
     else
       await order <- alpaca_createOrder alpaca (marketOrder ticker shares buy) ;
       ret ("Submitted buy order for " ++ show shares ++ " shares of " ++ ticker
            ++ " at market price. Order ID: " ++ order_id order ++ ". Status: "
            ++ order_status order ++ ". Estimated cost: $" ++ toFixed2 orderValue ++ ".")).

(** [positions.find(p => p.symbol === ticker)]. *)
Definition findPosition (positions : list Position) (ticker : string) : option Position :=
  List.find (fun p => String.eqb (symbol p) ticker) positions.

Definition sellTool (ticker : string) (shares : Q) : World -> string * World :=
  settle
    (fun error => "Failed to place sell order for " ++ show shares ++ " shares of "
                  ++ ticker ++ ". Error: " ++ showError error)
    (await positions <- getAlpacaPositions alpaca ;
     let position := findPosition positions ticker in
     if match position with
        | None => true
        | Some p => Qltb (qty p) shares
        end
     then
       let currentShares := match position with Some p => qty p | None => 0%Q end in
       ret ("You don't have enough shares of " ++ ticker ++ " to sell. You have "
            ++ show currentShares ++ " shares.")
     else
       await price <- getStockPrice alpaca ticker ;
       let orderValue := (shares * price)%Q in
       await order <- alpaca_createOrder alpaca (marketOrder ticker shares sell) ;
       ret ("Submitted sell order for " ++ show shares ++ " shares of " ++ ticker
            ++ " at market price. Order ID: " ++ order_id order ++ ". Status: "
            ++ order_status order ++ ". Estimated proceeds: $" ++ toFixed2 orderValue ++ ".")).

Definition shortSellTool (ticker : string) (shares : Q) : World -> string * World :=
  settle
    (fun error => "Failed to place short sell order for " ++ show shares
                  ++ " shares of " ++ ticker ++ ". Error: " ++ showError error)
    (await account <- getAlpacaAccount alpaca ;
     let accountEquity := portfolio_value account in
     let buyingPower := buying_power account in
     if Qltb accountEquity 40000 then
       ret ("Account equity of $" ++ toFixed2 accountEquity
            ++ " is below the $40,000 minimum required for short selling on Alpaca.")
     else
       await price <- getStockPrice alpaca ticker ;
       let orderValue := (shares * price)%Q in
       if Qltb buyingPower (orderValue * 0.5)%Q then
         ret ("Insufficient buying power for short position. Need ~$"
              ++ toFixed2 (orderValue * 0.5)%Q ++ " but have $"
              ++ toFixed2 buyingPower ++ " buying power.")
       else
         await order <- alpaca_createOrder alpaca (marketOrder ticker shares sell) ;
         ret ("Submitted SHORT SELL order for " ++ show shares ++ " shares of " ++ ticker
              ++ " at market price. Order ID: " ++ order_id order ++ ". Status: "
              ++ order_status order ++ ". Estimated proceeds: $" ++ toFixed2 orderValue
              ++ ". WARNING: This is a short position with unlimited loss potential.")).

Definition coverShortTool (ticker : string) (shares : Q) : World -> string * World :=
  settle
    (fun error => "Failed to place cover order for " ++ show shares ++ " shares of "
                  ++ ticker ++ ". Error: " ++ showError error)
    (await positions <- getAlpacaPositions alpaca ;
     let position := findPosition positions ticker in
     match position with
     | Some p =>
         if Qle_bool 0 (qty p) then
           ret ("No short position found for " ++ ticker ++ ". Current position: "
                ++ show (qty p) ++ " shares (positive = long, negative = short).")
         else
           let shortPosition := Qabs (qty p) in
           if Qltb shortPosition shares then
             ret ("Cannot cover " ++ show shares ++ " shares - you only have "
                  ++ show shortPosition ++ " shares short in " ++ ticker ++ ".")
           else
             await price <- getStockPrice alpaca ticker ;
             let orderValue := (shares * price)%Q in
             await order <- alpaca_createOrder alpaca (marketOrder ticker shares buy) ;
             ret ("Submitted BUY TO COVER order for " ++ show shares ++ " shares of "
                  ++ ticker ++ " at market price. Order ID: " ++ order_id order
                  ++ ". Status: " ++ order_status order ++ ". Estimated cost: $"
                  ++ toFixed2 orderValue ++ ".")
     | None =>
         ret ("No short position found for " ++ ticker ++ ". Current position: "
              ++ show 0%Q ++ " shares (positive = long, negative = short).")
     end).
End Tools.

(** For the statements. *)

(** The price [getStockPrice] settles with. *)
Definition priceOf (alpaca : Brokerage) (ticker : string) : outcome JSError Q :=
  fst (Price.getStockPrice_agent (market alpaca) ticker).

(** What one holding adds in the fallback of [calculateNetWorth]. *)
Definition holdingValue (alpaca : Brokerage) (entry : string * Q) : Q :=
  let '(ticker, shares) := entry in
  if Qltb 0 shares then
    match priceOf alpaca ticker with
    | Returns price => shares * price
    | Throws _ => 0
    end
  else 0.

(** Test brokerages.  [poorAccount]: buying power $100, AAPL quoted at $200.
    [shortBook]: the account endpoint fails on the first call only; cash
    $1000 and a short position of 5 AAPL quoted at $100. *)
Definition quoteAt (p : Q) : Price.Sources :=
  Price.mkSources (fun _ => Returns (Some (Price.mkQuote p p)))
                  (fun _ => Throws (mkError None None)) 0.



Definition startWorld : World := mkWorld 0 [].
End Broker.

(** ** Thread store, saving ([saveThread]) *)

Module ThreadSave.
Import ThreadStore.

(** [thread.slice(-n)]: the last [n] items, all of them when there are fewer. *)
Definition slice_last {A} (n : nat) (thread : list A) : list A :=
  skipn (length thread - n) thread.

Inductive SaveEvent :=
| SavedTrimmed (before after : nat)
| Saved (items : nat)
| FailedToSave (e : JSError).

Definition maxItems : nat := 40.

(** [saveThread]: the thread file receives [JSON.stringify] of the last
    [maxItems] items; a failed write is logged and swallowed. *)
Definition saveThread (profileName : string) (thread : list Item) (fs : FS)
  : FS * list SaveEvent :=
  let trimmedThread := slice_last maxItems thread in
  match writeFile (threadFile profileName) (JsonThread trimmedThread) fs with
  | Returns fs' =>
      if (maxItems <? length thread)%nat
      then (fs', [SavedTrimmed (length thread) (length trimmedThread)])
      else (fs', [Saved (length thread)])
  | Throws error => (fs, [FailedToSave error])
  end.

(** The thread [loadThread] answers. *)
Definition loaded (run : list Item * FS * list LogEvent) : list Item := fst (fst run).

(** The file system [loadThread] leaves. *)
Definition disk (run : list Item * FS * list LogEvent) : FS := snd (fst run).
End ThreadSave.

(** ** Error handler ([src/error-handler.ts]) *)

Module ErrorHandler.
Import JSNum.
Local Open Scope Q_scope.

Inductive ErrorType :=
| API_ERROR
| VALIDATION_ERROR
| NETWORK_ERROR
| TRADING_ERROR
| CONFIGURATION_ERROR
| UNKNOWN_ERROR.

Definition ErrorType_eqb (a b : ErrorType) : bool :=
  match a, b with
  | API_ERROR, API_ERROR | VALIDATION_ERROR, VALIDATION_ERROR
  | NETWORK_ERROR, NETWORK_ERROR | TRADING_ERROR, TRADING_ERROR
  | CONFIGURATION_ERROR, CONFIGURATION_ERROR | UNKNOWN_ERROR, UNKNOWN_ERROR => true
  | _, _ => false
  end.

(** [Object.values(ErrorType)]. *)
Definition allErrorTypes : list ErrorType :=
  [API_ERROR; VALIDATION_ERROR; NETWORK_ERROR; TRADING_ERROR;
   CONFIGURATION_ERROR; UNKNOWN_ERROR].

(** A [TradingError]; the [context] object is only logged and left out. *)
Record TradingError := mkTradingError {
  errorMessage : string; errorType : ErrorType; recoverable : bool }.

(** What an operation throws: a plain [Error] or a [TradingError]. *)
Inductive Thrown :=
| PlainError (message : string)
| Classified (e : TradingError).

Definition lower (c : ascii) : ascii :=
  let n := nat_of_ascii c in
  if ((65 <=? n) && (n <=? 90))%nat then ascii_of_nat (n + 32) else c.

(** [s.toLowerCase()] on ASCII text. *)
Fixpoint toLowerCase (s : string) : string :=
  match s with
  | EmptyString => EmptyString
  | String c r => String (lower c) (toLowerCase r)
  end.

(** [haystack.includes(needle)]. *)
Fixpoint includes (needle haystack : string) : bool :=
  if String.prefix needle haystack then true
  else match haystack with
       | EmptyString => false
       | String _ r => includes needle r
       end.

Definition includesAny (needles : list string) (haystack : string) : bool :=
  existsb (fun needle => includes needle haystack) needles.

(** [classifyError]: the first matching group of keywords decides. *)
Definition classifyError (errorMessage0 : string) : TradingError :=
  let message := toLowerCase errorMessage0 in
  if includesAny ["network"; "fetch"; "timeout"]%string message then
    mkTradingError errorMessage0 NETWORK_ERROR true
  else if includesAny ["api"; "unauthorized"; "forbidden"]%string message then
    mkTradingError errorMessage0 API_ERROR false
  else if includesAny ["order"; "trade"; "position"]%string message then
    mkTradingError errorMessage0 TRADING_ERROR true
  else if includesAny ["invalid"; "validation"; "required"]%string message then
    mkTradingError errorMessage0 VALIDATION_ERROR false
  else if includesAny ["config"; "environment"; "missing"]%string message then
    mkTradingError errorMessage0 CONFIGURATION_ERROR false
  else mkTradingError errorMessage0 UNKNOWN_ERROR false.

(** The two maps of the singleton: a type without an entry reads [None]. *)
Record Handler := mkHandler {
  errorCounts : ErrorType -> option nat;
  lastErrors : ErrorType -> option Z }.

Definition newHandler : Handler := mkHandler (fun _ => None) (fun _ => None).

(** [map.set(key, value)]. *)
Definition Map_set {V} (m : ErrorType -> option V) (key : ErrorType) (value : V)
  : ErrorType -> option V :=
  fun k => if ErrorType_eqb k key then Some value else m k.

(** [this.errorCounts.get(type) || 0]. *)
Definition countOf (h : Handler) (type : ErrorType) : nat :=
  match errorCounts h type with
  | Some n => n
  | None => 0
  end.

Definition incrementErrorCount (type : ErrorType) (now : Z) (h : Handler) : Handler :=
  let current := countOf h type in
  mkHandler (Map_set (errorCounts h) type (current + 1)%nat)
            (Map_set (lastErrors h) type now).

(** [handleError]: classify unless already a [TradingError], count, log; the
    handlers of the specific types only log.  [now] is [new Date()]. *)
Definition handleError (error : Thrown) (now : Z) (h : Handler) : Handler :=
  let tradingError :=
    match error with
    | Classified e => e
    | PlainError message => classifyError message
    end in
  incrementErrorCount (errorType tradingError) now h.

(** [getErrorStats()]: count and last occurrence of every type. *)
Definition getErrorStats (h : Handler) : list (ErrorType * (nat * option Z)) :=
  map (fun type => (type, (countOf h type, lastErrors h type))) allErrorTypes.

Definition reset (h : Handler) : Handler := newHandler.

(** All errors handled so far. *)
Definition totalErrors (h : Handler) : nat :=
  list_sum (map (countOf h) allErrorTypes).

(** What a run of the exported [withRetry] leaves behind. *)
Record Run (T : Type) := mkRun {
  result : outcome Thrown T;
  calls : nat;
  sleeps : list Q;
  handler : Handler }.
Arguments mkRun {T}.
Arguments result {T}.
Arguments calls {T}.
Arguments sleeps {T}.
Arguments handler {T}.

Section WithRetry.
Context {T : Type}.
(** [operation k h]: how call number [k] (from 0) settles, and what it does
    to the shared handler; [clock k]: the time at which its error is handled. *)
Variable operation : nat -> Handler -> outcome Thrown T * Handler.
Variable clock : nat -> Z.
Variable maxRetries : nat.
Variable delay : Q.

(** The [for (attempt = 1; attempt <= maxRetries; attempt++)] loop with [n]
    iterations left. *)
Fixpoint retryLoop (n attempt : nat) (h : Handler) (slept : list Q) : Run T :=
  match n with
  | O => mkRun (Throws (PlainError "This should never be reached")) (attempt - 1) slept h
  | S n' =>
      match operation (attempt - 1) h with
      | (Returns v, h0) => mkRun (Returns v) attempt slept h0
      | (Throws error, h0) =>
          let isLastAttempt := (attempt =? maxRetries)%nat in
          let h' := handleError error (clock (attempt - 1)) h0 in
          if isLastAttempt then mkRun (Throws error) attempt slept h'
          else
            let waitTime := delay * pow2 (attempt - 1) in
            retryLoop n' (S attempt) h' (slept ++ [waitTime])
      end
  end.

Definition withRetry (h : Handler) : Run T := retryLoop maxRetries 1 h [].

(** [safeExecute(operation, fallback)]. *)
Definition safeExecute (fallback : T) (h : Handler) : T * Handler :=
  match operation 0 h with
  | (Returns v, h0) => (v, h0)
  | (Throws error, h0) => (fallback, handleError error (clock 0) h0)
  end.
End WithRetry.










(** For the statements: the type under which [handleError] counts an error. *)
Definition typeOf (error : Thrown) : ErrorType :=
  match error with
  | Classified e => errorType e
  | PlainError message => errorType (classifyError message)
  end.

(** For the statements: an operation that does not touch the handler. *)
Definition pureOperation {T} (op : nat -> outcome Thrown T)
  : nat -> Handler -> outcome Thrown T * Handler :=
  fun k h => (op k, h).

(** For the statements: the exponential waits before attempts 2, 3, ... *)
Definition backoffs (delay : Q) (first count : nat) : list Q :=
  map (fun k => delay * pow2 k) (seq first count).

(** For the statements: call [k] fails. *)
Definition fails {T} (op : nat -> outcome Thrown T) (k : nat) : Prop :=
  exists e, op k = Throws e.

(** Test operation: two timeouts, then a value. *)
Definition twoTimeouts (k : nat) : outcome Thrown string :=
  if (k <? 2)%nat then Throws (PlainError "Request Timeout") else Returns "ok"%string.
End ErrorHandler.

(** ** Reading the portfolio *)

Module PortfolioRead.
Import JSNum Broker.
Local Open Scope Q_scope.

(** [holdings[ticker]]: [None] is [undefined]. *)
Fixpoint obj_get (o : list (string * Q)) (key : string) : option Q :=
  match o with
  | [] => None
  | (k, v) :: r => if String.eqb k key then Some v else obj_get r key
  end.

(** For the statements: the fetch of the portfolio fails when one of its
    three calls, made at [t], [t + 1] and [t + 2], rejects. *)
Definition fetchFails (alpaca : Brokerage) (t : nat) : Prop :=
  (exists e, getAccount alpaca t = Throws e) \/
  (exists e, getPositions alpaca (t + 1) = Throws e) \/
  (exists e, getOrders alpaca (t + 2) = Throws e).

(** For the statements: the trade an order of the history becomes. *)
Definition tradeOf (order : Order) : Report.Trade :=
  Report.mkTrade
    (match filled_at order with Some filled => filled | None => 0%Z end)
    (if String.eqb (order_side order) "buy" then Report.buy else Report.sell)
    (order_symbol order)
    (default0 (filled_qty order))
    (default0 (filled_avg_price order))
    (default0 (filled_qty order) * default0 (filled_avg_price order)).

(** For the statements: the tool handed exactly this order to the brokerage,
    or none. *)
Definition submits (w : World) (run : string * World) (order : OrderRequest) : Prop :=
  submitted (snd run) = submitted w ++ [order].

Definition submitsNothing (w : World) (run : string * World) : Prop :=
  submitted (snd run) = submitted w.

(** Test brokerage: down for good. *)
Definition brokerageDown : Brokerage :=
  mkBrokerage (fun _ => Throws (mkError (Some 503%Z) None))
              (fun _ => Throws (mkError (Some 503%Z) None))
              (fun _ => Throws (mkError (Some 503%Z) None))
              (quoteAt 100)
              (fun _ _ => Throws (mkError (Some 503%Z) None)).

(** Test brokerage: $5000 of buying power, 10 AAPL held, AAPL quoted at $200. *)
Definition fundedAccount : Brokerage :=
  mkBrokerage (fun _ => Returns (mkAccount 5000 5000 7000 "ACTIVE"))
              (fun _ => Returns [mkPosition "AAPL" 10 2000])
              (fun _ => Returns [])
              (quoteAt 200)
              (fun _ _ => Returns (mkAck "order-1" "accepted")).
End PortfolioRead.

(** ** Price resolution without the synthetic stage *)

Module PriceStrict.
Import JSNum Price.
Local Open Scope Q_scope.

(** [new Error(`Unable to fetch price for ${ticker} from any data source`)]. *)
Definition noSourceError (ticker : string) : JSError :=
  mkError None (Some ("Unable to fetch price for " ++ ticker
                      ++ " from any data source")%string).

(** [getStockPrice] of the agent revision whose chain ends after the two real
    sources: the same two [try] blocks, then a [throw]; the outer [catch] logs
    and rethrows. *)
Definition getStockPrice (src : Sources) (ticker : string)
  : outcome JSError Q * list LogEvent :=
  let '(found, log1) := tryAlpaca src ticker in
  match found with
  | Some p => (Returns p, log1)
  | None =>
      let '(found, log2) := tryYahoo src ticker in
      match found with
      | Some p => (Returns p, log1 ++ log2)
      | None =>
          let error := noSourceError ticker in
          (Throws error, log1 ++ log2 ++ [FailedToGetPrice ticker error])
      end
  end.

(** For the statements: the resolver logged a fallback line. *)
Definition fallbackLogged (log : list LogEvent) : Prop :=
  exists t p, In (UsingFallback t p) log.

(** Test world: a quote of 10.004 / 10.005. *)
Definition oddQuote : Sources :=
  mkSources (fun _ => Returns (Some (mkQuote 10.004 10.005)))
            (fun _ => Throws (mkError None None)) 0.
End PriceStrict.

(** ** Market scheduler: the wall clock of New York *)

Module MarketClock.
Import Market.
Local Open Scope Z_scope.

(** The fields of
    [new Date(now.toLocaleString("en-US", {timeZone: "America/New_York"}))]
    when New York is [offset] minutes east of UTC (-240 in summer, -300 in
    winter). *)
Definition newYorkClock (offset : Z) (t : Z) : WallClock :=
  let minuteOfDay := ((t + offset * msPerMinute) mod msPerDay) / msPerMinute in
  mkClock (Date_getDay offset t) (minuteOfDay / 60) (minuteOfDay mod 60).

Definition EDT : Z := -240.
Definition EST : Z := -300.

(** [isMarketOpen()] evaluated at instant [t]. *)
Definition isMarketOpenAt (TESTING_MODE : option string) (offset t : Z) : bool :=
  isMarketOpen TESTING_MODE (newYorkClock offset t).
End MarketClock.

(** ** Profile and model names ([getProfileName], [normalizeModelName]) *)

Module Config.
Import ErrorHandler.
Local Open Scope string_scope.

(** [process.env.MODEL || "gpt-4o"]. *)
Definition modelNameOf (MODEL : option string) : string :=
  match MODEL with
  | Some EmptyString | None => "gpt-4o"
  | Some m => m
  end.

(** [getProfileName] of [src/agent.ts]; [PROFILE_NAME] is the environment
    variable. *)
Definition getProfileName (modelName : string) (PROFILE_NAME : option string) : string :=
  let autoDetect :=
    if includes "gpt-4o" modelName then "gpt4o"
    else if includes "claude" modelName then "claude"
    else "default" in
  match PROFILE_NAME with
  | Some EmptyString | None => autoDetect
  | Some profileName =>
      let isValidMatch :=
        (includes "gpt-4o" modelName && String.eqb profileName "gpt4o")
        || (includes "claude" modelName && String.eqb profileName "claude")
        || String.eqb profileName "default" in
      if isValidMatch then profileName else autoDetect
  end.

(** [envFile]: the environment file of the profile. *)
Definition envFile (profileName : string) : string :=
  if String.eqb profileName "default" then ".env" else ".env." ++ profileName.

Definition normalizeModelName (modelName : string) : string :=
  if includes "gemini-2.5-pro" modelName then "gemini-2.5-pro"
  else if includes "gemini-2.5-flash" modelName then "gemini-2.5-flash"
  else if includes "gemini-2.0-flash" modelName then "gemini-2.0-flash"
  else if includes "gemini-1.5-flash" modelName then "gemini-1.5-flash"
  else if includes "gemini-1.5" modelName then "gemini-1.5-pro"
  else if includes "gemini" modelName then "gemini-2.5-flash"
  else modelName.
End Config.

(** ** The tool_code parser ([parseToolCodeString]) *)

Module ToolCode.

(** A JavaScript string as its list of code units (all below 256 here). *)
Definition chars (s : string) : list ascii := list_ascii_of_string s.

Definition code (c : ascii) : nat := nat_of_ascii c.

(** [\w]: a letter, a digit or the underscore. *)
Definition isWordChar (c : ascii) : bool :=
  ((48 <=? code c) && (code c <=? 57)) || ((65 <=? code c) && (code c <=? 90))
  || ((97 <=? code c) && (code c <=? 122)) || (code c =? 95).

(** What [.] refuses: line feed and carriage return. *)
Definition isLineTerminator (c : ascii) : bool := (code c =? 10) || (code c =? 13).

(** What [trim] removes: tab, line feed, vertical tab, form feed, carriage
    return, space and the no-break space. *)
Definition isWhiteSpace (c : ascii) : bool :=
  existsb (Nat.eqb (code c)) [9; 10; 11; 12; 13; 32; 160].

Definition doubleQuote : ascii := ascii_of_nat 34.

Definition isQuote (c : ascii) : bool := (code c =? 34) || (code c =? 39).
Definition isBackslash (c : ascii) : bool := code c =? 92.
Definition isComma (c : ascii) : bool := code c =? 44.
Definition isEquals (c : ascii) : bool := code c =? 61.

Fixpoint trimStart (s : list ascii) : list ascii :=
  match s with
  | c :: r => if isWhiteSpace c then trimStart r else s
  | [] => []
  end.

Definition trim (s : list ascii) : list ascii := rev (trimStart (rev (trimStart s))).

Fixpoint stripPrefix (p s : list ascii) : option (list ascii) :=
  match p, s with
  | [], _ => Some s
  | a :: p', b :: s' => if Ascii.eqb a b then stripPrefix p' s' else None
  | _ :: _, [] => None
  end.

(** The text before a closing [c] at the very end. *)
Definition stripLast (c : ascii) (s : list ascii) : option (list ascii) :=
  match rev s with
  | c' :: r => if Ascii.eqb c c' then Some (rev r) else None
  | [] => None
  end.

(** The greedy any-character group up to the end: any text without a line
    terminator. *)
Definition dotStar (s : list ascii) : bool := forallb (fun c => negb (isLineTerminator c)) s.

(** The pattern of the print wrapper, anchored at both ends: the captured
    group. *)
Definition matchPrint (s : list ascii) : option (list ascii) :=
  match stripPrefix (chars "print(") s with
  | Some rest =>
      match stripLast ")" rest with
      | Some inner => if dotStar inner then Some inner else None
      | None => None
      end
  | None => None
  end.

(** The longest run of word characters at the start, and what follows. *)
Fixpoint wordPrefix (s : list ascii) : list ascii * list ascii :=
  match s with
  | c :: r => if isWordChar c then let '(w, rest) := wordPrefix r in (c :: w, rest)
              else ([], s)
  | [] => ([], [])
  end.

(** The pattern of a call, anchored at both ends: the word characters before
    the opening parenthesis and the text up to the closing one. *)
Definition matchCall (s : list ascii) : option (list ascii * list ascii) :=
  match wordPrefix s with
  | (c :: w, open :: rest) =>
      if Ascii.eqb open "(" then
        match stripLast ")" rest with
        | Some inner => if dotStar inner then Some (c :: w, inner) else None
        | None => None
        end
      else None
  | _ => None
  end.

(** [const [key, ...valueParts] = pair.split('=')] with [valueParts.join('=')]:
    the text before the first [=], and the text after it when there is one. *)
Fixpoint splitEquals (pair : list ascii) : list ascii * option (list ascii) :=
  match pair with
  | [] => ([], None)
  | c :: r => if isEquals c then ([], Some r)
              else let '(key, value) := splitEquals r in (c :: key, value)
  end.

Definition startsWith (c : ascii) (s : list ascii) : bool :=
  match s with c' :: _ => Ascii.eqb c c' | [] => false end.

Definition endsWith (c : ascii) (s : list ascii) : bool := startsWith c (rev s).

(** [value.slice(1, -1)]. *)
Definition slice_1_m1 (s : list ascii) : list ascii := removelast (tl s).

Definition Args := gmap (list ascii) (list ascii).

(** [args_temp[key] = value] on an object literal: assigning a string to
    [__proto__] changes nothing. *)
Definition assign (args : Args) (key value : list ascii) : Args :=
  if decide (key = chars "__proto__") then args else <[key := value]> args.

(** The block run for each pair, at a comma and after the loop. *)
Definition processPair (currentPair : list ascii) (args_temp : Args) : Args :=
  match trim currentPair with
  | [] => args_temp
  | _ :: _ =>
      match splitEquals currentPair with
      | ((_ :: _) as key, Some joined) =>
          let value := trim joined in
          let value :=
            if (startsWith "'" value && endsWith "'" value)
               || (startsWith doubleQuote value && endsWith doubleQuote value)
            then slice_1_m1 value else value in
          assign args_temp (trim key) value
      | _ => args_temp
      end
  end.

Record Scan := mkScan {
  args_temp : Args; currentPair : list ascii; inQuotes : bool; quoteChar : option ascii }.

(** One turn of the loop over [argsString]; [previous] is [argsString[i-1]],
    absent when [i === 0]. *)
Definition scanChar (previous : option ascii) (char : ascii) (st : Scan) : Scan :=
  let unescaped :=
    match previous with None => true | Some p => negb (isBackslash p) end in
  let st :=
    if isQuote char && unescaped then
      if negb (inQuotes st) then mkScan (args_temp st) (currentPair st) true (Some char)
      else if decide (Some char = quoteChar st)
           then mkScan (args_temp st) (currentPair st) false None
           else st
    else st in
  if isComma char && negb (inQuotes st) then
    mkScan (processPair (currentPair st) (args_temp st)) [] (inQuotes st) (quoteChar st)
  else
    mkScan (args_temp st) (currentPair st ++ [char]) (inQuotes st) (quoteChar st).

Fixpoint scan (previous : option ascii) (argsString : list ascii) (st : Scan) : Scan :=
  match argsString with
  | [] => st
  | char :: rest => scan (Some char) rest (scanChar previous char st)
  end.

Definition parseArgs (argsString : list ascii) : Args :=
  let st := scan None argsString (mkScan ∅ [] false None) in
  processPair (currentPair st) (args_temp st).

(** [parseToolCodeString]: [None] is the [null] answer. *)
Definition parseToolCodeString (toolCode : list ascii) : option (list ascii * Args) :=
  let cleaned := match matchPrint toolCode with Some inner => inner | None => toolCode end in
  match matchCall cleaned with
  | None => None
  | Some (functionName, argsString) =>
      let args := match trim argsString with
                  | [] => ∅
                  | _ :: _ => parseArgs argsString
                  end in
      Some (functionName, args)
  end.

(** For the statements: how a call with quoted arguments is written. *)
Definition renderPair (arg : list ascii * list ascii) : list ascii :=
  fst arg ++ chars "='" ++ snd arg ++ chars "'".

Definition renderArgs (args : list (list ascii * list ascii)) : list ascii :=
  match args with
  | [] => []
  | arg :: rest => renderPair arg ++ concat (map (fun a => chars ", " ++ renderPair a) rest)
  end.

Definition renderCall (name : list ascii) (args : list (list ascii * list ascii))
  : list ascii :=
  name ++ chars "(" ++ renderArgs args ++ chars ")".

Definition isName (s : list ascii) : Prop := s <> [] /\ forallb isWordChar s = true.

(** An argument the parser gives back as written: the key is a name other
    than __proto__; the value has no single quote and no line break, and
    does not end in a backslash. *)
Definition plainArg (arg : list ascii * list ascii) : Prop :=
  isName (fst arg) /\ fst arg <> chars "__proto__" /\
  forallb (fun c => negb (code c =? 39) && negb (isLineTerminator c)) (snd arg) = true /\
  endsWith "\" (snd arg) = false.

Definition argsOf (args : list (list ascii * list ascii)) : Args :=
  fold_left (fun m arg => <[fst arg := snd arg]> m) args ∅.

(** For the proofs: the state of the scan between two characters. *)
Definition startsNonWs (s : list ascii) : Prop :=
  match s with c :: _ => isWhiteSpace c = false | [] => True end.

Definition unescaped (previous : option ascii) : bool :=
  match previous with None => true | Some p => negb (isBackslash p) end.

Definition previousAfter (previous : option ascii) (s : list ascii) : option ascii :=
  match last s with Some c => Some c | None => previous end.

Definition plainChar (c : ascii) : bool := negb (isQuote c) && negb (isComma c).

Definition buyCall : list ascii := chars "print(buy(ticker='AAPL', shares='10'))".
End ToolCode.

(** ** Valued holdings ([calculatePortfolioValue]) *)

Module PortfolioValue.
Import JSNum Broker.
Local Open Scope Q_scope.





Section Agent.
Variable alpaca : Brokerage.




End Agent.



End PortfolioValue.

(** * Properties *)

(** ** JS numbers *)

Module JSNumFacts.
Import JSNum.
Local Open Scope Q_scope.

Lemma Qltb_lt x y : Qltb x y = true <-> x < y.
Proof.
  unfold Qltb. rewrite negb_true_iff. split.
  - intros H. apply Qnot_le_lt. intros Hle. apply Qle_bool_iff in Hle. congruence.
  - intros H. destruct (Qle_bool y x) eqn:E; [|reflexivity].
    apply Qle_bool_iff in E. exfalso. apply (Qlt_not_le _ _ H E).
Qed.

Lemma Qltb_ge x y : Qltb x y = false <-> y <= x.
Proof.
  unfold Qltb. rewrite negb_false_iff. apply Qle_bool_iff.
Qed.

Lemma Qfloor_half (k : Z) : Qfloor (inject_Z k + (1 # 2)) = k.
Proof.
  unfold Qfloor, Qplus, inject_Z. cbn.
  symmetry. apply (Z.div_unique _ _ k 1); lia.
Qed.

Lemma Math_round_Z (k : Z) : Math_round (inject_Z k) = inject_Z k.
Proof. unfold Math_round. now rewrite Qfloor_half. Qed.

Lemma Math_round_comp x y : x == y -> Math_round x = Math_round y.
Proof.
  intros H. unfold Math_round. f_equal. apply Qfloor_comp. rewrite H. reflexivity.
Qed.

Lemma Math_round_mono x y : x <= y -> Math_round x <= Math_round y.
Proof.
  intros H. unfold Math_round. rewrite <- Zle_Qle. apply Qfloor_resp_le.
  apply Qplus_le_compat; [exact H | apply Qle_refl].
Qed.

Lemma round2_mono x y : x <= y -> round2 x <= round2 y.
Proof.
  intros H. unfold round2. apply Qmult_le_compat_r; [|discriminate].
  apply Math_round_mono. apply Qmult_le_compat_r; [exact H | discriminate].
Qed.

(** A value with two decimals is a fixed point of the rounding. *)
Lemma round2_cents (k : Z) : round2 (inject_Z k / 100) == inject_Z k / 100.
Proof.
  unfold round2. rewrite (Math_round_comp _ (inject_Z k)) by (field; discriminate).
  rewrite Math_round_Z. reflexivity.
Qed.

(** Rounding twice is rounding once: a rounded price has two decimals. *)
Lemma round2_idempotent x : round2 (round2 x) == round2 x.
Proof. unfold round2 at 2 3. unfold Math_round. apply round2_cents. Qed.

Lemma round2_bounds (a b : Z) x :
  inject_Z a / 100 <= x -> x <= inject_Z b / 100 ->
  inject_Z a / 100 <= round2 x /\ round2 x <= inject_Z b / 100.
Proof.
  intros Ha Hb. split.
  - rewrite <- (round2_cents a). now apply round2_mono.
  - rewrite <- (round2_cents b). now apply round2_mono.
Qed.

Lemma truthy_true x : truthy x = true <-> ~ x == 0.
Proof.
  unfold truthy. rewrite negb_true_iff. split.
  - intros H E. apply Qeq_bool_iff in E. congruence.
  - intros H. destruct (Qeq_bool x 0) eqn:E; [|reflexivity].
    apply Qeq_bool_iff in E. contradiction.
Qed.

Lemma truthy_false x : truthy x = false <-> x == 0.
Proof.
  unfold truthy. rewrite negb_false_iff. apply Qeq_bool_iff.
Qed.

Lemma round2_comp x y : x == y -> round2 x = round2 y.
Proof.
  intros H. unfold round2.
  rewrite (Math_round_comp (x * 100) (y * 100)); [reflexivity|].
  rewrite H. reflexivity.
Qed.
End JSNumFacts.

(** ** Market scheduler *)

Module MarketFacts.
Import Market.
Local Open Scope Z_scope.

Lemma isMarketOpen_weekday env d h m :
  env <> Some "true"%string -> 1 <= d <= 5 ->
  isMarketOpen env (mkClock d h m) = (570 <=? h * 60 + m) && (h * 60 + m <? 960).
Proof.
  intros Henv Hd. unfold isMarketOpen.
  destruct (decide (env = Some "true"%string)) as [E|_]; [contradiction|].
  cbn [getDay getHours getMinutes].
  replace (d =? 0) with false by (symmetry; apply Z.eqb_neq; lia).
  replace (d =? 6) with false by (symmetry; apply Z.eqb_neq; lia).
  reflexivity.
Qed.

(** C10: on a weekday, with the test override off, the trading window is
    half-open: open at exactly 09:30, closed at exactly 16:00, and in general
    open exactly when 570 <= minutes-of-day < 960. *)
Theorem isMarketOpen_half_open env d :
  env <> Some "true"%string -> 1 <= d <= 5 ->
  isMarketOpen env (mkClock d 9 30) = true /\
  isMarketOpen env (mkClock d 16 0) = false /\
  forall h m, isMarketOpen env (mkClock d h m) = true <->
              570 <= h * 60 + m /\ h * 60 + m < 960.
Proof.
  intros Henv Hd. repeat split.
  - rewrite isMarketOpen_weekday by assumption. reflexivity.
  - rewrite isMarketOpen_weekday by assumption. reflexivity.
  - rewrite isMarketOpen_weekday in H by assumption.
    apply andb_prop in H as [H _]. apply Z.leb_le in H. exact H.
  - rewrite isMarketOpen_weekday in H by assumption.
    apply andb_prop in H as [_ H]. apply Z.ltb_lt in H. exact H.
  - intros [H1 H2]. rewrite isMarketOpen_weekday by assumption.
    apply andb_true_intro. split; [apply Z.leb_le | apply Z.ltb_lt]; assumption.
Qed.

Lemma isMarketOpen_half_open_witness :
  isMarketOpen None (mkClock 3 9 30) = true /\
  isMarketOpen None (mkClock 3 16 0) = false /\
  forall h m, isMarketOpen None (mkClock 3 h m) = true <->
              570 <= h * 60 + m /\ h * 60 + m < 960.
Proof. apply (isMarketOpen_half_open None 3); [discriminate | lia]. Defined.

(** The local calendar date of an opening instant is the date it was built from. *)
Lemma localDate_openingOf tz d :
  -720 <= tz < 630 -> localDate tz (openingOf d) = d.
Proof.
  intros Htz. unfold localDate, openingOf, Date_UTC, msPerDay, msPerHour, msPerMinute.
  symmetry. apply (Z.div_unique _ _ d (48600000 + tz * 60000)); lia.
Qed.

Lemma localDate_addDays tz t k :
  localDate tz (Date_addDays t k) = localDate tz t + k.
Proof.
  unfold localDate, Date_addDays, msPerDay, msPerMinute.
  replace (t + k * 86400000 + tz * 60000) with (t + tz * 60000 + k * 86400000) by lia.
  apply Z.div_add. lia.
Qed.

Lemma openingOf_addDays d k : Date_addDays (openingOf d) k = openingOf (d + k).
Proof. unfold Date_addDays, openingOf, Date_UTC. lia. Qed.

(** The closed form of [getNextMarketOpen]: the opening of tomorrow's local
    date, pushed to Monday when tomorrow is a Saturday or a Sunday. *)
Lemma getNextMarketOpen_closed_form tz now :
  -720 <= tz < 630 ->
  let d := localDate tz now + 1 in
  getNextMarketOpen tz now =
    openingOf (d + (if (d + 4) mod 7 =? 6 then 2
                    else if (d + 4) mod 7 =? 0 then 1 else 0)).
Proof.
  intros Htz d. unfold getNextMarketOpen.
  rewrite localDate_addDays. fold d. fold (openingOf d).
  unfold Date_getDay. rewrite localDate_openingOf by assumption.
  destruct ((d + 4) mod 7 =? 6).
  - apply openingOf_addDays.
  - destruct ((d + 4) mod 7 =? 0).
    + apply openingOf_addDays.
    + f_equal. lia.
Qed.

Lemma now_before_tomorrows_opening tz now k :
  -720 <= tz < 630 -> 1 <= k -> now < openingOf (localDate tz now + k).
Proof.
  intros Htz Hk. unfold openingOf, Date_UTC, localDate, msPerDay, msPerHour, msPerMinute.
  pose proof (Z.mod_pos_bound (now + tz * 60000) 86400000 ltac:(lia)) as Hm.
  pose proof (Z.div_mod (now + tz * 60000) 86400000 ltac:(lia)) as Hd.
  nia.
Qed.

(** What [getNextMarketOpen] computes: 13:30 UTC (09:30 New York daylight
    time) of the calendar day after the current local date, never of the
    current day, moved to Monday when that day is a Saturday or Sunday.  The
    result is strictly in the future and never on a weekend; on a Friday it is
    the following Monday. *)
Theorem getNextMarketOpen_tomorrow tz now :
  -720 <= tz < 630 ->
  let r := getNextMarketOpen tz now in
  let d := localDate tz now + 1 in
  now < r /\
  r = openingOf (d + (if (d + 4) mod 7 =? 6 then 2
                      else if (d + 4) mod 7 =? 0 then 1 else 0)) /\
  localDate tz now < localDate tz r /\
  Date_getDay tz r <> 0 /\ Date_getDay tz r <> 6 /\
  (Date_getDay tz now = 5 ->
     r = openingOf (localDate tz now + 3) /\ Date_getDay tz r = 1).
Proof.
  intros Htz r d.
  assert (Hr : r = openingOf (d + (if (d + 4) mod 7 =? 6 then 2
                      else if (d + 4) mod 7 =? 0 then 1 else 0)))
    by (apply getNextMarketOpen_closed_form; assumption).
  assert (Hday : localDate tz r = d + (if (d + 4) mod 7 =? 6 then 2
                      else if (d + 4) mod 7 =? 0 then 1 else 0))
    by (rewrite Hr; apply localDate_openingOf; assumption).
  split; [|split; [exact Hr|]].
  - rewrite Hr. unfold d. rewrite <- Z.add_assoc.
    apply now_before_tomorrows_opening; [assumption|].
    destruct (_ =? 6); [lia|]. destruct (_ =? 0); lia.
  - unfold Date_getDay. rewrite Hday. rewrite Hr. subst d.
    set (n := localDate tz now) in *. clearbody n. clear Hr Hday r.
    destruct ((n + 1 + 4) mod 7 =? 6) eqn:E6;
      [apply Z.eqb_eq in E6 | apply Z.eqb_neq in E6;
       destruct ((n + 1 + 4) mod 7 =? 0) eqn:E0;
       [apply Z.eqb_eq in E0 | apply Z.eqb_neq in E0]].
    all: repeat split; try lia.
    all: try (intros H5; split).
    all: try (f_equal; lia).
    all: Z.div_mod_to_equations; lia.
Qed.

Lemma getNextMarketOpen_tomorrow_witness :
  let now := 19881 * msPerDay + 15 * msPerHour in
  Date_getDay (-240) now = 5 /\
  getNextMarketOpen (-240) now = openingOf 19884 /\
  Date_getDay (-240) (getNextMarketOpen (-240) now) = 1.
Proof.
  intros now.
  pose proof (getNextMarketOpen_tomorrow (-240) now ltac:(lia)) as H.
  cbv zeta in H. destruct H as (_ & _ & _ & _ & _ & H).
  split; [reflexivity|]. apply H. reflexivity.
Defined.

(** C9: the next opening is not always the next 09:30.  On Monday 2024-06-03
    at 12:00 UTC, which is 08:00 in New York and so before the opening of that
    weekday, the function answers Tuesday's opening and not Monday's, whether
    the process runs in New York time or in UTC. *)
Lemma getNextMarketOpen_skips_todays_opening :
  let now := 19877 * msPerDay + 12 * msPerHour in
  Date_getDay (-240) now = 1 /\ Date_getDay 0 now = 1 /\
  now < openingOf 19877 /\
  getNextMarketOpen (-240) now = openingOf 19878 /\
  getNextMarketOpen 0 now = openingOf 19878 /\
  getNextMarketOpen (-240) now <> openingOf 19877 /\
  getNextMarketOpen 0 now <> openingOf 19877.
Proof. vm_compute. repeat split; try reflexivity; discriminate. Qed.
End MarketFacts.

(** ** Annualised return *)

Module CAGRFacts.
Import CAGR.
Local Open Scope float_scope.

Lemma SFeqb_refl_not_nan s :
  s <> S754_nan -> SFeqb s s = true.
Proof.
  destruct s as [sg|sg| |sg m e]; intros H; try reflexivity; try congruence.
  - destruct sg; reflexivity.
  - unfold SFeqb, SFcompare. rewrite Z.compare_refl, Pos.compare_refl.
    destruct sg; reflexivity.
Qed.

Lemma SFcompare_swap a b c :
  SFcompare a b = Some c -> SFcompare b a = Some (CompOpp c).
Proof.
  destruct a as [[]|[]| |[] m e], b as [[]|[]| |[] m' e']; cbn; intros H; try congruence;
    try (injection H as <-; reflexivity).
  all: injection H as <-; f_equal.
  all: pose proof (Z.compare_antisym e e') as Hz;
       pose proof (Pos.compare_antisym m m') as Hp;
       unfold Pos.compare in Hp; rewrite Hz, Hp.
  all: destruct (Z.compare e e'); cbn; try reflexivity.
  all: destruct (Pos.compare_cont Eq m m'); reflexivity.
Qed.

(** [<] on floats is asymmetric and excludes [==]. *)
Lemma ltb_asym x y : (x <? y) = true -> (y <? x) = false /\ (x =? y) = false.
Proof.
  rewrite !FloatAxioms.ltb_spec, FloatAxioms.eqb_spec. unfold SFltb, SFeqb.
  destruct (SFcompare (Prim2SF x) (Prim2SF y)) as [[]|] eqn:E; try discriminate.
  intros _. rewrite (SFcompare_swap _ _ _ E). split; reflexivity.
Qed.

Lemma eqb_not_ltb x y : (x =? y) = true -> (y <? x) = false.
Proof.
  rewrite FloatAxioms.ltb_spec, FloatAxioms.eqb_spec. unfold SFltb, SFeqb.
  destruct (SFcompare (Prim2SF x) (Prim2SF y)) as [[]|] eqn:E; try discriminate.
  intros _. rewrite (SFcompare_swap _ _ _ E). reflexivity.
Qed.

(** A float that compares with anything is not NaN. *)
Lemma ltb_abs_not_nan x y : (x <? abs y) = true -> is_nan y = false.
Proof.
  intros H. unfold is_nan. rewrite FloatAxioms.eqb_spec.
  rewrite FloatAxioms.ltb_spec, FloatAxioms.abs_spec in H.
  rewrite SFeqb_refl_not_nan; [reflexivity|].
  intros E. rewrite E in H. destruct (Prim2SF x) as [| | |[] ? ?]; discriminate H.
Qed.

Lemma abs_ltb_not_nan x y : (abs y <? x) = true -> is_nan y = false.
Proof.
  intros H. unfold is_nan. rewrite FloatAxioms.eqb_spec.
  rewrite FloatAxioms.ltb_spec, FloatAxioms.abs_spec in H.
  rewrite SFeqb_refl_not_nan; [reflexivity|].
  intros E. rewrite E in H. discriminate H.
Qed.

Lemma calculateCAGR_zero_days pf cv sv :
  calculateCAGR pf 0 cv sv =
    (if is_nan (cv / sv) then nan
     else if 1 <? abs (cv / sv) then infinity
     else if abs (cv / sv) =? 1 then nan else 0) - 1.
Proof. reflexivity. Qed.

Lemma float_neq (f : float -> bool) x y : f x <> f y -> x <> y.
Proof. congruence. Qed.

(** C5 (amended): [calculateCAGR] evaluates
    [Math.pow(currentValue / startValue, 1 / (days / 365)) - 1]; at
    [days = 0] the exponent is +Infinity and the result is Infinity exactly
    when the ratio exceeds 1 in absolute value; it is -1 when the ratio is
    below 1 in absolute value, and NaN when the ratio is 1 in absolute value
    or is NaN (the IEEE-754 results, not clamped). *)
Theorem calculateCAGR_zero_days_infinity_iff pf cv sv :
  (forall days,
      calculateCAGR pf days cv sv = Math_pow pf (cv / sv) (1 / (days / 365)) - 1) /\
  (calculateCAGR pf 0 cv sv = infinity <-> (1 <? abs (cv / sv)) = true) /\
  ((abs (cv / sv) <? 1) = true -> calculateCAGR pf 0 cv sv = -1) /\
  ((abs (cv / sv) =? 1) = true \/ is_nan (cv / sv) = true ->
   calculateCAGR pf 0 cv sv = nan).
Proof.
  split; [reflexivity|]. rewrite calculateCAGR_zero_days. split; [split|split].
  - destruct (is_nan (cv / sv)); [intros H; exfalso; revert H; apply (float_neq is_nan); discriminate|].
    destruct (1 <? abs (cv / sv)); [reflexivity|].
    destruct (abs (cv / sv) =? 1); intros H; exfalso; revert H.
    + apply (float_neq is_nan); discriminate.
    + apply (float_neq is_infinity); discriminate.
  - intros H. rewrite (ltb_abs_not_nan _ _ H), H. reflexivity.
  - intros H. rewrite (abs_ltb_not_nan _ _ H).
    destruct (ltb_asym _ _ H) as [H1 H2].
    rewrite H1, H2. reflexivity.
  - intros [H|H].
    + rewrite (eqb_not_ltb _ _ H), H. destruct (is_nan (cv / sv)); reflexivity.
    + rewrite H. reflexivity.
Qed.

Lemma calculateCAGR_zero_days_infinity_iff_witness :
  calculateCAGR (fun _ _ => 0) 0 1500 1000 = infinity /\
  calculateCAGR (fun _ _ => 0) 0 500 1000 = -1.
Proof.
  pose proof (calculateCAGR_zero_days_infinity_iff (fun _ _ => 0) 1500 1000) as (_ & H & _).
  pose proof (calculateCAGR_zero_days_infinity_iff (fun _ _ => 0) 500 1000) as (_ & _ & H' & _).
  split; [apply H | apply H']; reflexivity.
Defined.

(** C5 (as stated) fails: with [days = 0] and a current value below the
    start value the result is -1, and with both values equal it is NaN;
    neither is Infinity, whatever [Math.pow] does at finite exponents. *)
Lemma calculateCAGR_zero_days_not_always_infinity :
  (forall pf, calculateCAGR pf 0 500 1000 = -1) /\
  (forall pf, calculateCAGR pf 0 1000 1000 = nan) /\
  (forall pf, calculateCAGR_agent pf 0 500 = -1) /\
  ~ (forall pf cv sv, calculateCAGR pf 0 cv sv = infinity).
Proof.
  repeat split.
  intros H. specialize (H (fun _ _ => 0) 500 1000). revert H.
  apply (float_neq is_infinity). discriminate.
Qed.
End CAGRFacts.

(** ** Report P&L *)

Module ReportFacts.
Import JSNum JSNumFacts Report.
Local Open Scope Q_scope.

Lemma fold_left_sum {A} (f : A -> Q) (l : list A) (a : Q) :
  fold_left (fun sum t => sum + f t) l a == a + sumQ (map f l).
Proof.
  revert a. induction l as [|x l IH]; intros a; cbn.
  - ring.
  - rewrite IH. ring.
Qed.

Lemma sumQ_insert_sorted {A} (f : A -> Q) cmp (x : A) (l : list A) :
  sumQ (map f (insert_sorted cmp x l)) == f x + sumQ (map f l).
Proof.
  induction l as [|y l IH]; cbn.
  - reflexivity.
  - destruct (cmp x y <=? 0)%Z; cbn.
    + reflexivity.
    + rewrite IH. ring.
Qed.

(** Sorting does not change a sum. *)
Lemma sumQ_Array_sort {A} (f : A -> Q) cmp (l : list A) :
  sumQ (map f (Array_sort cmp l)) == sumQ (map f l).
Proof.
  induction l as [|x l IH]; cbn.
  - reflexivity.
  - rewrite sumQ_insert_sorted, IH. reflexivity.
Qed.

Lemma length_insert_sorted {A} cmp (x : A) l :
  length (insert_sorted cmp x l) = S (length l).
Proof.
  induction l as [|y l IH]; cbn; [reflexivity|].
  destruct (cmp x y <=? 0)%Z; cbn; [reflexivity|]. now rewrite IH.
Qed.

Lemma length_Array_sort {A} cmp (l : list A) : length (Array_sort cmp l) = length l.
Proof.
  unfold Array_sort. induction l as [|x l IH]; cbn; [reflexivity|].
  now rewrite length_insert_sorted, IH.
Qed.

(** The weighted-average cost basis of the report writers: for a sell with at
    least one earlier buy of the same ticker and a positive number of bought
    shares, the average is the summed totals over the summed shares of those
    buys, and the P&L figures follow from it. *)
Lemma tradePnL_weighted_average history trade :
  type trade = sell ->
  priorBuys history trade <> [] ->
  0 < sumQ (map shares (priorBuys history trade)) ->
  exists r, tradePnL history trade = Some r /\
    avgBuyPrice r == sumQ (map total (priorBuys history trade))
                     / sumQ (map shares (priorBuys history trade)) /\
    pnl r == (price trade - avgBuyPrice r) * shares trade /\
    (0 < avgBuyPrice r ->
     pnlPercent r == (price trade - avgBuyPrice r) / avgBuyPrice r * 100).
Proof.
  intros Hsell Hne Hpos. unfold tradePnL. rewrite Hsell. cbn [Side_eqb].
  fold (priorBuys history trade).
  set (sorted := Array_sort _ (priorBuys history trade)).
  assert (Hlen : (0 <? length sorted)%nat = true).
  { apply Nat.ltb_lt. unfold sorted. rewrite length_Array_sort.
    destruct (priorBuys history trade); [congruence | cbn; lia]. }
  rewrite Hlen.
  assert (Hs : fold_left (fun sum t => sum + shares t) sorted 0
               == sumQ (map shares (priorBuys history trade))).
  { rewrite fold_left_sum. unfold sorted. rewrite sumQ_Array_sort. ring. }
  assert (Ht : fold_left (fun sum t => sum + total t) sorted 0
               == sumQ (map total (priorBuys history trade))).
  { rewrite fold_left_sum. unfold sorted. rewrite sumQ_Array_sort. ring. }
  assert (Hb : Qltb 0 (fold_left (fun sum t => sum + shares t) sorted 0) = true).
  { apply Qltb_lt. rewrite Hs. exact Hpos. }
  rewrite Hb. eexists. split; [reflexivity|]. cbn [avgBuyPrice pnl pnlPercent].
  split; [rewrite Hs, Ht; reflexivity|]. split; [reflexivity|].
  intros Havg. apply Qltb_lt in Havg. rewrite Havg. reflexivity.
Qed.

(** C1 (amended): for buys of 5 shares at $100 and 5 shares at $120 of a
    ticker followed by a sell of 5 shares at $130 of that ticker, the report
    P&L is avgBuyPrice = 110, pnl = 100 and pnlPercent = 200/11, about 18.18%
    (not 9.09%); the average is the weighted-average cost basis, summed totals
    over summed shares of the buys of the ticker dated strictly before the
    sell. *)
Theorem tradePnL_two_buys_one_sell tk (d1 d2 d3 : Z) :
  (d1 < d3)%Z -> (d2 < d3)%Z ->
  let b1 := mkTrade d1 buy tk 5 100 500 in
  let b2 := mkTrade d2 buy tk 5 120 600 in
  let s := mkTrade d3 sell tk 5 130 650 in
  priorBuys [b1; b2; s] s = [b1; b2] /\
  exists r, tradePnL [b1; b2; s] s = Some r /\
    avgBuyPrice r == (total b1 + total b2) / (shares b1 + shares b2) /\
    avgBuyPrice r == 110 /\ pnl r == 100 /\ pnlPercent r == 200 # 11 /\
    18.18 < pnlPercent r /\ pnlPercent r < 18.19.
Proof.
  intros H1 H2 b1 b2 s.
  assert (Hp : priorBuys [b1; b2; s] s = [b1; b2]).
  { unfold priorBuys, isPriorBuy. cbn. rewrite String.eqb_refl.
    apply Z.ltb_lt in H1, H2. rewrite H1, H2, Z.ltb_irrefl. reflexivity. }
  split; [exact Hp|].
  destruct (tradePnL_weighted_average [b1; b2; s] s) as (r & Hr & Havg & Hpnl & Hpct).
  - reflexivity.
  - rewrite Hp. discriminate.
  - rewrite Hp. reflexivity.
  - exists r. split; [exact Hr|]. rewrite Hp in Havg. cbn in Havg.
    assert (Ha : avgBuyPrice r == 110) by (rewrite Havg; reflexivity).
    assert (Hq : pnlPercent r == 200 # 11).
    { rewrite Hpct by (rewrite Ha; reflexivity). rewrite Ha. reflexivity. }
    split; [rewrite Havg; reflexivity|]. split; [exact Ha|].
    split; [rewrite Hpnl, Ha; reflexivity|]. split; [exact Hq|].
    rewrite Hq. split; reflexivity.
Qed.

Lemma tradePnL_two_buys_one_sell_witness :
  exists r,
    tradePnL [mkTrade 1000 buy "AAPL" 5 100 500; mkTrade 2000 buy "AAPL" 5 120 600;
              mkTrade 3000 sell "AAPL" 5 130 650]
             (mkTrade 3000 sell "AAPL" 5 130 650) = Some r /\
    avgBuyPrice r == 110 /\ pnl r == 100 /\ pnlPercent r == 200 # 11.
Proof.
  destruct (tradePnL_two_buys_one_sell "AAPL" 1000 2000 3000 ltac:(lia) ltac:(lia))
    as (_ & r & Hr & _ & Ha & Hp & Hq & _).
  exists r. repeat split; assumption.
Defined.

(** C1 (as stated) fails in its last figure: on that history the code's
    pnlPercent is 200/11 = 18.18..., more than 9 away from 9.09. *)
Lemma tradePnL_percent_is_not_9_09 :
  let s := mkTrade 3000 sell "AAPL" 5 130 650 in
  let h := [mkTrade 1000 buy "AAPL" 5 100 500; mkTrade 2000 buy "AAPL" 5 120 600; s] in
  exists r, tradePnL h s = Some r /\
    avgBuyPrice r == 110 /\ pnl r == 100 /\
    pnlPercent r == 200 # 11 /\ ~ (Qabs (pnlPercent r - 9.09) <= 9).
Proof.
  eexists. split; [vm_compute; reflexivity|]. cbn [avgBuyPrice pnl pnlPercent].
  repeat split. intros H. vm_compute in H. apply H. reflexivity.
Qed.
End ReportFacts.

(** ** Price resolution *)

Module PriceFacts.
Import JSNum JSNumFacts Price.
Local Open Scope Q_scope.

(** Every entry of the known-ticker table is truthy, has two decimals and lies
    between 4.25 and 550.20. *)
Lemma mockPrices_entries key m :
  lookupPrice mockPrices key = Some m ->
  truthy m = true /\ round2 m == m /\ 4.25 <= m /\ m <= 550.20.
Proof.
  unfold mockPrices, lookupPrice.
  repeat (match goal with
          | |- context [String.eqb ?a key] => destruct (String.eqb a key)
          end;
          [intros H; injection H as <-; vm_compute; repeat split; discriminate|]).
  discriminate.
Qed.

Lemma tryAlpaca_available src t q :
  getLatestQuote src t = Returns (Some q) ->
  ~ BidPrice q == 0 -> ~ AskPrice q == 0 ->
  tryAlpaca src t =
    (Some (round2 ((BidPrice q + AskPrice q) / 2)),
     [FoundViaAlpaca t ((BidPrice q + AskPrice q) / 2)]).
Proof.
  intros Hq Hb Ha. unfold tryAlpaca. rewrite Hq.
  apply truthy_true in Hb, Ha. rewrite Hb, Ha. reflexivity.
Qed.

Lemma tryAlpaca_fails src t :
  primaryFails src t -> exists log, tryAlpaca src t = (None, log) /\ noFallbackLogged log.
Proof.
  unfold primaryFails, tryAlpaca, noFallbackLogged.
  destruct (getLatestQuote src t) as [[q|]|e]; intros H.
  - exists []. destruct H as [H|H]; apply truthy_false in H; rewrite H;
      rewrite ?andb_false_r; split; [reflexivity | intros ? ? []| reflexivity | intros ? ? []].
  - exists []. split; [reflexivity | intros ? ? []].
  - eexists. split; [reflexivity|]. intros ? ? [E|[]]. discriminate E.
Qed.

Lemma tryYahoo_available src t r y :
  fetchChart src t = Returns r -> ok r = true ->
  json r = Returns (Some (JNumber y)) -> 0 < y ->
  tryYahoo src t = (Some y, [FoundViaYahoo t y]).
Proof.
  intros Hr Hok Hj Hy. unfold tryYahoo. rewrite Hr, Hok, Hj.
  assert (Ht : truthy y = true).
  { apply truthy_true. intros E. rewrite E in Hy. discriminate Hy. }
  apply Qltb_lt in Hy. rewrite Ht, Hy. reflexivity.
Qed.

Lemma tryYahoo_fails src t :
  secondaryFails src t -> exists log, tryYahoo src t = (None, log) /\ noFallbackLogged log.
Proof.
  unfold secondaryFails, tryYahoo, noFallbackLogged.
  destruct (fetchChart src t) as [r|e]; intros H.
  - destruct (ok r).
    + destruct H as [H|H]; [discriminate H|].
      destruct (json r) as [[[y|s|b|]|]|e];
        try (eexists; split; [reflexivity|]; intros ? ? [E|[]]; discriminate E);
        try (exists []; split; [reflexivity | intros ? ? []]).
      exists []. split; [|intros ? ? []].
      destruct (Qltb 0 y) eqn:E; [|now rewrite andb_false_r].
      apply Qltb_lt in E. exfalso. apply (Qlt_not_le _ _ E H).
    + exists []. split; [reflexivity | intros ? ? []].
  - eexists. split; [reflexivity|]. intros ? ? [E|[]]. discriminate E.
Qed.
Lemma Math_round_near y :
  y - (1 # 2) < Math_round y /\ Math_round y <= y + (1 # 2).
Proof.
  unfold Math_round.
  pose proof (Qfloor_le (y + (1 # 2))) as Hle.
  pose proof (Qlt_floor (y + (1 # 2))) as Hlt.
  rewrite inject_Z_plus in Hlt. change (inject_Z 1) with 1 in Hlt.
  split; lra.
Qed.

(** Rounding to cents never moves a value by more than half a cent. *)
Lemma round2_near x : x - (1 # 200) < round2 x /\ round2 x <= x + (1 # 200).
Proof.
  unfold round2. destruct (Math_round_near (x * 100)) as [H1 H2].
  set (r := Math_round (x * 100)) in *.
  assert (E : r / 100 == r * (1 # 100)) by (field).
  rewrite E. split; lra.
Qed.

(** Rounding to cents keeps a value strictly within one cent. *)
Lemma round2_within_cent x : x - 0.01 < round2 x /\ round2 x < x + 0.01.
Proof. destruct (round2_near x) as [H1 H2]. split; lra. Qed.

Lemma fallback_random_range src :
  0 <= Math_random src -> Math_random src < 1 ->
  50 <= round2 (50 + Math_random src * 200) /\ round2 (50 + Math_random src * 200) <= 250.
Proof.
  intros H0 H1.
  assert (E1 : inject_Z 5000 / 100 == 50) by reflexivity.
  assert (E2 : inject_Z 25000 / 100 == 250) by reflexivity.
  destruct (round2_bounds 5000 25000 (50 + Math_random src * 200)) as [Ha Hb].
  - rewrite E1. lra.
  - rewrite E2. lra.
  - rewrite E1 in Ha. rewrite E2 in Hb. split; assumption.
Qed.

(** C2 (amended): the three-stage [getStockPrice] of the earlier agent
    revision never raises.  When the brokerage quote has non-zero bid and ask
    it returns the price of the first stage, the mid price (bid+ask)/2 to the
    cent (less than one cent away from it), and logs the mid price; when the
    primary gives no price it returns the secondary's [regularMarketPrice]
    when that is a positive number; when both give none it returns the
    fallback, logged with its own fallback line that the other branches never
    write: the known-ticker table entry (between 4.25 and 550.20) when the
    upper-cased ticker is in the table, and otherwise a random value in
    [50, 250]. *)
Theorem getStockPrice_chain src ticker :
  0 <= Math_random src -> Math_random src < 1 ->
  (exists p, fst (getStockPrice src ticker) = Returns p) /\
  (forall q, getLatestQuote src ticker = Returns (Some q) ->
             ~ BidPrice q == 0 -> ~ AskPrice q == 0 ->
     exists p, fst (getStockPrice src ticker) = Returns p /\
       fst (tryAlpaca src ticker) = Some p /\
       (BidPrice q + AskPrice q) / 2 - 0.01 < p /\
       p < (BidPrice q + AskPrice q) / 2 + 0.01 /\
       snd (getStockPrice src ticker)
       = [FoundViaAlpaca ticker ((BidPrice q + AskPrice q) / 2)] /\
       noFallbackLogged (snd (getStockPrice src ticker))) /\
  (primaryFails src ticker ->
   forall r y, fetchChart src ticker = Returns r -> ok r = true ->
               json r = Returns (Some (JNumber y)) -> 0 < y ->
     fst (getStockPrice src ticker) = Returns y /\
     noFallbackLogged (snd (getStockPrice src ticker))) /\
  (primaryFails src ticker -> secondaryFails src ticker ->
   exists p, fst (getStockPrice src ticker) = Returns p /\
     In (UsingFallback ticker (fallbackPriceOf src ticker)) (snd (getStockPrice src ticker)) /\
     (forall m, lookupPrice mockPrices (toUpperCase ticker) = Some m ->
        fallbackPriceOf src ticker = m /\ p == m /\ 4.25 <= m /\ m <= 550.20) /\
     (lookupPrice mockPrices (toUpperCase ticker) = None -> 50 <= p /\ p <= 250)).
Proof.
  intros H0 H1. split; [|split; [|split]].
  - unfold getStockPrice, getStockPrice_body.
    destruct (tryAlpaca src ticker) as [[p|] l1]; [eexists; reflexivity|].
    destruct (tryYahoo src ticker) as [[p|] l2]; eexists; reflexivity.
  - intros q Hq Hb Ha. unfold getStockPrice, getStockPrice_body.
    rewrite (tryAlpaca_available _ _ _ Hq Hb Ha). cbn [fst snd].
    destruct (round2_within_cent ((BidPrice q + AskPrice q) / 2)) as [Hlo Hhi].
    eexists. split; [reflexivity|]. split; [reflexivity|].
    split; [exact Hlo|]. split; [exact Hhi|]. split; [reflexivity|].
    intros t p [E|[]]. discriminate E.
  - intros Hp r y Hr Hok Hj Hy. unfold getStockPrice, getStockPrice_body.
    destruct (tryAlpaca_fails _ _ Hp) as (l1 & -> & Hl1).
    rewrite (tryYahoo_available _ _ _ _ Hr Hok Hj Hy). cbn [fst snd]. split; [reflexivity|].
    intros t p Hin. apply in_app_or in Hin as [Hin|[E|[]]].
    + exact (Hl1 _ _ Hin).
    + discriminate E.
  - intros Hp Hs. unfold getStockPrice, getStockPrice_body.
    destruct (tryAlpaca_fails _ _ Hp) as (l1 & -> & Hl1).
    destruct (tryYahoo_fails _ _ Hs) as (l2 & -> & Hl2). cbn [fst snd].
    eexists. split; [reflexivity|]. split; [|split].
    + apply in_or_app. right. apply in_or_app. right. left. reflexivity.
    + intros m Hm. destruct (mockPrices_entries _ _ Hm) as (Ht & Hr & Hlo & Hhi).
      unfold fallbackPriceOf. rewrite Hm, Ht. repeat split; assumption.
    + intros Hn. unfold fallbackPriceOf. rewrite Hn.
      apply fallback_random_range; assumption.
Qed.

Lemma getStockPrice_chain_witness :
  exists p, fst (getStockPrice sourcesDown "ZZZZ") = Returns p /\ 50 <= p /\ p <= 250.
Proof.
  destruct (getStockPrice_chain sourcesDown "ZZZZ") as (_ & _ & _ & Hfb).
  - discriminate.
  - reflexivity.
  - destruct (Hfb I I) as (p & Hp & _ & _ & Hrange).
    exists p. split; [exact Hp|]. apply Hrange. reflexivity.
Defined.

(** C2 (as stated) fails: with both sources down, the ticker MSFT resolves to
    its table entry 419.70, outside [50, 250] (and NIO to 4.25); the
    [getStockPrice] of [src/agent.ts] has no chain at all and rethrows when
    the brokerage quote fails; and the primary price is the mid price only to
    the cent: a quote of 10.004 / 10.005 resolves to 10, not to 10.0045. *)
Lemma getStockPrice_fallback_outside_range :
  (exists p, fst (getStockPrice sourcesDown "MSFT") = Returns p /\
             p == 419.70 /\ ~ (50 <= p /\ p <= 250)) /\
  (exists p, fst (getStockPrice sourcesDown "nio") = Returns p /\
             p == 4.25 /\ ~ (50 <= p /\ p <= 250)) /\
  fst (getStockPrice_agent sourcesDown "MSFT") = Throws (mkError (Some 503%Z) None) /\
  (exists p, fst (getStockPrice closeQuote "AAPL") = Returns p /\
             p == 10 /\ ~ p == (10.004 + 10.005) / 2).
Proof.
  split; [|split; [|split]].
  - eexists. split; [vm_compute; reflexivity|]. split; [reflexivity|].
    intros [_ H]. apply H. reflexivity.
  - eexists. split; [vm_compute; reflexivity|]. split; [reflexivity|].
    intros [H _]. apply H. reflexivity.
  - reflexivity.
  - eexists. split; [vm_compute; reflexivity|]. split; [reflexivity | discriminate].
Qed.

(** The primary and the fallback branch answer a price that rounding to
    cents leaves unchanged. *)
Lemma getStockPrice_primary_fallback_rounded :
  (forall src t q, getLatestQuote src t = Returns (Some q) ->
      ~ BidPrice q == 0 -> ~ AskPrice q == 0 ->
      exists p, fst (getStockPrice src t) = Returns p /\ round2 p == p) /\
  (forall src t, primaryFails src t -> secondaryFails src t ->
      exists p, fst (getStockPrice src t) = Returns p /\ round2 p == p).
Proof.
  split.
  - intros src t q Hq Hb Ha. unfold getStockPrice, getStockPrice_body.
    rewrite (tryAlpaca_available _ _ _ Hq Hb Ha). cbn [fst snd].
    eexists. split; [reflexivity | apply round2_idempotent].
  - intros src t Hp Hs. unfold getStockPrice, getStockPrice_body.
    destruct (tryAlpaca_fails _ _ Hp) as (l1 & -> & _).
    destruct (tryYahoo_fails _ _ Hs) as (l2 & -> & _). cbn [fst snd].
    eexists. split; [reflexivity | apply round2_idempotent].
Qed.

(** C7: the prices of the resolver are not all rounded to cents: the
    secondary branch returns the chart price as it came.  With the brokerage
    down and a chart price of 123.456 the resolver answers 123.456, which is
    not its own rounding 123.46. *)
Theorem getStockPrice_secondary_not_rounded :
  tryAlpaca yahooOnly "AAPL" = (None, [AlpacaFailed "AAPL" (mkError (Some 503%Z) None)]) /\
  fst (getStockPrice yahooOnly "AAPL") = Returns 123.456 /\
  ~ round2 123.456 == 123.456 /\ round2 123.456 == 123.46.
Proof.
  split; [reflexivity|]. split; [reflexivity|]. split; [discriminate | reflexivity].
Qed.
End PriceFacts.

(** ** Retry policy *)

Module RetryFacts.
Import JSNum Retry.
Local Open Scope Q_scope.


Lemma match_status_code_nonempty m n : match_status_code m = Some n -> m <> EmptyString.
Proof. destruct m; [discriminate | discriminate]. Qed.

(** Without a structured status, the status is the one read from the message. *)
Lemma errorStatus_from_message e m n :
  status e = None -> message e = Some m -> match_status_code m = Some n ->
  errorStatus e = Some n.
Proof.
  intros Hs Hm Hn. unfold errorStatus. rewrite Hs, Hm, Hn. cbn.
  destruct m; [discriminate Hn | reflexivity].
Qed.









Section Loop.
Context {T : Type}.
Variable fn : nat -> outcome JSError T.
Variable rnd : nat -> Q.
Variable delay : Q.




(** The sleeps are the wait times of the iterations, in order. *)
Lemma retryLoop_sleeps n : forall i last slept,
  exists m, (m <= n)%nat /\
    sleeps (retryLoop fn rnd delay n i last slept) = slept ++ map (waitTime rnd delay) (seq i m).
Proof.
  induction n as [|n IH]; intros i last slept.
  - exists O. cbn. split; [lia | now rewrite app_nil_r].
  - cbn. destruct (fn i) as [v|e].
    + exists O. cbn. split; [lia | now rewrite app_nil_r].
    + destruct (retryable (errorStatus e)).
      * destruct (IH (S i) (Some e) (slept ++ [delay * pow2 i + rnd i * 1000])) as (m & Hm & Hs).
        exists (S m). split; [lia|]. rewrite Hs, <- app_assoc. reflexivity.
      * exists O. cbn. split; [lia | now rewrite app_nil_r].
Qed.

End Loop.


(** The status is recovered from the message text, leftmost match first. *)
Example errorStatus_recovered :
  errorStatus (mkError None (Some "Request failed with 503 status code")) = Some 503%Z /\
  retryable (errorStatus (mkError None (Some "429 status code (no body)"))) = true /\
  retryable (errorStatus (mkError None (Some "400 status code"))) = false /\
  retryable (errorStatus (mkError (Some 404%Z) (Some "500 status code"))) = false /\
  retryable (errorStatus (mkError None (Some "connect ECONNRESET"))) = false.
Proof. repeat split. Qed.
End RetryFacts.

(** ** Thread store *)

Module ThreadStoreFacts.
Import ThreadStore.

Lemma hasType_true item t : hasType item t = true <-> type item = Some t.
Proof. unfold hasType. apply bool_decide_eq_true. Qed.

Lemma substring_all s : forall n,
  (String.length s <= n)%nat -> String.substring 0 n s = s.
Proof.
  induction s as [|c s IH]; intros [|n] H; cbn in *; try reflexivity; try lia.
  rewrite IH by lia. reflexivity.
Qed.

Lemma fc_cons rest :
  ("fc_" ++ rest)%string = String "f" (String "c" (String "_" rest)).
Proof. reflexivity. Qed.

Lemma String_replace_fc rest :
  String_replace "fc_" "rs_" ("fc_" ++ rest) = ("rs_" ++ rest)%string.
Proof.
  rewrite fc_cons.
  assert (E : String.substring 0 (S (S (S (String.length rest)))) rest = rest)
    by (apply substring_all; lia).
  unfold String_replace. destruct rest; cbn in *; rewrite ?E; reflexivity.
Qed.

Lemma prefix_fc s :
  String.prefix "fc_" s = true -> exists rest, s = ("fc_" ++ rest)%string.
Proof.
  destruct s as [|a [|b [|c rest]]]; cbn [String.prefix]; try discriminate.
  - destruct (ascii_dec "f" a); discriminate.
  - destruct (ascii_dec "f" a); [|discriminate]. destruct (ascii_dec "c" b); discriminate.
  - destruct (ascii_dec "f" a) as [<-|]; [|discriminate].
    destruct (ascii_dec "c" b) as [<-|]; [|discriminate].
    destruct (ascii_dec "_" c) as [<-|]; [|discriminate].
    intros _. exists rest. now rewrite fc_cons.
Qed.

Lemma hasCorruption_iff items :
  hasCorruption items = true <-> staleCallId items \/ orphanResult items.
Proof.
  unfold hasCorruption. rewrite existsb_exists. split.
  - intros (item & Hin & H). apply orb_true_iff in H as [H|H].
    + left. exists item. split; [exact Hin|]. now apply bool_decide_eq_true in H.
    + right. apply andb_true_iff in H as [Ht Hn]. exists item.
      split; [exact Hin|]. split; [now apply hasType_true|].
      intros call Hc [E1 E2]. apply negb_true_iff in Hn.
      assert (Hex : existsb (fun call0 => bool_decide (callId call0 = callId item)
                                          && hasType call0 "function_call") items = true).
      { apply existsb_exists. exists call. split; [exact Hc|].
        apply andb_true_iff. split; [now apply bool_decide_eq_true | now apply hasType_true]. }
      congruence.
  - intros [(item & Hin & H)|(item & Hin & Ht & Hn)]; exists item; (split; [exact Hin|]).
    + apply orb_true_iff. left. now apply bool_decide_eq_true.
    + apply orb_true_iff. right. apply andb_true_iff. split; [now apply hasType_true|].
      apply negb_true_iff. destruct (existsb _ items) eqn:E; [|reflexivity].
      apply existsb_exists in E as (call & Hc & H). apply andb_true_iff in H as [H1 H2].
      exfalso. apply (Hn call Hc). split; [now apply bool_decide_eq_true in H1 | now apply hasType_true].
Qed.

Lemma hasReasoningMismatch_iff items :
  hasReasoningMismatch items = true <-> missingReasoning items.
Proof.
  unfold hasReasoningMismatch. rewrite existsb_exists. split.
  - intros (fc & Hin & H). apply filter_In in Hin as [Hin Ht].
    destruct (id fc) as [fcid|] eqn:Hid; [|discriminate].
    destruct (String.eqb fcid "" || negb (String.prefix "fc_" fcid)) eqn:Hg; [discriminate|].
    apply orb_false_iff in Hg as [_ Hp]. apply negb_false_iff in Hp.
    destruct (prefix_fc _ Hp) as (rest & ->). rewrite String_replace_fc in H.
    exists fc, rest. split; [exact Hin|]. split; [now apply hasType_true|].
    split; [exact Hid|]. intros rs Hrs Hty Hrid. apply negb_true_iff in H.
    assert (Hex : existsb (fun rs0 => bool_decide (id rs0 = Some ("rs_" ++ rest)%string))
                    (List.filter (fun item => hasType item "reasoning") items) = true).
    { apply existsb_exists. exists rs. split.
      - apply filter_In. split; [exact Hrs | now apply hasType_true].
      - now apply bool_decide_eq_true. }
    congruence.
  - intros (fc & rest & Hin & Ht & Hid & Hn). exists fc. split.
    + apply filter_In. split; [exact Hin | now apply hasType_true].
    + rewrite Hid. cbn [String.eqb]. rewrite String_replace_fc.
      replace (String.prefix "fc_" ("fc_" ++ rest)) with true
        by (rewrite fc_cons; cbn; destruct rest; reflexivity).
      cbn [negb orb]. apply negb_true_iff.
      destruct (existsb _ _) eqn:E; [|reflexivity].
      apply existsb_exists in E as (rs & Hrs & H). apply filter_In in Hrs as [Hrs Hty].
      exfalso. apply (Hn rs Hrs); [now apply hasType_true | now apply bool_decide_eq_true in H].
Qed.
Lemma not_true_false b : b <> true -> b = false.
Proof. destruct b; congruence. Qed.

(** C4 (amended): on load, a function result with no matching function call,
    and a function call whose reasoning item is missing, each make
    [loadThread] copy the raw thread file to the timestamped [.corrupted-]
    file and return an empty thread; a thread of more than 50 items with
    neither defect is answered with an empty thread too, but nothing is
    written: the file system is left as it was.  ([loadThread] of
    [src/agent.ts] behaves the same on the first and the third condition and
    has no reasoning check.) *)
Theorem loadThread_quarantine profileName now fs items :
  files fs !! threadFile profileName = Some (JsonThread items) ->
  writable fs (corruptedFile profileName now) = true ->
  let quarantined :=
    mkFS (<[corruptedFile profileName now := JsonThread items]> (files fs)) (writable fs) in
  (orphanResult items \/ missingReasoning items ->
     fst (loadThread profileName now fs) = ([], quarantined)) /\
  (orphanResult items ->
     fst (loadThread_agent profileName now fs) = ([], quarantined)) /\
  (~ orphanResult items -> ~ missingReasoning items -> ~ staleCallId items ->
     (50 < length items)%nat ->
     fst (loadThread profileName now fs) = ([], fs) /\
     fst (loadThread_agent profileName now fs) = ([], fs)) /\
  (~ orphanResult items -> ~ missingReasoning items -> ~ staleCallId items ->
     (length items <= 50)%nat ->
     fst (loadThread profileName now fs) = (items, fs)).
Proof.
  intros Hfile Hw quarantined.
  assert (Hq : forall ev, fst (quarantine profileName now (JsonThread items) fs ev)
                          = ([], quarantined)).
  { intros ev. unfold quarantine, writeFile. rewrite Hw. reflexivity. }
  unfold loadThread, loadThread_agent. rewrite Hfile. cbn [JSON_parse].
  split; [|split; [|split]].
  - intros [Ho|Hm].
    + destruct (hasReasoningMismatch items); [apply Hq|].
      replace (hasCorruption items) with true
        by (symmetry; apply hasCorruption_iff; now right).
      apply Hq.
    + replace (hasReasoningMismatch items) with true
        by (symmetry; now apply hasReasoningMismatch_iff).
      apply Hq.
  - intros Ho.
    replace (hasCorruption items) with true
      by (symmetry; apply hasCorruption_iff; now right).
    apply Hq.
  - intros Ho Hm Hs Hlen.
    rewrite (not_true_false (hasReasoningMismatch items))
      by (rewrite hasReasoningMismatch_iff; exact Hm).
    rewrite (not_true_false (hasCorruption items))
      by (rewrite hasCorruption_iff; tauto).
    apply Nat.ltb_lt in Hlen. rewrite Hlen. split; reflexivity.
  - intros Ho Hm Hs Hlen.
    rewrite (not_true_false (hasReasoningMismatch items))
      by (rewrite hasReasoningMismatch_iff; exact Hm).
    rewrite (not_true_false (hasCorruption items))
      by (rewrite hasCorruption_iff; tauto).
    replace (50 <? length items)%nat with false
      by (symmetry; apply Nat.ltb_ge; exact Hlen).
    reflexivity.
Qed.

Lemma orphanThread_is_orphan : orphanResult orphanThread.
Proof.
  exists (mkItem (Some "function_call_result"%string) (Some "call_2"%string) None).
  split; [right; left; reflexivity|]. split; [reflexivity|].
  intros call [<-|[<-|[]]] [H1 H2]; discriminate.
Qed.

Lemma loadThread_quarantine_witness :
  fst (loadThread "default" 1700000000000 (diskWith "default" orphanThread))
  = ([], mkFS (<[corruptedFile "default" 1700000000000 := JsonThread orphanThread]>
                 (files (diskWith "default" orphanThread)))
              (fun _ => true)).
Proof.
  destruct (loadThread_quarantine "default" 1700000000000
              (diskWith "default" orphanThread) orphanThread) as [H _].
  - apply lookup_singleton_eq.
  - reflexivity.
  - apply H. left. exact orphanThread_is_orphan.
Defined.

(** C4 (as stated) fails on its third condition: a thread of 51 plain
    messages is answered with an empty thread, but no quarantine file is
    written; the disk is unchanged and holds nothing at the quarantine path. *)
Lemma loadThread_oversized_not_quarantined :
  let fs := diskWith "default" bloatedThread in
  length bloatedThread = 51%nat /\
  hasCorruption bloatedThread = false /\ hasReasoningMismatch bloatedThread = false /\
  loadThread "default" 1700000000000 fs = ([], fs, [HistoryTooLarge 51]) /\
  loadThread_agent "default" 1700000000000 fs = ([], fs, [HistoryTooLarge 51]) /\
  files fs !! corruptedFile "default" 1700000000000 = None.
Proof.
  intros fs. split; [reflexivity|]. split; [reflexivity|]. split; [reflexivity|].
  unfold loadThread, loadThread_agent, fs, diskWith. cbn [files].
  rewrite lookup_singleton_eq. cbn [JSON_parse].
  replace (hasReasoningMismatch bloatedThread) with false by reflexivity.
  replace (hasCorruption bloatedThread) with false by reflexivity.
  split; [reflexivity|]. split; [reflexivity|].
  apply lookup_singleton_ne. vm_compute. discriminate.
Qed.
End ThreadStoreFacts.

(** ** Trade tools and net worth *)

Module BrokerFacts.
Import JSNum JSNumFacts Broker.
Local Open Scope Q_scope.

Lemma getStockPrice_run alpaca ticker w :
  getStockPrice alpaca ticker w = (priceOf alpaca ticker, w).
Proof. reflexivity. Qed.

Section ToolFacts.
Variable alpaca : Brokerage.
Variable show toFixed2 : Q -> string.
Variable showError : JSError -> string.

Local Abbreviation buyTool := (buyTool alpaca show toFixed2 showError).
Local Abbreviation sellTool := (sellTool alpaca show toFixed2 showError).
Local Abbreviation shortSellTool := (shortSellTool alpaca show toFixed2 showError).
Local Abbreviation coverShortTool := (coverShortTool alpaca show toFixed2 showError).






End ToolFacts.


(** With enough buying power the same buy does reach the brokerage. *)
Example buyTool_submits :
  submitted (snd (buyTool (mkBrokerage (fun _ => Returns (mkAccount 1000 1000 1000 "ACTIVE"))
                                        (fun _ => Returns []) (fun _ => Returns [])
                                        (quoteAt 200)
                                        (fun _ _ => Returns (mkAck "order-1" "accepted")))
                          (fun _ => "5"%string) (fun _ => "1000.00"%string)
                          (fun _ => "error"%string) "AAPL" 5 startWorld))
  = [marketOrder "AAPL" 5 buy].
Proof. reflexivity. Qed.
(** The loop over the holdings leaves the world alone and adds up the value
    of every holding. *)
Lemma sumHoldings_run alpaca entries : forall acc w,
  exists v, sumHoldings alpaca entries acc w = (Returns v, w) /\
            v == acc + sumQ (map (holdingValue alpaca) entries).
Proof.
  induction entries as [|[ticker shares] rest IH]; intros acc w.
  - exists acc. split; [reflexivity | cbn; ring].
  - cbn [sumHoldings map sumQ holdingValue].
    destruct (Qltb 0 shares).
    + unfold bind at 1, try_catch, bind at 1. rewrite getStockPrice_run.
      destruct (priceOf alpaca ticker) as [price|e].
      * destruct (IH (acc + shares * price) w) as (v & Hv & Hsum).
        exists v. split; [exact Hv|]. rewrite Hsum. ring.
      * destruct (IH acc w) as (v & Hv & Hsum).
        exists v. split; [exact Hv|]. rewrite Hsum. ring.
    + destruct (IH acc w) as (v & Hv & Hsum).
      exists v. split; [exact Hv|]. rewrite Hsum. ring.
Qed.

(** [getPortfolio] never rejects. *)
Lemma getPortfolio_returns alpaca w :
  exists p w', getPortfolio alpaca w = (Returns p, w').
Proof.
  unfold getPortfolio, try_catch, bind.
  destruct (fetchAll alpaca w) as [[[[a ps] os]|e] w']; eexists; eexists; reflexivity.
Qed.




End BrokerFacts.

(** ** Thread store: saving, and loading after saving *)

Module ThreadSaveFacts.
Import ThreadStore ThreadSave ThreadStoreFacts.

Lemma slice_last_length {A} n (l : list A) :
  length (slice_last n l) = Nat.min (length l) n.
Proof. unfold slice_last. rewrite length_skipn. lia. Qed.

Lemma slice_last_suffix {A} n (l : list A) :
  firstn (length l - n) l ++ slice_last n l = l.
Proof. unfold slice_last. apply firstn_skipn. Qed.

Lemma slice_last_all {A} n (l : list A) :
  (length l <= n)%nat -> slice_last n l = l.
Proof.
  intros H. unfold slice_last. replace (length l - n)%nat with 0%nat by lia. reflexivity.
Qed.

Lemma saveThread_writes profileName thread fs :
  writable fs (threadFile profileName) = true ->
  fst (saveThread profileName thread fs)
  = mkFS (<[threadFile profileName := JsonThread (slice_last 40 thread)]> (files fs))
         (writable fs).
Proof.
  intros Hw. unfold saveThread, writeFile. rewrite Hw. unfold maxItems.
  destruct (40 <? length thread)%nat; reflexivity.
Qed.

(** [saveThread] keeps the most recent 40 items: the thread file then holds
    a suffix of the thread of length min(length, 40), the dropped items being
    the oldest ones, and no other file is touched; a thread of at most 40
    items is stored whole. *)
Theorem saveThread_keeps_last_40 profileName thread fs :
  writable fs (threadFile profileName) = true ->
  let fs' := fst (saveThread profileName thread fs) in
  let saved := slice_last 40 thread in
  files fs' !! threadFile profileName = Some (JsonThread saved) /\
  length saved = Nat.min (length thread) 40 /\
  firstn (length thread - 40) thread ++ saved = thread /\
  ((length thread <= 40)%nat -> saved = thread) /\
  (forall path, path <> threadFile profileName -> files fs' !! path = files fs !! path).
Proof.
  intros Hw fs' saved.
  assert (Hfs : fs' = mkFS (<[threadFile profileName := JsonThread saved]> (files fs))
                           (writable fs)) by exact (saveThread_writes _ _ _ Hw).
  rewrite Hfs. cbn [files]. repeat apply conj.
  - apply lookup_insert_eq.
  - apply slice_last_length.
  - apply slice_last_suffix.
  - apply slice_last_all.
  - intros path Hne. apply lookup_insert_ne. congruence.
Qed.

Lemma saveThread_keeps_last_40_witness :
  files (fst (saveThread "default" (bloatedThread ++ orphanThread)
                (diskWith "default" [])))
    !! threadFile "default"
  = Some (JsonThread (slice_last 40 (bloatedThread ++ orphanThread))).
Proof.
  destruct (saveThread_keeps_last_40 "default" (bloatedThread ++ orphanThread)
              (diskWith "default" [])) as (H & _).
  - reflexivity.
  - exact H.
Defined.

(** When the thread file cannot be written, [saveThread] swallows the error:
    the file system is left as it was. *)
Lemma saveThread_failure_swallowed profileName thread fs :
  writable fs (threadFile profileName) = false ->
  fst (saveThread profileName thread fs) = fs.
Proof. intros Hw. unfold saveThread, writeFile. rewrite Hw. reflexivity. Qed.

(** Saving and then loading gives back the trimmed thread: a saved thread is
    never rejected by the size ceiling of [loadThread] (40 is below 50), so
    when the kept items carry none of the corruption marks the load returns
    exactly what was saved and writes nothing. *)
Theorem saveThread_loadThread_round_trip profileName now thread fs :
  writable fs (threadFile profileName) = true ->
  let saved := slice_last 40 thread in
  let fs' := fst (saveThread profileName thread fs) in
  ~ orphanResult saved -> ~ missingReasoning saved -> ~ staleCallId saved ->
  loaded (loadThread profileName now fs') = saved /\
  disk (loadThread profileName now fs') = fs' /\
  loaded (loadThread_agent profileName now fs') = saved.
Proof.
  intros Hw saved fs' Ho Hm Hs.
  assert (Hfile : files fs' !! threadFile profileName = Some (JsonThread saved)).
  { unfold fs'. rewrite (saveThread_writes _ _ _ Hw). cbn [files]. apply lookup_insert_eq. }
  assert (Hlen : length saved = Nat.min (length thread) 40) by apply slice_last_length.
  assert (H50 : (50 <? length saved)%nat = false) by (apply Nat.ltb_ge; lia).
  unfold loaded, disk, loadThread, loadThread_agent. rewrite Hfile. cbn [JSON_parse].
  rewrite (not_true_false (hasReasoningMismatch saved))
    by (rewrite hasReasoningMismatch_iff; exact Hm).
  rewrite (not_true_false (hasCorruption saved))
    by (rewrite hasCorruption_iff; tauto).
  rewrite H50. repeat split.
Qed.

Lemma plain_not_orphan n : ~ orphanResult (repeat plainMessage n).
Proof.
  intros (item & Hin & Ht & _). apply repeat_spec in Hin. subst item. discriminate Ht.
Qed.

Lemma plain_not_missing n : ~ missingReasoning (repeat plainMessage n).
Proof.
  intros (fc & rest & Hin & Ht & _). apply repeat_spec in Hin. subst fc. discriminate Ht.
Qed.

Lemma plain_not_stale n : ~ staleCallId (repeat plainMessage n).
Proof.
  intros (item & Hin & Hc). apply repeat_spec in Hin. subst item. discriminate Hc.
Qed.

Lemma saveThread_loadThread_round_trip_witness :
  loaded (loadThread "default" 1700000000000
            (fst (saveThread "default" bloatedThread (diskWith "default" []))))
  = repeat plainMessage 40.
Proof.
  destruct (saveThread_loadThread_round_trip "default" 1700000000000 bloatedThread
              (diskWith "default" [])) as (H & _).
  - reflexivity.
  - apply (plain_not_orphan 40).
  - apply (plain_not_missing 40).
  - apply (plain_not_stale 40).
  - exact H.
Defined.
Lemma append_not_self s t : t <> EmptyString -> (s ++ t)%string <> s.
Proof.
  intros Ht. induction s as [|c s IH].
  - exact Ht.
  - intros E. change (String c s ++ t)%string with (String c (s ++ t)%string) in E.
    injection E as E. exact (IH E).
Qed.

Lemma corruptedFile_not_threadFile profileName now :
  corruptedFile profileName now <> threadFile profileName.
Proof.
  unfold corruptedFile. apply append_not_self.
  change (".corrupted-" ++ pretty now)%string
    with (String "." ("corrupted-" ++ pretty now)%string).
  discriminate.
Qed.

Lemma quarantine_frame profileName now data fs ev path :
  path <> corruptedFile profileName now ->
  files (snd (fst (quarantine profileName now data fs ev))) !! path = files fs !! path.
Proof.
  intros Hne. unfold quarantine, writeFile.
  destruct (writable fs (corruptedFile profileName now)); cbn [fst snd files];
    [|reflexivity].
  apply lookup_insert_ne. congruence.
Qed.

(** [loadThread] never changes or removes the thread file, nor any other file:
    the only path it can write is the timestamped quarantine path, which is
    never the thread file itself.  So whatever it returns, the stored thread
    is still on disk afterwards. *)
Theorem loadThread_keeps_thread_file profileName now fs :
  (forall path, path <> corruptedFile profileName now ->
     files (disk (loadThread profileName now fs)) !! path = files fs !! path /\
     files (disk (loadThread_agent profileName now fs)) !! path = files fs !! path) /\
  files (disk (loadThread profileName now fs)) !! threadFile profileName
    = files fs !! threadFile profileName /\
  files (disk (loadThread_agent profileName now fs)) !! threadFile profileName
    = files fs !! threadFile profileName.
Proof.
  assert (H : forall path, path <> corruptedFile profileName now ->
     files (disk (loadThread profileName now fs)) !! path = files fs !! path /\
     files (disk (loadThread_agent profileName now fs)) !! path = files fs !! path).
  { intros path Hne. unfold disk, loadThread, loadThread_agent.
    destruct (files fs !! threadFile profileName) as [data|]; [|split; reflexivity].
    destruct (JSON_parse data) as [items|e]; [|split; reflexivity].
    destruct (hasReasoningMismatch items), (hasCorruption items),
      (50 <? length items)%nat;
      split; try reflexivity; apply quarantine_frame; exact Hne. }
  split; [exact H|].
  assert (Hne : threadFile profileName <> corruptedFile profileName now)
    by (intros E; symmetry in E; exact (corruptedFile_not_threadFile _ _ E)).
  split; apply (H _ Hne).
Qed.

Lemma quarantine_loaded profileName now data fs ev :
  fst (fst (quarantine profileName now data fs ev)) = [].
Proof.
  unfold quarantine. destruct (writeFile _ data fs); reflexivity.
Qed.

Lemma empty_thread_clean :
  ~ orphanResult [] /\ ~ missingReasoning [] /\ ~ staleCallId [] /\ (length (@nil Item) <= 50)%nat.
Proof.
  repeat split.
  - intros (item & [] & _).
  - intros (fc & rest & [] & _).
  - intros (item & [] & _).
  - cbn. lia.
Qed.

(** Whatever is on disk, the thread [loadThread] hands to the session is
    bounded and free of the marks it checks.  In both revisions the thread
    holds no function result without its call, no item with the stale call
    id, and at most 50 items, and it is either empty or exactly the stored
    thread (never a part of it).  The revision with the reasoning check also
    never returns an [fc_] call without its reasoning item; the [loadThread]
    of [src/agent.ts], which has no such check, can. *)
Theorem loadThread_result_clean profileName now fs :
  (let thread := loaded (loadThread profileName now fs) in
   ~ orphanResult thread /\ ~ missingReasoning thread /\ ~ staleCallId thread /\
   (length thread <= 50)%nat /\
   (thread = [] \/ files fs !! threadFile profileName = Some (JsonThread thread))) /\
  (let thread := loaded (loadThread_agent profileName now fs) in
   ~ orphanResult thread /\ ~ staleCallId thread /\
   (length thread <= 50)%nat /\
   (thread = [] \/ files fs !! threadFile profileName = Some (JsonThread thread))) /\
  missingReasoning (loaded (loadThread_agent profileName now
                              (diskWith profileName [unreasonedCall]))).
Proof.
  destruct empty_thread_clean as (E1 & E2 & E3 & E4).
  split; [|split].
  - cbv zeta. unfold loaded, loadThread.
    destruct (files fs !! threadFile profileName) as [data|] eqn:Hf;
      [|cbn [fst]; repeat split; try assumption; now left].
    destruct data as [items|text]; cbn [JSON_parse];
      [|cbn [fst]; repeat split; try assumption; now left].
    destruct (hasReasoningMismatch items) eqn:Hm;
      [rewrite quarantine_loaded; repeat split; try assumption; now left|].
    destruct (hasCorruption items) eqn:Hc;
      [rewrite quarantine_loaded; repeat split; try assumption; now left|].
    destruct (50 <? length items)%nat eqn:Hl;
      [cbn [fst]; repeat split; try assumption; now left|].
    cbn [fst]. apply Nat.ltb_ge in Hl. repeat apply conj.
    + intros Ho. assert (hasCorruption items = true) by (apply hasCorruption_iff; now right).
      congruence.
    + intros Hmr. apply hasReasoningMismatch_iff in Hmr. congruence.
    + intros Hs. assert (hasCorruption items = true) by (apply hasCorruption_iff; now left).
      congruence.
    + exact Hl.
    + now right.
  - cbv zeta. unfold loaded, loadThread_agent.
    destruct (files fs !! threadFile profileName) as [data|] eqn:Hf;
      [|cbn [fst]; repeat split; try assumption; now left].
    destruct data as [items|text]; cbn [JSON_parse];
      [|cbn [fst]; repeat split; try assumption; now left].
    destruct (hasCorruption items) eqn:Hc;
      [rewrite quarantine_loaded; repeat split; try assumption; now left|].
    destruct (50 <? length items)%nat eqn:Hl;
      [cbn [fst]; repeat split; try assumption; now left|].
    cbn [fst]. apply Nat.ltb_ge in Hl. repeat apply conj.
    + intros Ho. assert (hasCorruption items = true) by (apply hasCorruption_iff; now right).
      congruence.
    + intros Hs. assert (hasCorruption items = true) by (apply hasCorruption_iff; now left).
      congruence.
    + exact Hl.
    + now right.
  - assert (Hload : loaded (loadThread_agent profileName now
                              (diskWith profileName [unreasonedCall])) = [unreasonedCall]).
    { unfold loaded, loadThread_agent, diskWith. cbn [files].
      rewrite lookup_singleton_eq. reflexivity. }
    rewrite Hload. exists unreasonedCall, "1"%string.
    split; [now left|]. split; [reflexivity|]. split; [reflexivity|].
    intros rs [<-|[]] Hty. discriminate Hty.
Qed.
End ThreadSaveFacts.

(** ** Retry policy: bounds *)

Module RetryBoundFacts.
Import JSNum JSNumFacts Retry RetryFacts.
Local Open Scope Q_scope.

Section Loop.
Context {T : Type}.
Variable fn : nat -> outcome JSError T.
Variable rnd : nat -> Q.
Variable delay : Q.

(** What the loop can end with, whatever the operation does. *)
Lemma retryLoop_outcome n : forall i last slept,
  let r := retryLoop fn rnd delay n i last slept in
  (i <= calls r <= i + n)%nat /\
  (length (sleeps r) <= length slept + (calls r - i))%nat /\
  match result r with
  | Returns v =>
      exists k, (i <= k < i + n)%nat /\ fn k = Returns v /\ calls r = S k /\
                forall j, (i <= j < k)%nat -> failsRetryably fn j
  | Throws thrown =>
      (n = 0%nat /\ thrown = last /\ calls r = i) \/
      exists k e, thrown = Some e /\ (i <= k < i + n)%nat /\ fn k = Throws e /\
                  calls r = S k /\ forall j, (i <= j < k)%nat -> failsRetryably fn j
  end.
Proof.
  induction n as [|n IH]; intros i last slept.
  - cbn. split; [lia|]. split; [lia|]. left. repeat split.
  - cbn. destruct (fn i) as [v|e] eqn:Hi.
    + cbn. split; [lia|]. split; [lia|]. exists i. repeat split; try lia; try assumption.
    + destruct (retryable (errorStatus e)) eqn:Hr.
      * specialize (IH (S i) (Some e) (slept ++ [delay * pow2 i + rnd i * 1000])).
        cbv zeta in IH. destruct IH as (Hc & Hs & Hres).
        set (r := retryLoop fn rnd delay n (S i) (Some e)
                    (slept ++ [delay * pow2 i + rnd i * 1000])) in *.
        rewrite length_app in Hs. cbn in Hs.
        split; [lia|]. split; [lia|].
        assert (Hfail : forall k j, (S i <= k)%nat ->
                  (forall j0, (S i <= j0 < k)%nat -> failsRetryably fn j0) ->
                  (i <= j < k)%nat -> failsRetryably fn j).
        { intros k j Hk Hall Hj. destruct (Nat.eq_dec j i) as [->|Hne].
          - exists e. split; assumption.
          - apply Hall. lia. }
        destruct (result r) as [v|thrown].
        -- destruct Hres as (k & Hk & Hv & Hcalls & Hall).
           exists k. repeat split; try lia; try assumption.
           intros j Hj. apply (Hfail k j); [lia | exact Hall | exact Hj].
        -- right. destruct Hres as [(Hn & Ht & Hcalls)|(k & e' & Ht & Hk & He & Hcalls & Hall)].
           ++ exists i, e. subst n. repeat split; try lia; try assumption.
           ++ exists k, e'. repeat split; try lia; try assumption.
              intros j Hj. apply (Hfail k j); [lia | exact Hall | exact Hj].
      * cbn. split; [lia|]. split; [lia|]. right. exists i, e.
        repeat split; try lia; try assumption.
Qed.
End Loop.

(** [withRetry] never calls the operation more than [retries] times and never
    sleeps more often than it called; what it settles with is always what the
    last call made settled with, all calls before it having failed with a
    retryable error; with [retries = 0] it makes no call and throws
    [undefined]. *)
Theorem withRetry_bounded {T} (fn : nat -> outcome JSError T) (rnd : nat -> Q)
    (delay : Q) (retries : nat) :
  let run := withRetry fn rnd delay retries in
  (calls run <= retries)%nat /\
  (length (sleeps run) <= calls run)%nat /\
  (retries = 0%nat -> result run = Throws None /\ calls run = 0%nat) /\
  ((0 < retries)%nat ->
   exists k, (k < retries)%nat /\ calls run = S k /\
     (forall j, (j < k)%nat -> failsRetryably fn j) /\
     match fn k with
     | Returns v => result run = Returns v
     | Throws e => result run = Throws (Some e)
     end).
Proof.
  intros run.
  destruct (retryLoop_outcome fn rnd delay retries 0 None []) as (Hc & Hs & Hres).
  fold (withRetry fn rnd delay retries) in Hc, Hs, Hres. fold run in Hc, Hs, Hres.
  cbn in Hs. split; [lia|]. split; [lia|]. split.
  - intros ->. split; reflexivity.
  - intros Hpos. destruct (result run) as [v|thrown].
    + destruct Hres as (k & Hk & Hv & Hcalls & Hall).
      exists k. rewrite Hv. repeat split; try lia; try assumption.
      intros j Hj. apply Hall. lia.
    + destruct Hres as [(Hn & _)|(k & e & -> & Hk & He & Hcalls & Hall)]; [lia|].
      exists k. rewrite He. repeat split; try lia; try assumption.
      intros j Hj. apply Hall. lia.
Qed.

Lemma withRetry_bounded_witness :
  exists k, (k < 5)%nat /\ calls (withRetry flaky500 (fun _ => 1 # 4) 2000 5) = S k.
Proof.
  destruct (withRetry_bounded flaky500 (fun _ => 1 # 4) 2000 5) as (_ & _ & _ & H).
  destruct (H ltac:(lia)) as (k & Hk & Hc & _). exists k. split; assumption.
Defined.

Lemma sumQ_app l1 l2 : sumQ (l1 ++ l2) == sumQ l1 + sumQ l2.
Proof.
  induction l1 as [|x l1 IH]; cbn; [ring|]. rewrite IH. ring.
Qed.

Lemma pow2_S i : pow2 (S i) == 2 * pow2 i.
Proof.
  unfold pow2. rewrite Nat2Z.inj_succ, Z.pow_succ_r by lia.
  rewrite inject_Z_mult. reflexivity.
Qed.

Lemma pow2_pos i : 0 < pow2 i.
Proof.
  unfold pow2. replace 0 with (inject_Z 0) by reflexivity. rewrite <- Zlt_Qlt.
  apply Z.pow_pos_nonneg; lia.
Qed.

Lemma sum_waitTime rnd delay m :
  0 <= delay -> (forall i, 0 <= rnd i /\ rnd i < 1) ->
  sumQ (map (waitTime rnd delay) (seq 0 m))
    <= delay * (pow2 m - 1) + 1000 * inject_Z (Z.of_nat m).
Proof.
  intros Hd Hrnd. induction m as [|m IH].
  - change (pow2 0) with 1. change (inject_Z (Z.of_nat 0)) with 0. cbn [seq map sumQ]. lra.
  - rewrite seq_S, map_app, sumQ_app. cbn [map sumQ Nat.add].
    unfold waitTime at 2. rewrite pow2_S, Nat2Z.inj_succ. unfold Z.succ.
    rewrite inject_Z_plus. destruct (Hrnd m) as [H0 H1].
    change (inject_Z 1) with 1. nra.
Qed.

(** The total time [withRetry] can spend sleeping is bounded: with a
    non-negative base delay, the sleeps of a run sum to at most
    delay * (2^retries - 1) + 1000 * retries milliseconds (under 67 seconds
    for the defaults, 5 retries from 2000 ms). *)
Theorem withRetry_total_sleep_bounded {T} (fn : nat -> outcome JSError T)
    (rnd : nat -> Q) (delay : Q) (retries : nat) :
  0 <= delay -> (forall i, 0 <= rnd i /\ rnd i < 1) ->
  sumQ (sleeps (withRetry fn rnd delay retries))
    <= delay * (pow2 retries - 1) + 1000 * inject_Z (Z.of_nat retries).
Proof.
  intros Hd Hrnd. unfold withRetry.
  destruct (retryLoop_sleeps fn rnd delay retries 0 None []) as (m & Hm & ->).
  cbn [app]. eapply Qle_trans; [apply sum_waitTime; assumption|].
  assert (Hp : pow2 m <= pow2 retries).
  { unfold pow2. rewrite <- Zle_Qle. apply Z.pow_le_mono_r; lia. }
  assert (Hn : inject_Z (Z.of_nat m) <= inject_Z (Z.of_nat retries)).
  { rewrite <- Zle_Qle. lia. }
  nra.
Qed.

Lemma withRetry_total_sleep_bounded_witness :
  sumQ (sleeps (withRetry flaky500 (fun _ => 1 # 4) 2000 5)) <= 67000.
Proof.
  eapply Qle_trans.
  - apply (withRetry_total_sleep_bounded flaky500 (fun _ => 1 # 4) 2000 5).
    + discriminate.
    + intros i. split; [discriminate | reflexivity].
  - discriminate.
Defined.
End RetryBoundFacts.

(** ** Error handler *)

Module ErrorHandlerFacts.
Import JSNum JSNumFacts ErrorHandler.
Local Open Scope Q_scope.

Lemma lower_upper c : lower (Price.upper c) = lower c.
Proof. destruct c as [[] [] [] [] [] [] [] []]; reflexivity. Qed.

Lemma lower_lower c : lower (lower c) = lower c.
Proof. destruct c as [[] [] [] [] [] [] [] []]; reflexivity. Qed.

Lemma toLowerCase_toUpperCase s : toLowerCase (Price.toUpperCase s) = toLowerCase s.
Proof. induction s as [|c s IH]; cbn; [reflexivity|]. now rewrite lower_upper, IH. Qed.

Lemma toLowerCase_idempotent s : toLowerCase (toLowerCase s) = toLowerCase s.
Proof. induction s as [|c s IH]; cbn; [reflexivity|]. now rewrite lower_lower, IH. Qed.

Lemma classifyError_lowercased m1 m2 :
  toLowerCase m1 = toLowerCase m2 ->
  errorType (classifyError m1) = errorType (classifyError m2) /\
  recoverable (classifyError m1) = recoverable (classifyError m2).
Proof.
  intros E. unfold classifyError. rewrite E.
  repeat match goal with |- context [if ?b then _ else _] => destruct b end;
    split; reflexivity.
Qed.

(** [classifyError] keeps the message, ignores letter case, and marks an
    error recoverable exactly when it classifies it as a network or a trading
    error. *)
Theorem classifyError_properties m :
  errorMessage (classifyError m) = m /\
  (recoverable (classifyError m) = true <->
   errorType (classifyError m) = NETWORK_ERROR \/
   errorType (classifyError m) = TRADING_ERROR) /\
  errorType (classifyError (Price.toUpperCase m)) = errorType (classifyError m) /\
  errorType (classifyError (toLowerCase m)) = errorType (classifyError m).
Proof.
  split; [|split; [|split]].
  - unfold classifyError.
    repeat match goal with |- context [if ?b then _ else _] => destruct b end; reflexivity.
  - unfold classifyError.
    repeat match goal with |- context [if ?b then _ else _] => destruct b end;
      cbn; split; try (intros [H|H]; discriminate H); try discriminate; auto.
  - apply classifyError_lowercased, toLowerCase_toUpperCase.
  - apply classifyError_lowercased, toLowerCase_idempotent.
Qed.

(** A timeout is a network error even when the message also names the API:
    the first matching group decides. *)
Example classifyError_first_group_wins :
  errorType (classifyError "API request TIMEOUT") = NETWORK_ERROR /\
  errorType (classifyError "Unauthorized") = API_ERROR /\
  errorType (classifyError "insufficient qty for order") = TRADING_ERROR /\
  errorType (classifyError "boom") = UNKNOWN_ERROR.
Proof. repeat split. Qed.

Lemma handled_type error :
  errorType match error with
            | PlainError message => classifyError message
            | Classified e => e
            end = typeOf error.
Proof. destruct error; reflexivity. Qed.

Lemma ErrorType_eqb_eq a b : ErrorType_eqb a b = true <-> a = b.
Proof. destruct a, b; cbn; split; intros H; try reflexivity; discriminate H. Qed.

Lemma countOf_handleError error now h t :
  countOf (handleError error now h) t =
    if ErrorType_eqb t (typeOf error) then S (countOf h t) else countOf h t.
Proof.
  unfold handleError, incrementErrorCount, countOf at 1. cbn [errorCounts]. unfold Map_set.
  rewrite handled_type.
  destruct (ErrorType_eqb t (typeOf error)) eqn:E; [|reflexivity].
  apply ErrorType_eqb_eq in E. subst t. lia.
Qed.

Lemma totalErrors_handleError error now h :
  totalErrors (handleError error now h) = S (totalErrors h).
Proof.
  unfold totalErrors, allErrorTypes. cbn [map list_sum].
  rewrite !countOf_handleError. destruct (typeOf error); cbn [ErrorType_eqb];
    unfold list_sum; cbn [fold_right]; lia.
Qed.

(** [handleError] counts every error once: the counter of the error's type
    (the type it carries, or the one [classifyError] gives it) grows by one
    and records the time, every other counter and time stays, and the total
    grows by exactly one; [reset] brings every counter back to zero. *)
Theorem handleError_counts_once error now h :
  countOf (handleError error now h) (typeOf error) = S (countOf h (typeOf error)) /\
  lastErrors (handleError error now h) (typeOf error) = Some now /\
  (forall t, t <> typeOf error ->
     countOf (handleError error now h) t = countOf h t /\
     lastErrors (handleError error now h) t = lastErrors h t) /\
  totalErrors (handleError error now h) = S (totalErrors h) /\
  (forall t, countOf (reset (handleError error now h)) t = 0%nat) /\
  totalErrors (reset (handleError error now h)) = 0%nat.
Proof.
  assert (Hrefl : forall t, ErrorType_eqb t t = true) by (intros []; reflexivity).
  assert (Hneq : forall a b, a <> b -> ErrorType_eqb a b = false)
    by (intros [] [] H; try reflexivity; congruence).
  repeat apply conj.
  - rewrite countOf_handleError, Hrefl. reflexivity.
  - unfold handleError, incrementErrorCount. cbn [lastErrors]. unfold Map_set.
    rewrite handled_type, Hrefl. reflexivity.
  - intros t Ht. split.
    + rewrite countOf_handleError, (Hneq _ _ Ht). reflexivity.
    + unfold handleError, incrementErrorCount. cbn [lastErrors]. unfold Map_set.
      rewrite handled_type, (Hneq _ _ Ht). reflexivity.
  - apply totalErrors_handleError.
  - intros t. reflexivity.
  - reflexivity.
Qed.
Section HandlerRetry.
Context {T : Type}.
Variable op : nat -> outcome Thrown T.
Variable clock : nat -> Z.
Variable maxRetries : nat.
Variable delay : Q.

Local Abbreviation loop := (retryLoop (pureOperation op) clock maxRetries delay).

Lemma retryLoop_step n i h slept :
  loop (S n) (S i) h slept =
    match op i with
    | Returns v => mkRun (Returns v) (S i) slept h
    | Throws error =>
        if (S i =? maxRetries)%nat
        then mkRun (Throws error) (S i) slept (handleError error (clock i) h)
        else loop n (S (S i)) (handleError error (clock i) h)
                  (slept ++ [delay * pow2 i])
    end.
Proof.
  cbn [retryLoop]. unfold pureOperation at 1.
  replace (S i - 1)%nat with i by lia. destruct (op i); reflexivity.
Qed.

Lemma backoffs_snoc first count :
  backoffs delay first (S count) = delay * pow2 first :: backoffs delay (S first) count.
Proof. reflexivity. Qed.

Lemma retryLoop_success_at n : forall i h slept k v,
  (i + n = maxRetries)%nat -> (i <= k < maxRetries)%nat ->
  (forall j, (i <= j < k)%nat -> fails op j) -> op k = Returns v ->
  let r := loop n (S i) h slept in
  result r = Returns v /\ calls r = S k /\
  sleeps r = slept ++ backoffs delay i (k - i) /\
  totalErrors (handler r) = (totalErrors h + (k - i))%nat.
Proof.
  induction n as [|n IH]; intros i h slept k v Hn Hk Hfail Hv; [lia|].
  cbv zeta. rewrite retryLoop_step.
  destruct (Nat.eq_dec k i) as [->|Hne].
  - rewrite Hv. cbn [result calls sleeps handler]. replace (i - i)%nat with 0%nat by lia.
    unfold backoffs. cbn [seq map]. rewrite app_nil_r. repeat split. lia.
  - destruct (Hfail i ltac:(lia)) as (e & He). rewrite He.
    replace (S i =? maxRetries)%nat with false by (symmetry; apply Nat.eqb_neq; lia).
    destruct (IH (S i) (handleError e (clock i) h) (slept ++ [delay * pow2 i]) k v)
      as (H1 & H2 & H3 & H4); try lia; try assumption.
    { intros j Hj. apply Hfail. lia. }
    rewrite H1, H2, H3, H4, totalErrors_handleError, <- app_assoc.
    replace (k - i)%nat with (S (k - S i)) by lia. rewrite backoffs_snoc.
    repeat split. lia.
Qed.

Lemma retryLoop_all_fail n : forall i h slept,
  (i + S n = maxRetries)%nat ->
  (forall j, (i <= j < maxRetries)%nat -> fails op j) ->
  let r := loop (S n) (S i) h slept in
  exists e, op (maxRetries - 1)%nat = Throws e /\ result r = Throws e /\
    calls r = maxRetries /\ sleeps r = slept ++ backoffs delay i n /\
    totalErrors (handler r) = (totalErrors h + S n)%nat.
Proof.
  induction n as [|n IH]; intros i h slept Hn Hfail; cbv zeta; rewrite retryLoop_step;
    destruct (Hfail i ltac:(lia)) as (e & He); rewrite He.
  - replace (S i =? maxRetries)%nat with true by (symmetry; apply Nat.eqb_eq; lia).
    exists e. cbn [result calls sleeps handler]. unfold backoffs. cbn [seq map].
    rewrite app_nil_r, totalErrors_handleError.
    replace (maxRetries - 1)%nat with i by lia. repeat split; try assumption; lia.
  - replace (S i =? maxRetries)%nat with false by (symmetry; apply Nat.eqb_neq; lia).
    destruct (IH (S i) (handleError e (clock i) h) (slept ++ [delay * pow2 i]))
      as (e' & H0 & H1 & H2 & H3 & H4); try lia.
    { intros j Hj. apply Hfail. lia. }
    exists e'. rewrite H1, H2, H3, H4, totalErrors_handleError, <- app_assoc, backoffs_snoc.
    repeat split; try assumption; lia.
Qed.
End HandlerRetry.

(** The exported [withRetry] of the error handler retries every error,
    whatever its kind: it settles with the first success, after one wait of
    delay * 2^k (no jitter) per failed call before it; when all [maxRetries]
    calls fail it throws the last error with no wait after the last call;
    every failed call is counted once by the handler; and with
    [maxRetries = 0] it reaches the line "This should never be reached"
    without calling the operation. *)
Theorem handler_withRetry_retries_every_error {T} (op : nat -> outcome Thrown T)
    (clock : nat -> Z) (maxRetries : nat) (delay : Q) (h : Handler) :
  let run := withRetry (pureOperation op) clock maxRetries delay h in
  (maxRetries = 0%nat ->
     result run = Throws (PlainError "This should never be reached") /\
     calls run = 0%nat /\ handler run = h) /\
  (forall k v, (k < maxRetries)%nat -> (forall j, (j < k)%nat -> fails op j) ->
     op k = Returns v ->
     result run = Returns v /\ calls run = S k /\ sleeps run = backoffs delay 0 k /\
     totalErrors (handler run) = (totalErrors h + k)%nat) /\
  ((0 < maxRetries)%nat -> (forall j, (j < maxRetries)%nat -> fails op j) ->
     exists e, op (maxRetries - 1)%nat = Throws e /\ result run = Throws e /\
       calls run = maxRetries /\ sleeps run = backoffs delay 0 (maxRetries - 1) /\
       totalErrors (handler run) = (totalErrors h + maxRetries)%nat).
Proof.
  intros run. subst run. unfold withRetry. repeat apply conj.
  - intros ->. repeat split.
  - intros k v Hk Hfail Hv.
    destruct (retryLoop_success_at op clock maxRetries delay maxRetries 0 h [] k v)
      as (H1 & H2 & H3 & H4); try lia; try assumption.
    { intros j Hj. apply Hfail. lia. }
    rewrite Nat.sub_0_r in H3, H4. repeat split; assumption.
  - intros Hpos Hfail. destruct maxRetries as [|n]; [lia|].
    destruct (retryLoop_all_fail op clock (S n) delay n 0 h []) as (e & H0 & H1 & H2 & H3 & H4);
      try lia.
    { intros j Hj. apply Hfail. lia. }
    exists e. replace (S n - 1)%nat with n in * by lia. repeat split; assumption.
Qed.

Lemma handler_withRetry_retries_every_error_witness :
  let run := withRetry (pureOperation twoTimeouts) (fun _ => 0%Z) 3 1000 newHandler in
  result run = Returns "ok"%string /\ calls run = 3%nat /\
  sleeps run = backoffs 1000 0 2 /\ totalErrors (handler run) = 2%nat.
Proof.
  intros run.
  destruct (handler_withRetry_retries_every_error twoTimeouts (fun _ => 0%Z) 3 1000 newHandler)
    as (_ & H & _).
  apply (H 2%nat "ok"%string).
  - lia.
  - intros j Hj. exists (PlainError "Request Timeout"). unfold twoTimeouts.
    destruct j as [|[|j]]; [reflexivity | reflexivity | lia].
  - reflexivity.
Defined.

Lemma getStockPrice_body_returns src ticker :
  exists p, fst (Price.getStockPrice_body src ticker) = Returns p.
Proof.
  unfold Price.getStockPrice_body.
  destruct (Price.tryAlpaca src ticker) as [[p|] l1]; [eexists; reflexivity|].
  destruct (Price.tryYahoo src ticker) as [[p|] l2]; eexists; reflexivity.
Qed.









End ErrorHandlerFacts.

(** ** Portfolio: holdings, history, degraded fetch *)

Module PortfolioFacts.
Import JSNum JSNumFacts Broker BrokerFacts PortfolioRead.
Local Open Scope Q_scope.

Lemma obj_get_set o key value k :
  obj_get (obj_set o key value) k =
    if String.eqb key k then Some value else obj_get o k.
Proof.
  induction o as [|[k0 v0] o IH]; cbn.
  - reflexivity.
  - destruct (String.eqb k0 key) eqn:E0; cbn.
    + apply String.eqb_eq in E0. subst k0. destruct (String.eqb key k); reflexivity.
    + destruct (String.eqb k0 k) eqn:E1.
      * apply String.eqb_eq in E1. subst k0.
        rewrite String.eqb_sym in E0. now rewrite E0.
      * exact IH.
Qed.

Lemma obj_set_keys_NoDup o key value :
  List.NoDup (map fst o) -> List.NoDup (map fst (obj_set o key value)).
Proof.
  induction o as [|[k0 v0] o IH]; cbn; intros Hnd.
  - apply List.NoDup_cons; [intros [] | apply List.NoDup_nil].
  - destruct (String.eqb k0 key) eqn:E0; cbn; [exact Hnd|].
    inversion Hnd as [|? ? Hnotin Hnd']; subst. apply List.NoDup_cons; [|now apply IH].
    intros Hin. apply in_map_iff in Hin as ([k1 v1] & Hk & Hin). cbn in Hk. subst k1.
    apply Hnotin. apply in_map_iff.
    clear IH Hnd Hnd' Hnotin. induction o as [|[k2 v2] o IHo]; cbn in *.
    + destruct Hin as [Hin|[]]. injection Hin as -> ->.
      rewrite String.eqb_refl in E0. discriminate.
    + destruct (String.eqb k2 key) eqn:E2; cbn in Hin.
      * destruct Hin as [Hin|Hin].
        -- injection Hin as -> ->. exists (k0, v2). split; [reflexivity | now left].
        -- exists (k0, v1). split; [reflexivity | now right].
      * destruct Hin as [Hin|Hin].
        -- injection Hin as -> ->. exists (k0, v1). split; [reflexivity | now left].
        -- destruct (IHo Hin) as (x & Hx & Hxin). exists x. split; [exact Hx | now right].
Qed.

Lemma find_append {A} (f : A -> bool) l1 l2 :
  List.find f (l1 ++ l2) =
    match List.find f l1 with Some x => Some x | None => List.find f l2 end.
Proof.
  induction l1 as [|x l1 IH]; cbn; [reflexivity|]. destruct (f x); [reflexivity | exact IH].
Qed.

(** The holdings object built so far, read after the remaining positions. *)
Lemma holdings_fold positions : forall acc k,
  obj_get (fold_left (fun holdings position =>
             if truthy (qty position)
             then obj_set holdings (symbol position) (qty position)
             else holdings) positions acc) k
  = match List.find (fun p => String.eqb (symbol p) k && truthy (qty p)) (rev positions) with
    | Some p => Some (qty p)
    | None => obj_get acc k
    end.
Proof.
  induction positions as [|p ps IH]; intros acc k; cbn [fold_left rev].
  - reflexivity.
  - rewrite IH. rewrite find_append.
    destruct (List.find _ (rev ps)) as [p'|]; [reflexivity|]. cbn [List.find].
    destruct (truthy (qty p)) eqn:Et.
    + rewrite obj_get_set, andb_true_r. destruct (String.eqb (symbol p) k); reflexivity.
    + rewrite andb_false_r. reflexivity.
Qed.

Lemma holdings_NoDup positions : forall acc,
  List.NoDup (map fst acc) ->
  List.NoDup (map fst (fold_left (fun holdings position =>
             if truthy (qty position)
             then obj_set holdings (symbol position) (qty position)
             else holdings) positions acc)).
Proof.
  induction positions as [|p ps IH]; intros acc Hnd; cbn [fold_left]; [exact Hnd|].
  apply IH. destruct (truthy (qty p)); [now apply obj_set_keys_NoDup | exact Hnd].
Qed.

(** The holdings of [getPortfolio] list every ticker once and never with a
    zero quantity: [holdings[t]] is the non-zero quantity of a position of
    ticker [t], and is undefined exactly when every position of that ticker
    has quantity zero; a short position keeps its negative quantity. *)
Theorem holdingsOf_lookup positions :
  List.NoDup (map fst (holdingsOf positions)) /\
  (forall t q, obj_get (holdingsOf positions) t = Some q ->
     ~ q == 0 /\ exists p, In p positions /\ symbol p = t /\ qty p = q) /\
  (forall t, obj_get (holdingsOf positions) t = None <->
     forall p, In p positions -> symbol p = t -> qty p == 0).
Proof.
  unfold holdingsOf. split; [apply holdings_NoDup; apply List.NoDup_nil|].
  split.
  - intros t q. rewrite holdings_fold.
    destruct (List.find _ (rev positions)) as [p|] eqn:Hf; [|discriminate].
    intros H. injection H as <-. apply find_some in Hf as [Hin Hp].
    apply andb_true_iff in Hp as [Hs Ht]. apply String.eqb_eq in Hs.
    apply truthy_true in Ht. split; [exact Ht|].
    exists p. split; [now apply in_rev | split; [exact Hs | reflexivity]].
  - intros t. rewrite holdings_fold. split.
    + destruct (List.find _ (rev positions)) as [p|] eqn:Hf; [discriminate|].
      intros _ p Hin Hs.
      pose proof (find_none _ _ Hf p (proj1 (in_rev _ _) Hin)) as Hn. cbn in Hn.
      apply String.eqb_eq in Hs. rewrite Hs in Hn. cbn in Hn. now apply truthy_false.
    + intros Hall. destruct (List.find _ (rev positions)) as [p|] eqn:Hf; [|reflexivity].
      apply find_some in Hf as [Hin Hp]. apply andb_true_iff in Hp as [Hs Ht].
      apply String.eqb_eq in Hs. apply truthy_true in Ht.
      exfalso. apply Ht. apply Hall; [now apply in_rev | exact Hs].
Qed.
Section SortByKey.
Context {A : Type}.
Variable key : A -> Z.

Local Abbreviation byKey := (fun a b : A => (key a - key b)%Z).
Local Abbreviation inOrder := (fun a b : A => (key a <= key b)%Z).

Lemma insert_sorted_Permutation x l :
  Permutation (x :: l) (Report.insert_sorted byKey x l).
Proof.
  induction l as [|y l IH]; cbn; [reflexivity|].
  destruct (key x - key y <=? 0)%Z; [reflexivity|].
  rewrite perm_swap. now apply perm_skip.
Qed.

Lemma Array_sort_Permutation l : Permutation l (Report.Array_sort byKey l).
Proof.
  unfold Report.Array_sort. induction l as [|x l IH]; cbn; [reflexivity|].
  rewrite <- insert_sorted_Permutation. now apply perm_skip.
Qed.

Lemma insert_sorted_StronglySorted x l :
  StronglySorted inOrder l -> StronglySorted inOrder (Report.insert_sorted byKey x l).
Proof.
  induction l as [|y l IH]; cbn; intros Hs.
  - constructor; [constructor | constructor].
  - inversion Hs as [|? ? Hl Hall]; subst.
    destruct (key x - key y <=? 0)%Z eqn:E.
    + apply Z.leb_le in E. constructor; [exact Hs|].
      constructor; [lia|]. eapply List.Forall_impl; [|exact Hall]. cbn. intros a Ha. lia.
    + apply Z.leb_gt in E. constructor; [now apply IH|].
      rewrite <- insert_sorted_Permutation. constructor; [lia | exact Hall].
Qed.

Lemma Array_sort_StronglySorted l : StronglySorted inOrder (Report.Array_sort byKey l).
Proof.
  unfold Report.Array_sort. induction l as [|x l IH]; cbn; [constructor|].
  now apply insert_sorted_StronglySorted.
Qed.
End SortByKey.

Lemma historyOf_as_tradeOf orders :
  historyOf orders =
    Report.Array_sort (fun a b => (Report.date a - Report.date b)%Z)
                      (map tradeOf (List.filter isFilled orders)).
Proof. reflexivity. Qed.

(** The history of [getPortfolio] holds exactly the filled orders, each once,
    oldest first: it is a rearrangement of the trades of the orders that have a
    fill time, it is sorted by that time, an order without a fill time never
    appears, and every trade's total is its shares times its price. *)
Theorem historyOf_filled_sorted orders :
  Permutation (map tradeOf (List.filter isFilled orders)) (historyOf orders) /\
  StronglySorted (fun a b => (Report.date a <= Report.date b)%Z) (historyOf orders) /\
  length (historyOf orders) = length (List.filter isFilled orders) /\
  (forall t, In t (historyOf orders) ->
     Report.total t == Report.shares t * Report.price t /\
     exists order, In order orders /\ filled_at order = Some (Report.date t) /\
                   t = tradeOf order).
Proof.
  rewrite historyOf_as_tradeOf.
  pose proof (Array_sort_Permutation Report.date (map tradeOf (List.filter isFilled orders)))
    as Hperm.
  split; [exact Hperm|]. split; [apply Array_sort_StronglySorted|]. split.
  - rewrite <- (Permutation_length Hperm). apply length_map.
  - intros t Hin. apply (Permutation_in _ (Permutation_sym Hperm)) in Hin.
    apply in_map_iff in Hin as (order & <- & Hin). apply filter_In in Hin as [Hin Hf].
    split; [reflexivity|]. exists order. split; [exact Hin|]. split; [|reflexivity].
    unfold isFilled in Hf. unfold tradeOf. cbn [Report.date].
    destruct (filled_at order); [reflexivity | discriminate].
Qed.
End PortfolioFacts.

(** ** Trade tools: when an order is submitted *)

Module ToolOrderFacts.
Import JSNum JSNumFacts Broker BrokerFacts PortfolioRead.
Local Open Scope Q_scope.

Lemma not_self_snoc {A} (l : list A) x : l ++ [x] <> l.
Proof.
  intros E. apply (f_equal (@length A)) in E. rewrite length_app in E. cbn in E. lia.
Qed.

Lemma Qltb_false_le x y : Qltb x y = false -> y <= x.
Proof. apply Qltb_ge. Qed.

Lemma Qle_Qltb_false x y : y <= x -> Qltb x y = false.
Proof. apply Qltb_ge. Qed.

Section Tools.
Variable alpaca : Brokerage.
Variable show toFixed2 : Q -> string.
Variable showError : JSError -> string.
Variable ticker : string.
Variable shares : Q.
Variable w : World.

Local Abbreviation buyRun := (buyTool alpaca show toFixed2 showError ticker shares w).
Local Abbreviation sellRun := (sellTool alpaca show toFixed2 showError ticker shares w).
Local Abbreviation shortRun := (shortSellTool alpaca show toFixed2 showError ticker shares w).
Local Abbreviation coverRun := (coverShortTool alpaca show toFixed2 showError ticker shares w).

Ltac leaf := cbn [fst snd submitted next]; unfold submits, submitsNothing;
             cbn [fst snd submitted next].
Ltac order_outcome :=
  match goal with
  | |- context [createOrder ?b ?t ?r] => destruct (createOrder b t r)
  end.

Lemma buyTool_order :
  (submits w buyRun (marketOrder ticker shares buy) \/ submitsNothing w buyRun) /\
  (submits w buyRun (marketOrder ticker shares buy) <->
   exists a p, getAccount alpaca (tick w) = Returns a /\
               priceOf alpaca ticker = Returns p /\ shares * p <= buying_power a).
Proof.
  unfold Broker.buyTool, settle, bind, getAlpacaAccount, alpaca_createOrder, ret.
  rewrite getStockPrice_run.
  destruct (getAccount alpaca (tick w)) as [a|e] eqn:Ha.
  - destruct (priceOf alpaca ticker) as [p|e] eqn:Hp.
    + destruct (Qltb (buying_power a) (shares * p)) eqn:Hb.
      * leaf. split; [now right|]. split.
        -- intros E. symmetry in E. now apply not_self_snoc in E.
        -- intros (a' & p' & Ea & Ep & Hle). injection Ea as <-. injection Ep as <-.
           apply Qltb_lt in Hb. exfalso. exact (Qlt_not_le _ _ Hb Hle).
      * order_outcome; leaf; (split; [now left|]);
          (split; [intros _; exists a, p; repeat split; now apply Qltb_false_le
                  | reflexivity]).
    + leaf. split; [now right|]. split.
      * intros E. symmetry in E. now apply not_self_snoc in E.
      * intros (a' & p' & _ & Ep & _). discriminate Ep.
  - leaf. split; [now right|]. split.
    + intros E. symmetry in E. now apply not_self_snoc in E.
    + intros (a' & p' & Ea & _). discriminate Ea.
Qed.

Lemma sellTool_order :
  (submits w sellRun (marketOrder ticker shares sell) \/ submitsNothing w sellRun) /\
  (submits w sellRun (marketOrder ticker shares sell) <->
   exists ps pos p, getPositions alpaca (tick w) = Returns ps /\
                    findPosition ps ticker = Some pos /\ shares <= qty pos /\
                    priceOf alpaca ticker = Returns p).
Proof.
  unfold Broker.sellTool, settle, bind, getAlpacaPositions, alpaca_createOrder, ret.
  destruct (getPositions alpaca (tick w)) as [ps|e] eqn:Hps.
  - destruct (findPosition ps ticker) as [pos|] eqn:Hf.
    + destruct (Qltb (qty pos) shares) eqn:Hb.
      * leaf. split; [now right|]. split.
        -- intros E. symmetry in E. now apply not_self_snoc in E.
        -- intros (ps' & pos' & p' & Eps & Ef & Hle & _). injection Eps as <-.
           rewrite Hf in Ef. injection Ef as <-.
           apply Qltb_lt in Hb. exfalso. exact (Qlt_not_le _ _ Hb Hle).
      * rewrite getStockPrice_run. destruct (priceOf alpaca ticker) as [p|e] eqn:Hp.
        -- order_outcome; leaf; (split; [now left|]);
             (split; [intros _; exists ps, pos, p; repeat split; try assumption;
                      now apply Qltb_false_le
                     | reflexivity]).
        -- leaf. split; [now right|]. split.
           ++ intros E. symmetry in E. now apply not_self_snoc in E.
           ++ intros (ps' & pos' & p' & _ & _ & _ & Ep). discriminate Ep.
    + leaf. split; [now right|]. split.
      * intros E. symmetry in E. now apply not_self_snoc in E.
      * intros (ps' & pos' & p' & Eps & Ef & _). injection Eps as <-.
        rewrite Hf in Ef. discriminate Ef.
  - leaf. split; [now right|]. split.
    + intros E. symmetry in E. now apply not_self_snoc in E.
    + intros (ps' & pos' & p' & Eps & _). discriminate Eps.
Qed.

Lemma shortSellTool_order :
  (submits w shortRun (marketOrder ticker shares sell) \/ submitsNothing w shortRun) /\
  (submits w shortRun (marketOrder ticker shares sell) <->
   exists a p, getAccount alpaca (tick w) = Returns a /\ 40000 <= portfolio_value a /\
               priceOf alpaca ticker = Returns p /\
               shares * p * 0.5 <= buying_power a).
Proof.
  unfold Broker.shortSellTool, settle, bind, getAlpacaAccount, alpaca_createOrder, ret.
  destruct (getAccount alpaca (tick w)) as [a|e] eqn:Ha.
  - destruct (Qltb (portfolio_value a) 40000) eqn:He.
    + leaf. split; [now right|]. split.
      * intros E. symmetry in E. now apply not_self_snoc in E.
      * intros (a' & p' & Ea & Hle & _). injection Ea as <-.
        apply Qltb_lt in He. exfalso. exact (Qlt_not_le _ _ He Hle).
    + rewrite getStockPrice_run. destruct (priceOf alpaca ticker) as [p|e] eqn:Hp.
      * destruct (Qltb (buying_power a) (shares * p * 0.5)) eqn:Hb.
        -- leaf. split; [now right|]. split.
           ++ intros E. symmetry in E. now apply not_self_snoc in E.
           ++ intros (a' & p' & Ea & _ & Ep & Hle). injection Ea as <-. injection Ep as <-.
              apply Qltb_lt in Hb. exfalso. exact (Qlt_not_le _ _ Hb Hle).
        -- order_outcome; leaf; (split; [now left|]);
             (split; [intros _; exists a, p; repeat split; try assumption;
                      now apply Qltb_false_le
                     | reflexivity]).
      * leaf. split; [now right|]. split.
        -- intros E. symmetry in E. now apply not_self_snoc in E.
        -- intros (a' & p' & _ & _ & Ep & _). discriminate Ep.
  - leaf. split; [now right|]. split.
    + intros E. symmetry in E. now apply not_self_snoc in E.
    + intros (a' & p' & Ea & _). discriminate Ea.
Qed.

Lemma coverShortTool_order :
  (submits w coverRun (marketOrder ticker shares buy) \/ submitsNothing w coverRun) /\
  (submits w coverRun (marketOrder ticker shares buy) <->
   exists ps pos p, getPositions alpaca (tick w) = Returns ps /\
                    findPosition ps ticker = Some pos /\ qty pos < 0 /\
                    shares <= Qabs (qty pos) /\ priceOf alpaca ticker = Returns p).
Proof.
  unfold Broker.coverShortTool, settle, bind, getAlpacaPositions, alpaca_createOrder, ret.
  destruct (getPositions alpaca (tick w)) as [ps|e] eqn:Hps.
  - destruct (findPosition ps ticker) as [pos|] eqn:Hf.
    + destruct (Qle_bool 0 (qty pos)) eqn:Hq.
      * leaf. split; [now right|]. split.
        -- intros E. symmetry in E. now apply not_self_snoc in E.
        -- intros (ps' & pos' & p' & Eps & Ef & Hneg & _). injection Eps as <-.
           rewrite Hf in Ef. injection Ef as <-.
           apply Qle_bool_iff in Hq. exfalso. exact (Qlt_not_le _ _ Hneg Hq).
      * assert (Hneg : qty pos < 0).
        { apply Qnot_le_lt. intros Hle. apply Qle_bool_iff in Hle. congruence. }
        destruct (Qltb (Qabs (qty pos)) shares) eqn:Hb.
        -- leaf. split; [now right|]. split.
           ++ intros E. symmetry in E. now apply not_self_snoc in E.
           ++ intros (ps' & pos' & p' & Eps & Ef & _ & Hle & _). injection Eps as <-.
              rewrite Hf in Ef. injection Ef as <-.
              apply Qltb_lt in Hb. exfalso. exact (Qlt_not_le _ _ Hb Hle).
        -- rewrite getStockPrice_run. destruct (priceOf alpaca ticker) as [p|e] eqn:Hp.
           ++ order_outcome; leaf; (split; [now left|]);
                (split; [intros _; exists ps, pos, p; repeat split; try assumption;
                         now apply Qltb_false_le
                        | reflexivity]).
           ++ leaf. split; [now right|]. split.
              ** intros E. symmetry in E. now apply not_self_snoc in E.
              ** intros (ps' & pos' & p' & _ & _ & _ & _ & Ep). discriminate Ep.
    + leaf. split; [now right|]. split.
      * intros E. symmetry in E. now apply not_self_snoc in E.
      * intros (ps' & pos' & p' & Eps & Ef & _). injection Eps as <-.
        rewrite Hf in Ef. discriminate Ef.
  - leaf. split; [now right|]. split.
    + intros E. symmetry in E. now apply not_self_snoc in E.
    + intros (ps' & pos' & p' & Eps & _). discriminate Eps.
Qed.
End Tools.
(** Each trade tool hands the brokerage either nothing or exactly one market
    order (time in force gtc) for the requested ticker and share count, on
    the buy side for buy and cover, on the sell side for sell and short sell.
    Sell and cover compare two numbers as they are, and submit exactly when
    the position is fetched, large enough (and short, for cover) and the price
    resolves.  Buy and short sell compare the buying power with a product;
    they submit only after the account and the price were obtained (and the
    equity is at least 40000, for short sell), and they do submit whenever
    the cost stays strictly below the buying power.  The case where cost and
    buying power meet is left open: there the product's last binary digit
    decides. *)
Theorem trade_tools_submit_when_checks_pass
    (alpaca : Brokerage) (show toFixed2 : Q -> string) (showError : JSError -> string)
    (ticker : string) (shares : Q) (w : World) :
  let buyRun := buyTool alpaca show toFixed2 showError ticker shares w in
  let sellRun := sellTool alpaca show toFixed2 showError ticker shares w in
  let shortRun := shortSellTool alpaca show toFixed2 showError ticker shares w in
  let coverRun := coverShortTool alpaca show toFixed2 showError ticker shares w in
  ((submits w buyRun (mkRequest ticker shares buy "market" "gtc") \/ submitsNothing w buyRun) /\
   (submits w buyRun (mkRequest ticker shares buy "market" "gtc") ->
    exists a p, getAccount alpaca (tick w) = Returns a /\
                priceOf alpaca ticker = Returns p) /\
   (forall a p, getAccount alpaca (tick w) = Returns a ->
                priceOf alpaca ticker = Returns p -> shares * p < buying_power a ->
    submits w buyRun (mkRequest ticker shares buy "market" "gtc"))) /\
  ((submits w sellRun (mkRequest ticker shares sell "market" "gtc") \/ submitsNothing w sellRun) /\
   (submits w sellRun (mkRequest ticker shares sell "market" "gtc") <->
    exists ps pos p, getPositions alpaca (tick w) = Returns ps /\
                     findPosition ps ticker = Some pos /\ shares <= qty pos /\
                     priceOf alpaca ticker = Returns p)) /\
  ((submits w shortRun (mkRequest ticker shares sell "market" "gtc") \/ submitsNothing w shortRun) /\
   (submits w shortRun (mkRequest ticker shares sell "market" "gtc") ->
    exists a p, getAccount alpaca (tick w) = Returns a /\ 40000 <= portfolio_value a /\
                priceOf alpaca ticker = Returns p) /\
   (forall a p, getAccount alpaca (tick w) = Returns a -> 40000 <= portfolio_value a ->
                priceOf alpaca ticker = Returns p ->
                shares * p * 0.5 < buying_power a ->
    submits w shortRun (mkRequest ticker shares sell "market" "gtc"))) /\
  ((submits w coverRun (mkRequest ticker shares buy "market" "gtc") \/ submitsNothing w coverRun) /\
   (submits w coverRun (mkRequest ticker shares buy "market" "gtc") <->
    exists ps pos p, getPositions alpaca (tick w) = Returns ps /\
                     findPosition ps ticker = Some pos /\ qty pos < 0 /\
                     shares <= Qabs (qty pos) /\ priceOf alpaca ticker = Returns p)).
Proof.
  cbv zeta. split; [|split; [|split]].
  - destruct (buyTool_order alpaca show toFixed2 showError ticker shares w) as [H Hiff].
    split; [exact H|]. split.
    + intros Hs. apply Hiff in Hs as (a & p & Ha & Hp & _). now exists a, p.
    + intros a p Ha Hp Hlt. apply Hiff. exists a, p.
      split; [exact Ha|]. split; [exact Hp | now apply Qlt_le_weak].
  - apply sellTool_order.
  - destruct (shortSellTool_order alpaca show toFixed2 showError ticker shares w) as [H Hiff].
    split; [exact H|]. split.
    + intros Hs. apply Hiff in Hs as (a & p & Ha & He & Hp & _). now exists a, p.
    + intros a p Ha He Hp Hlt. apply Hiff. exists a, p.
      split; [exact Ha|]. split; [exact He|]. split; [exact Hp | now apply Qlt_le_weak].
  - apply coverShortTool_order.
Qed.

Lemma trade_tools_submit_when_checks_pass_witness :
  submits startWorld
    (buyTool fundedAccount (fun _ => "5"%string) (fun _ => "1000.00"%string)
             (fun _ => "error"%string) "AAPL" 5 startWorld)
    (mkRequest "AAPL" 5 buy "market" "gtc") /\
  submits startWorld
    (sellTool fundedAccount (fun _ => "5"%string) (fun _ => "1000.00"%string)
              (fun _ => "error"%string) "AAPL" 5 startWorld)
    (mkRequest "AAPL" 5 sell "market" "gtc").
Proof.
  destruct (trade_tools_submit_when_checks_pass fundedAccount (fun _ => "5"%string)
              (fun _ => "1000.00"%string) (fun _ => "error"%string) "AAPL" 5 startWorld)
    as ((_ & _ & Hbuy) & (_ & Hsell) & _).
  split.
  - apply (Hbuy (mkAccount 5000 5000 7000 "ACTIVE") (round2 ((200 + 200) / 2)));
      reflexivity.
  - apply Hsell. exists [mkPosition "AAPL" 10 2000], (mkPosition "AAPL" 10 2000),
      (round2 ((200 + 200) / 2)).
    repeat split. discriminate.
Defined.

(** No trade without a price: when the quote of the ticker cannot be
    resolved, none of the four tools hands an order to the brokerage. *)
Theorem trade_tools_need_a_price
    (alpaca : Brokerage) (show toFixed2 : Q -> string) (showError : JSError -> string)
    (ticker : string) (shares : Q) (w : World) (e : JSError) :
  priceOf alpaca ticker = Throws e ->
  submitsNothing w (buyTool alpaca show toFixed2 showError ticker shares w) /\
  submitsNothing w (sellTool alpaca show toFixed2 showError ticker shares w) /\
  submitsNothing w (shortSellTool alpaca show toFixed2 showError ticker shares w) /\
  submitsNothing w (coverShortTool alpaca show toFixed2 showError ticker shares w).
Proof.
  intros Hp. repeat apply conj.
  - destruct (buyTool_order alpaca show toFixed2 showError ticker shares w) as [[H|H] Hiff];
      [|exact H]. apply Hiff in H as (a & p & _ & Ep & _). congruence.
  - destruct (sellTool_order alpaca show toFixed2 showError ticker shares w) as [[H|H] Hiff];
      [|exact H]. apply Hiff in H as (ps & pos & p & _ & _ & _ & Ep). congruence.
  - destruct (shortSellTool_order alpaca show toFixed2 showError ticker shares w)
      as [[H|H] Hiff]; [|exact H]. apply Hiff in H as (a & p & _ & _ & Ep & _). congruence.
  - destruct (coverShortTool_order alpaca show toFixed2 showError ticker shares w)
      as [[H|H] Hiff]; [|exact H].
    apply Hiff in H as (ps & pos & p & _ & _ & _ & _ & Ep). congruence.
Qed.

Lemma trade_tools_need_a_price_witness :
  submitsNothing startWorld
    (buyTool (mkBrokerage (fun _ => Returns (mkAccount 5000 5000 7000 "ACTIVE"))
                          (fun _ => Returns []) (fun _ => Returns [])
                          Price.sourcesDown
                          (fun _ _ => Returns (mkAck "order-1" "accepted")))
             (fun _ => "5"%string) (fun _ => "1000.00"%string)
             (fun _ => "error"%string) "AAPL" 5 startWorld).
Proof.
  eapply (trade_tools_need_a_price _ _ _ _ "AAPL" 5 startWorld). reflexivity.
Defined.
End ToolOrderFacts.

(** ** Portfolio fetch and net worth when the brokerage is down *)

Module PortfolioFetchFacts.
Import JSNum JSNumFacts Broker BrokerFacts PortfolioRead.
Local Open Scope Q_scope.

Lemma fetchAll_world alpaca w :
  snd (fetchAll alpaca w) = mkWorld (tick w + 3) (submitted w).
Proof.
  unfold fetchAll, getAlpacaAccount, getAlpacaPositions, getAlpacaOrderHistory, next.
  cbn [tick submitted snd]. f_equal. lia.
Qed.

Lemma fetchAll_outcome alpaca w :
  fst (fetchAll alpaca w) =
    match getAccount alpaca (tick w), getPositions alpaca (S (tick w)),
          getOrders alpaca (S (S (tick w))) with
    | Returns a, Returns p, Returns o => Returns (a, p, firstn 100 o)
    | Throws e, _, _ => Throws e
    | _, Throws e, _ => Throws e
    | _, _, Throws e => Throws e
    end.
Proof.
  unfold fetchAll, getAlpacaAccount, getAlpacaPositions, getAlpacaOrderHistory, next.
  cbn [tick submitted fst].
  destruct (getAccount alpaca (tick w)), (getPositions alpaca (S (tick w))),
    (getOrders alpaca (S (S (tick w)))); reflexivity.
Qed.

Lemma getPortfolio_world alpaca w :
  snd (getPortfolio alpaca w) = mkWorld (tick w + 3) (submitted w).
Proof.
  pose proof (fetchAll_world alpaca w) as Hw.
  unfold getPortfolio, try_catch, bind, ret.
  destruct (fetchAll alpaca w) as [[[[a ps] os]|e] w']; exact Hw.
Qed.

Lemma getPortfolio_fetch_fails alpaca w :
  fetchFails alpaca (tick w) ->
  fst (getPortfolio alpaca w) = Returns (mkPortfolio 0 [] []).
Proof.
  pose proof (fetchAll_outcome alpaca w) as Ho.
  unfold getPortfolio, try_catch, bind, ret.
  destruct (fetchAll alpaca w) as [res w']. cbn [fst] in Ho.
  unfold fetchFails. rewrite !Nat.add_1_r.
  replace (tick w + 2)%nat with (S (S (tick w))) by lia.
  intros [(e & He)|[(e & He)|(e & He)]]; rewrite He in Ho;
    destruct (getAccount alpaca (tick w)); try destruct (getPositions alpaca (S (tick w)));
    subst res; reflexivity.
Qed.

(** [getPortfolio] never rejects and never trades: it always makes its three
    API calls and submits nothing; when all three succeed it answers the
    account's cash, the holdings of the positions and the history of the
    (at most 100) orders; when any of them fails it answers the empty
    portfolio, cash 0, no holdings, no history. *)
Theorem getPortfolio_degrades_to_empty alpaca w :
  snd (getPortfolio alpaca w) = mkWorld (tick w + 3) (submitted w) /\
  (fetchFails alpaca (tick w) ->
     fst (getPortfolio alpaca w) = Returns (mkPortfolio 0 [] [])) /\
  (forall a ps os,
     getAccount alpaca (tick w) = Returns a ->
     getPositions alpaca (tick w + 1) = Returns ps ->
     getOrders alpaca (tick w + 2) = Returns os ->
     fst (getPortfolio alpaca w) =
       Returns (mkPortfolio (cash a) (holdingsOf ps) (historyOf (firstn 100 os)))).
Proof.
  pose proof (fetchAll_world alpaca w) as Hw.
  pose proof (fetchAll_outcome alpaca w) as Ho.
  unfold getPortfolio, try_catch, bind, ret.
  destruct (fetchAll alpaca w) as [res w']. cbn [fst snd] in Hw, Ho. subst w'.
  unfold fetchFails. rewrite !Nat.add_1_r.
  replace (tick w + 2)%nat with (S (S (tick w))) by lia.
  split; [destruct res as [[[a ps] os]|e]; reflexivity|]. split.
  - intros [(e & He)|[(e & He)|(e & He)]]; rewrite He in Ho;
      destruct (getAccount alpaca (tick w)); try destruct (getPositions alpaca (S (tick w)));
      subst res; reflexivity.
  - intros a ps os Ha Hp Hos. rewrite Ha, Hp, Hos in Ho. subst res. reflexivity.
Qed.

Lemma getPortfolio_degrades_to_empty_witness :
  fst (getPortfolio brokerageDown startWorld) = Returns (mkPortfolio 0 [] []) /\
  snd (getPortfolio brokerageDown startWorld) = mkWorld 3 [].
Proof.
  destruct (getPortfolio_degrades_to_empty brokerageDown startWorld) as (Hw & He & _).
  split; [apply He | exact Hw].
  left. exists (mkError (Some 503%Z) None). reflexivity.
Defined.

Lemma sumHoldings_world alpaca entries acc w :
  snd (sumHoldings alpaca entries acc w) = w.
Proof.
  destruct (sumHoldings_run alpaca entries acc w) as (v & -> & _). reflexivity.
Qed.

(** How [calculateNetWorth] runs: on the account, or on the portfolio. *)
Lemma calculateNetWorth_cases alpaca w :
  (exists a, getAccount alpaca (tick w) = Returns a /\
     calculateNetWorth alpaca w = (Returns (round2 (portfolio_value a)), next w)) \/
  (exists e p w' v, getAccount alpaca (tick w) = Throws e /\
     getPortfolio alpaca (next w) = (Returns p, w') /\
     v == 0 + sumQ (map (holdingValue alpaca) (holdings p)) /\
     calculateNetWorth alpaca w = (Returns (round2 (portfolio_cash p + v)), w')).
Proof.
  destruct (getAccount alpaca (tick w)) as [a|e] eqn:Ha.
  - left. exists a. split; [reflexivity|].
    unfold calculateNetWorth, try_catch, bind, getAlpacaAccount, ret. now rewrite Ha.
  - right.
    destruct (getPortfolio_returns alpaca (next w)) as (p & w' & Hp).
    destruct (sumHoldings_run alpaca (holdings p) 0 w') as (v & Hv & Hsum).
    exists e, p, w', v. split; [reflexivity|]. split; [exact Hp|]. split; [exact Hsum|].
    unfold calculateNetWorth, try_catch, bind, getAlpacaAccount, ret.
    rewrite Ha, Hp, Hv. reflexivity.
Qed.

(** [calculateNetWorth] never rejects and never trades; and when the
    brokerage is down for both the account call and the portfolio fetch that
    follows it, the reported net worth is 0. *)
Theorem calculateNetWorth_down_is_zero alpaca w :
  (exists v, fst (calculateNetWorth alpaca w) = Returns v) /\
  submitted (snd (calculateNetWorth alpaca w)) = submitted w /\
  ((exists e, getAccount alpaca (tick w) = Throws e) ->
   fetchFails alpaca (tick w + 1) ->
   exists v, fst (calculateNetWorth alpaca w) = Returns v /\ v == 0).
Proof.
  destruct (calculateNetWorth_cases alpaca w) as [(a & Ha & ->)|(e & p & w' & v & He & Hp & Hv & ->)];
    cbn [fst snd].
  - split; [eexists; reflexivity|]. split; [reflexivity|].
    intros (e & He). congruence.
  - pose proof (getPortfolio_world alpaca (next w)) as Hw.
    pose proof (getPortfolio_fetch_fails alpaca (next w)) as Hfail.
    rewrite Hp in Hw, Hfail. cbn [fst snd] in Hw, Hfail.
    split; [eexists; reflexivity|]. split; [subst w'; reflexivity|].
    intros _ Hff. eexists. split; [reflexivity|].
    assert (Hpe : p = mkPortfolio 0 [] []).
    { cbn [tick next] in Hfail. rewrite Nat.add_1_r in Hff.
      specialize (Hfail Hff). congruence. }
    subst p. cbn [portfolio_cash holdings map sumQ] in *.
    rewrite (round2_comp (0 + v) 0) by (rewrite Hv; ring). reflexivity.
Qed.

Lemma calculateNetWorth_down_is_zero_witness :
  exists v, fst (calculateNetWorth brokerageDown startWorld) = Returns v /\ v == 0.
Proof.
  destruct (calculateNetWorth_down_is_zero brokerageDown startWorld) as (_ & _ & H).
  apply H.
  - exists (mkError (Some 503%Z) None). reflexivity.
  - left. exists (mkError (Some 503%Z) None). reflexivity.
Defined.
End PortfolioFetchFacts.

(** ** Price resolution: the revisions compared, and the rounding error *)

Module PriceStrictFacts.
Import JSNum JSNumFacts Price PriceFacts.
Local Open Scope Q_scope.

Lemma tryAlpaca_cases src t :
  (exists q, getLatestQuote src t = Returns (Some q) /\
             ~ BidPrice q == 0 /\ ~ AskPrice q == 0) \/
  primaryFails src t.
Proof.
  unfold primaryFails. destruct (getLatestQuote src t) as [[q|]|e]; try (right; exact I).
  destruct (truthy (BidPrice q)) eqn:Hb; [|right; left; now apply truthy_false].
  destruct (truthy (AskPrice q)) eqn:Ha; [|right; right; now apply truthy_false].
  left. exists q. split; [reflexivity|]. split; now apply truthy_true.
Qed.

Lemma tryYahoo_cases src t :
  (exists r y, fetchChart src t = Returns r /\ ok r = true /\
               json r = Returns (Some (JNumber y)) /\ 0 < y) \/
  secondaryFails src t.
Proof.
  unfold secondaryFails. destruct (fetchChart src t) as [r|e]; [|right; exact I].
  destruct (ok r) eqn:Hok; [|right; now left].
  destruct (json r) as [[[y|s|b|]|]|e] eqn:Hj; try (right; right; exact I).
  destruct (Qlt_le_dec 0 y) as [Hy|Hy]; [|right; right; exact Hy].
  left. exists r, y. repeat split; assumption.
Qed.

(** The revision without the synthetic stage and the three-stage resolver
    agree on every real price: whenever one of the two real sources answers,
    both return the same price.  The strict revision throws exactly when both
    real sources give no price, which is exactly when the three-stage resolver
    logs its fallback line and answers a synthetic price. *)
Theorem strict_resolver_throws_iff_chain_falls_back src ticker :
  (forall p, fst (PriceStrict.getStockPrice src ticker) = Returns p ->
             fst (Price.getStockPrice src ticker) = Returns p) /\
  ((exists e, fst (PriceStrict.getStockPrice src ticker) = Throws e) <->
   primaryFails src ticker /\ secondaryFails src ticker) /\
  (PriceStrict.fallbackLogged (snd (Price.getStockPrice src ticker)) <->
   primaryFails src ticker /\ secondaryFails src ticker).
Proof.
  unfold PriceStrict.getStockPrice, Price.getStockPrice, getStockPrice_body,
    PriceStrict.fallbackLogged.
  destruct (tryAlpaca_cases src ticker) as [(q & Hq & Hb & Ha)|Hp].
  - rewrite (tryAlpaca_available _ _ _ Hq Hb Ha). cbn [fst snd].
    assert (Hnp : ~ primaryFails src ticker).
    { unfold primaryFails. rewrite Hq. tauto. }
    split; [intros p H; exact H|]. split.
    + split; [intros (e & He); discriminate He | tauto].
    + split; [|tauto]. intros (t & p & [E|[]]). discriminate E.
  - destruct (tryAlpaca_fails _ _ Hp) as (l1 & -> & Hl1).
    destruct (tryYahoo_cases src ticker) as [(r & y & Hr & Hok & Hj & Hy)|Hs].
    + rewrite (tryYahoo_available _ _ _ _ Hr Hok Hj Hy). cbn [fst snd].
      assert (Hns : ~ secondaryFails src ticker).
      { unfold secondaryFails. rewrite Hr, Hok, Hj. intros [H|H]; [discriminate H|].
        exact (Qlt_not_le _ _ Hy H). }
      split; [intros p H; exact H|]. split.
      * split; [intros (e & He); discriminate He | tauto].
      * split; [|tauto]. intros (t & p & Hin).
        apply in_app_or in Hin as [Hin|[E|[]]]; [destruct (Hl1 _ _ Hin) | discriminate E].
    + destruct (tryYahoo_fails _ _ Hs) as (l2 & -> & Hl2). cbn [fst snd].
      split; [intros p H; discriminate H|]. split.
      * split; [tauto | intros _; eexists; reflexivity].
      * split; [tauto|]. intros _. eexists. eexists.
        apply in_or_app. right. apply in_or_app. right. left. reflexivity.
Qed.

(** [getStockPrice] of [src/agent.ts] returns exactly when the brokerage
    quote has a non-zero bid and a non-zero ask; the price is then the mid
    price (bid+ask)/2 to the cent, less than one cent away from it, and the
    mid price is logged.  In every other case it throws: the brokerage's own
    error when the call rejected, the invariant error when the quote is
    missing or one-sided. *)
Theorem getStockPrice_agent_mid_or_throws src ticker :
  ((exists p, fst (getStockPrice_agent src ticker) = Returns p) <->
   exists q, getLatestQuote src ticker = Returns (Some q) /\
             ~ BidPrice q == 0 /\ ~ AskPrice q == 0) /\
  (forall q p, getLatestQuote src ticker = Returns (Some q) ->
     fst (getStockPrice_agent src ticker) = Returns p ->
     (BidPrice q + AskPrice q) / 2 - 0.01 < p /\
     p < (BidPrice q + AskPrice q) / 2 + 0.01 /\
     snd (getStockPrice_agent src ticker)
     = [FoundViaAlpaca ticker ((BidPrice q + AskPrice q) / 2)]) /\
  (forall e, getLatestQuote src ticker = Throws e ->
     fst (getStockPrice_agent src ticker) = Throws e) /\
  (getLatestQuote src ticker = Returns None \/
   (exists q, getLatestQuote src ticker = Returns (Some q) /\
              (BidPrice q == 0 \/ AskPrice q == 0)) ->
   fst (getStockPrice_agent src ticker)
   = Throws (invariantError ("Failed to get Alpaca market data for " ++ ticker))).
Proof.
  unfold getStockPrice_agent. split; [|split; [|split]].
  - destruct (getLatestQuote src ticker) as [[q|]|e].
    + destruct (truthy (BidPrice q)) eqn:Hb; destruct (truthy (AskPrice q)) eqn:Ha;
        cbn [andb fst]; split.
      * intros _. exists q. repeat split; now apply truthy_true.
      * intros _. eexists. reflexivity.
      * intros (p & H). discriminate H.
      * intros (q' & Hq & _ & Hna). injection Hq as <-.
        apply truthy_false in Ha. contradiction.
      * intros (p & H). discriminate H.
      * intros (q' & Hq & Hnb & _). injection Hq as <-.
        apply truthy_false in Hb. contradiction.
      * intros (p & H). discriminate H.
      * intros (q' & Hq & Hnb & _). injection Hq as <-.
        apply truthy_false in Hb. contradiction.
    + split; [intros (p & H); discriminate H | intros (q' & Hq & _); discriminate Hq].
    + split; [intros (p & H); discriminate H | intros (q' & Hq & _); discriminate Hq].
  - intros q p ->. destruct (truthy (BidPrice q) && truthy (AskPrice q));
      cbn [fst snd]; [|discriminate].
    intros [= <-]. destruct (round2_within_cent ((BidPrice q + AskPrice q) / 2)) as [H1 H2].
    split; [exact H1|]. split; [exact H2 | reflexivity].
  - intros e ->. reflexivity.
  - intros [-> | (q & -> & H)]; [reflexivity|].
    destruct H as [H|H]; apply truthy_false in H; rewrite H, ?andb_false_r; reflexivity.
Qed.

Lemma getStockPrice_agent_mid_or_throws_witness :
  exists p, fst (getStockPrice_agent PriceStrict.oddQuote "AAPL") = Returns p /\
            (10.004 + 10.005) / 2 - 0.01 < p /\ p < (10.004 + 10.005) / 2 + 0.01.
Proof.
  destruct (getStockPrice_agent_mid_or_throws PriceStrict.oddQuote "AAPL") as (H & Hmid & _).
  destruct (proj2 H) as [p Hp].
  - exists (mkQuote 10.004 10.005). repeat split; discriminate.
  - exists p. split; [exact Hp|].
    destruct (Hmid (mkQuote 10.004 10.005) p eq_refl Hp) as (H1 & H2 & _).
    split; assumption.
Defined.
End PriceStrictFacts.

(** ** Market scheduler: waking up at the next opening *)

Module MarketClockFacts.
Import Market MarketFacts MarketClock.
Local Open Scope Z_scope.

(** [isMarketOpen] in full: the market counts as open exactly when the test
    override is 'true' (then at any time, weekends included), or the New York
    day is neither Sunday nor Saturday and the minute of the day is from 570
    up to but not including 960. *)
Theorem isMarketOpen_iff env et :
  isMarketOpen env et = true <->
  env = Some "true"%string \/
  (getDay et <> 0 /\ getDay et <> 6 /\
   570 <= getHours et * 60 + getMinutes et < 960).
Proof.
  unfold isMarketOpen, marketOpen, marketClose.
  destruct (decide (env = Some "true"%string)) as [E|E].
  - split; [now left | reflexivity].
  - destruct (getDay et =? 0) eqn:E0; [apply Z.eqb_eq in E0 | apply Z.eqb_neq in E0].
    + cbn. split; [discriminate | intros [H|(H & _)]; contradiction].
    + destruct (getDay et =? 6) eqn:E6; [apply Z.eqb_eq in E6 | apply Z.eqb_neq in E6].
      * cbn. split; [discriminate | intros [H|(_ & H & _)]; contradiction].
      * cbn [orb]. rewrite andb_true_iff, Z.leb_le, Z.ltb_lt. split.
        -- intros [H1 H2]. right. repeat split; assumption || lia.
        -- intros [H|(_ & _ & H)]; [contradiction | lia].
Qed.

Lemma newYorkClock_at_opening offset d :
  -720 <= offset < 630 ->
  let clock := newYorkClock offset (openingOf d) in
  getDay clock = (d + 4) mod 7 /\
  getHours clock * 60 + getMinutes clock = 810 + offset.
Proof.
  intros Hoff clock. subst clock. unfold newYorkClock. cbn [getDay getHours getMinutes].
  split.
  - unfold Date_getDay. now rewrite localDate_openingOf.
  - assert (Hm : (openingOf d + offset * msPerMinute) mod msPerDay
                 = (810 + offset) * msPerMinute).
    { unfold openingOf, Date_UTC, msPerDay, msPerHour, msPerMinute.
      symmetry. apply (Z.mod_unique _ _ d); lia. }
    rewrite Hm. unfold msPerMinute. rewrite Z.div_mul by lia.
    pose proof (Z.div_mod (810 + offset) 60 ltac:(lia)). lia.
Qed.

(** Where the continuous loop wakes up, for a process whose own time zone is
    UTC (every day has 24 hours there): the instant [getNextMarketOpen]
    answers is 13:30 UTC of a day from Monday to Friday.  [isMarketOpen] is
    true at that instant while New York is on summer time (09:30 there), and
    still false while New York is on winter time (08:30 there). *)
Theorem getNextMarketOpen_open_in_summer_only now :
  (exists d, getNextMarketOpen 0 now = openingOf d /\
             (d + 4) mod 7 <> 0 /\ (d + 4) mod 7 <> 6) /\
  isMarketOpenAt None EDT (getNextMarketOpen 0 now) = true /\
  isMarketOpenAt None EST (getNextMarketOpen 0 now) = false.
Proof.
  pose proof (getNextMarketOpen_tomorrow 0 now ltac:(lia)) as H. cbv zeta in H.
  destruct H as (_ & Hr & _ & H0 & H6 & _).
  set (d := localDate 0 now + 1 + _) in Hr.
  unfold Date_getDay in H0, H6. rewrite Hr in *.
  rewrite localDate_openingOf in H0, H6 by lia.
  destruct (newYorkClock_at_opening EDT d ltac:(unfold EDT; lia)) as [Hd Hm].
  destruct (newYorkClock_at_opening EST d ltac:(unfold EST; lia)) as [Hd' Hm'].
  split; [|split].
  - exists d. split; [reflexivity|]. split; assumption.
  - unfold isMarketOpenAt. apply isMarketOpen_iff. right.
    rewrite Hd, Hm. unfold EDT. repeat split; assumption || lia.
  - unfold isMarketOpenAt.
    destruct (isMarketOpen None (newYorkClock EST (openingOf d))) eqn:E; [|reflexivity].
    apply isMarketOpen_iff in E as [E|(_ & _ & E)]; [discriminate E|].
    rewrite Hm' in E. unfold EST in E. lia.
Qed.

Lemma getNextMarketOpen_open_in_summer_only_witness :
  isMarketOpenAt None EDT (getNextMarketOpen 0 (19877 * msPerDay + 12 * msPerHour)) = true /\
  isMarketOpenAt None EST (getNextMarketOpen 0 (19877 * msPerDay + 12 * msPerHour)) = false.
Proof.
  destruct (getNextMarketOpen_open_in_summer_only (19877 * msPerDay + 12 * msPerHour))
    as (_ & H1 & H2). split; assumption.
Defined.
End MarketClockFacts.

(** ** Profile and model names *)

Module ConfigFacts.
Import ErrorHandler Config.
Local Open Scope string_scope.

(** [getProfileName]: the profile is one of gpt4o, claude and default; gpt4o
    and claude are only ever chosen for a model whose name contains gpt-4o,
    respectively claude, whatever PROFILE_NAME asks for; an explicit default
    is always honoured; and with PROFILE_NAME unset or empty the profile is
    detected from the model name, gpt-4o first. *)
Theorem getProfileName_matches_model modelName PROFILE_NAME :
  let profile := getProfileName modelName PROFILE_NAME in
  (profile = "gpt4o" \/ profile = "claude" \/ profile = "default") /\
  (profile = "gpt4o" -> includes "gpt-4o" modelName = true) /\
  (profile = "claude" -> includes "claude" modelName = true) /\
  getProfileName modelName (Some "default") = "default" /\
  (PROFILE_NAME = None \/ PROFILE_NAME = Some "" ->
   profile = if includes "gpt-4o" modelName then "gpt4o"
             else if includes "claude" modelName then "claude" else "default").
Proof.
  cbv zeta. unfold getProfileName.
  assert (Hauto : forall a b : bool,
    let p := if a then "gpt4o" else if b then "claude" else "default" in
    (p = "gpt4o" \/ p = "claude" \/ p = "default") /\
    (p = "gpt4o" -> a = true) /\ (p = "claude" -> b = true)).
  { intros [|] [|]; cbv zeta; repeat split; auto; discriminate. }
  split; [|split; [|split; [|split]]].
  4: { cbn [String.eqb]. rewrite !orb_true_r. reflexivity. }
  4: { intros [-> | ->]; reflexivity. }
  all: destruct PROFILE_NAME as [[|c profileName]|]; try apply Hauto.
  all: set (name := String c profileName).
  all: destruct (includes "gpt-4o" modelName) eqn:Eg, (includes "claude" modelName) eqn:Ec;
    cbn [andb orb];
    destruct (String.eqb name "gpt4o") eqn:E1; try (apply String.eqb_eq in E1);
    destruct (String.eqb name "claude") eqn:E2; try (apply String.eqb_eq in E2);
    destruct (String.eqb name "default") eqn:E3; try (apply String.eqb_eq in E3);
    cbn [andb orb]; auto; try congruence; try discriminate.
Qed.

Lemma prefix_trans a b h :
  String.prefix a b = true -> String.prefix b h = true -> String.prefix a h = true.
Proof.
  revert b h. induction a as [|x a IH]; intros b h Hab Hbh; [now destruct h|].
  destruct b as [|y b]; [discriminate|]. destruct h as [|z h]; [discriminate|].
  cbn [String.prefix] in *.
  destruct (ascii_dec x y) as [->|]; [|discriminate].
  destruct (ascii_dec y z) as [->|]; [|discriminate].
  eapply IH; eassumption.
Qed.

(** A text that contains a keyword contains every prefix of the keyword. *)
Lemma includes_prefix a b h :
  String.prefix a b = true -> includes b h = true -> includes a h = true.
Proof.
  intros Hab. induction h as [|c h IH]; intros Hb; cbn [includes] in *.
  - destruct (String.prefix b "") eqn:E; [|discriminate].
    now rewrite (prefix_trans _ _ _ Hab E).
  - destruct (String.prefix b (String c h)) eqn:E.
    + now rewrite (prefix_trans _ _ _ Hab E).
    + rewrite (IH Hb). now destruct (String.prefix a (String c h)).
Qed.

(** [normalizeModelName]: a name without "gemini" is passed through
    unchanged, a name with it becomes one of five Gemini model names, and
    normalising twice is the same as normalising once. *)
Theorem normalizeModelName_idempotent modelName :
  normalizeModelName (normalizeModelName modelName) = normalizeModelName modelName /\
  (includes "gemini" modelName = false -> normalizeModelName modelName = modelName) /\
  (includes "gemini" modelName = true ->
   In (normalizeModelName modelName)
      ["gemini-2.5-pro"; "gemini-2.5-flash"; "gemini-2.0-flash";
       "gemini-1.5-flash"; "gemini-1.5-pro"]).
Proof.
  assert (Hgemini : forall keyword, String.prefix "gemini" keyword = true ->
            includes keyword modelName = true ->
            includes "gemini" modelName = false -> False).
  { intros keyword Hp Hk Hno.
    rewrite (includes_prefix _ _ _ Hp Hk) in Hno. discriminate. }
  unfold normalizeModelName at 2 3 4 5.
  destruct (includes "gemini-2.5-pro" modelName) eqn:E1.
  { split; [reflexivity | split; [intros Hno; exfalso; apply (fun p => Hgemini _ p E1 Hno); reflexivity|]].
    intros _. cbn. auto 10. }
  destruct (includes "gemini-2.5-flash" modelName) eqn:E2.
  { split; [reflexivity | split; [intros Hno; exfalso; apply (fun p => Hgemini _ p E2 Hno); reflexivity|]].
    intros _. cbn. auto 10. }
  destruct (includes "gemini-2.0-flash" modelName) eqn:E3.
  { split; [reflexivity | split; [intros Hno; exfalso; apply (fun p => Hgemini _ p E3 Hno); reflexivity|]].
    intros _. cbn. auto 10. }
  destruct (includes "gemini-1.5-flash" modelName) eqn:E4.
  { split; [reflexivity | split; [intros Hno; exfalso; apply (fun p => Hgemini _ p E4 Hno); reflexivity|]].
    intros _. cbn. auto 10. }
  destruct (includes "gemini-1.5" modelName) eqn:E5.
  { split; [reflexivity | split; [intros Hno; exfalso; apply (fun p => Hgemini _ p E5 Hno); reflexivity|]].
    intros _. cbn. auto 10. }
  destruct (includes "gemini" modelName) eqn:E6.
  { split; [reflexivity | split; [discriminate|]]. intros _. cbn. auto 10. }
  split; [|split; [reflexivity | discriminate]].
  unfold normalizeModelName. now rewrite E1, E2, E3, E4, E5, E6.
Qed.
End ConfigFacts.

(** ** Trade reports: when a P&L is shown *)

Module ReportCaseFacts.
Import JSNum JSNumFacts Report ReportFacts.
Local Open Scope Q_scope.

Lemma Array_sort_nil_iff {A} cmp (l : list A) : Array_sort cmp l = [] <-> l = [].
Proof.
  split; [|intros ->; reflexivity].
  intros H. apply (f_equal (@length A)) in H. rewrite length_Array_sort in H.
  now destruct l.
Qed.

Lemma isPriorBuy_is_buy trade t : isPriorBuy trade t = true -> type t = buy.
Proof.
  unfold isPriorBuy. intros H.
  apply andb_true_iff in H as [H _]. apply andb_true_iff in H as [_ H].
  now destruct (type t).
Qed.

Lemma priorBuys_only_buys history trade :
  priorBuys (List.filter (fun t => Side_eqb (type t) buy) history) trade
  = priorBuys history trade.
Proof.
  unfold priorBuys. induction history as [|t history IH]; [reflexivity|].
  cbn [List.filter]. destruct (Side_eqb (type t) buy) eqn:E.
  - cbn [List.filter]. now rewrite IH.
  - rewrite IH. unfold isPriorBuy at 2. rewrite E.
    now rewrite andb_false_r.
Qed.

(** What the report writers show for a trade: no P&L for a buy, nor for a
    sell that no earlier buy of the same ticker precedes, and a P&L for every
    other sell.  Earlier sells play no part: the figures are the same with
    every sell removed from the history, so shares already sold still weigh
    on the average cost.  When the earlier buys sum to no shares the average
    cost and the percentage are 0 and the P&L is the whole proceeds. *)
Theorem tradePnL_shown_iff history trade :
  (tradePnL history trade = None <->
   type trade = buy \/ priorBuys history trade = []) /\
  tradePnL (List.filter (fun t => Side_eqb (type t) buy) history) trade
  = tradePnL history trade /\
  (forall r, tradePnL history trade = Some r ->
   sumQ (map shares (priorBuys history trade)) <= 0 ->
   avgBuyPrice r = 0 /\ pnlPercent r = 0 /\ pnl r == price trade * shares trade).
Proof.
  split; [|split].
  - unfold tradePnL. fold (priorBuys history trade).
    destruct (type trade); cbn [Side_eqb].
    + split; [now left | reflexivity].
    + destruct (Array_sort _ (priorBuys history trade)) eqn:E.
      * apply Array_sort_nil_iff in E. cbn. split; [now right | reflexivity].
      * cbn [length Nat.ltb Nat.leb]. split; [discriminate|].
        intros [H|H]; [discriminate|].
        apply (Array_sort_nil_iff (fun a b => (date b - date a)%Z)) in H.
        rewrite H in E. discriminate.
  - unfold tradePnL. fold (priorBuys history trade).
    fold (priorBuys (List.filter (fun t => Side_eqb (type t) buy) history) trade).
    now rewrite priorBuys_only_buys.
  - intros r Hr Hle. unfold tradePnL in Hr. fold (priorBuys history trade) in Hr.
    destruct (Side_eqb (type trade) sell); [|discriminate].
    destruct (0 <? length _)%nat; [|discriminate].
    assert (Hs : Qltb 0 (fold_left (fun sum t => sum + shares t)
                (Array_sort (fun a b => (date b - date a)%Z) (priorBuys history trade)) 0)
                 = false).
    { apply Qltb_ge. rewrite fold_left_sum, sumQ_Array_sort. lra. }
    rewrite Hs in Hr. injection Hr as <-. cbn [avgBuyPrice pnlPercent pnl].
    split; [reflexivity | split; [reflexivity | ring]].
Qed.
End ReportCaseFacts.

(** ** The tool_code parser *)

Module ToolCodeFacts.
Import ToolCode.

Lemma stripLast_snoc c s : stripLast c (s ++ [c]) = Some s.
Proof.
  unfold stripLast. rewrite rev_app_distr. cbn [rev app].
  now rewrite Ascii.eqb_refl, rev_involutive.
Qed.

Lemma stripLast_Some c s r : stripLast c s = Some r -> s = r ++ [c].
Proof.
  unfold stripLast. destruct (rev s) as [|c' t] eqn:E; [discriminate|].
  destruct (Ascii.eqb c c') eqn:Ec; [|discriminate].
  apply Ascii.eqb_eq in Ec as <-. intros [= <-].
  rewrite <- (rev_involutive s), E. reflexivity.
Qed.

Lemma stripPrefix_app p s : stripPrefix p (p ++ s) = Some s.
Proof.
  induction p as [|a p IH]; [reflexivity|]. cbn. now rewrite Ascii.eqb_refl.
Qed.

Lemma stripPrefix_Some p s r : stripPrefix p s = Some r -> s = p ++ r.
Proof.
  revert s. induction p as [|a p IH]; intros s H; [now injection H as ->|].
  destruct s as [|b s]; [discriminate|]. cbn in H.
  destruct (Ascii.eqb a b) eqn:E; [|discriminate].
  apply Ascii.eqb_eq in E as <-. cbn. f_equal. now apply IH.
Qed.

Lemma wordPrefix_spec s w rest :
  wordPrefix s = (w, rest) -> s = w ++ rest /\ forallb isWordChar w = true.
Proof.
  revert w rest. induction s as [|c s IH]; intros w rest H; cbn in H.
  - now injection H as <- <-.
  - destruct (isWordChar c) eqn:E.
    + destruct (wordPrefix s) as [w' rest'] eqn:E'. injection H as <- <-.
      destruct (IH _ _ eq_refl) as [-> Hw]. cbn. now rewrite E, Hw.
    + now injection H as <- <-.
Qed.

Lemma wordPrefix_name name c rest :
  forallb isWordChar name = true -> isWordChar c = false ->
  wordPrefix (name ++ c :: rest) = (name, c :: rest).
Proof.
  intros Hn Hc. induction name as [|x name IH]; cbn.
  - now rewrite Hc.
  - cbn in Hn. apply andb_true_iff in Hn as [Hx Hn]. now rewrite Hx, (IH Hn).
Qed.

Lemma matchCall_render name inner :
  isName name -> dotStar inner = true ->
  matchCall (name ++ chars "(" ++ inner ++ chars ")") = Some (name, inner).
Proof.
  intros [Hne Hw] Hd. unfold matchCall. cbn [chars list_ascii_of_string app].
  rewrite (wordPrefix_name name "(" (inner ++ [")"%char]) Hw eq_refl).
  destruct name as [|c w]; [contradiction|].
  cbn [Ascii.eqb Bool.eqb]. now rewrite stripLast_snoc, Hd.
Qed.

Lemma matchCall_Some s name inner :
  matchCall s = Some (name, inner) ->
  s = name ++ chars "(" ++ inner ++ chars ")" /\ isName name /\ dotStar inner = true.
Proof.
  unfold matchCall. destruct (wordPrefix s) as [w rest] eqn:E.
  apply wordPrefix_spec in E as [-> Hw].
  destruct w as [|c w]; [discriminate|]. destruct rest as [|open rest]; [discriminate|].
  destruct (Ascii.eqb open "(") eqn:Eo; [|discriminate].
  apply Ascii.eqb_eq in Eo as ->.
  destruct (stripLast ")" rest) as [r|] eqn:El; [|discriminate].
  apply stripLast_Some in El as ->.
  destruct (dotStar r) eqn:Ed; [|discriminate]. intros [= <- <-].
  split; [reflexivity|]. split; [|assumption]. split; [discriminate | assumption].
Qed.

Lemma matchPrint_Some s inner :
  matchPrint s = Some inner ->
  s = chars "print(" ++ inner ++ chars ")" /\ dotStar inner = true.
Proof.
  unfold matchPrint. destruct (stripPrefix _ s) as [rest|] eqn:E; [|discriminate].
  apply stripPrefix_Some in E as ->.
  destruct (stripLast ")" rest) as [r|] eqn:El; [|discriminate].
  apply stripLast_Some in El as ->.
  destruct (dotStar r) eqn:Ed; [|discriminate]. now intros [= <-].
Qed.

Lemma matchPrint_wrapped inner :
  dotStar inner = true -> matchPrint (chars "print(" ++ inner ++ chars ")") = Some inner.
Proof.
  intros Hd. unfold matchPrint. rewrite stripPrefix_app.
  cbn [chars list_ascii_of_string]. now rewrite stripLast_snoc, Hd.
Qed.

Lemma dotStar_app a b : dotStar (a ++ b) = dotStar a && dotStar b.
Proof. apply forallb_app. Qed.

Lemma isWordChar_not_terminator c : isWordChar c = true -> isLineTerminator c = false.
Proof.
  unfold isWordChar, isLineTerminator. intros H.
  destruct (Nat.eqb_spec (code c) 10) as [E|_]; [rewrite E in H; discriminate|].
  destruct (Nat.eqb_spec (code c) 13) as [E|_]; [rewrite E in H; discriminate|].
  reflexivity.
Qed.

Lemma dotStar_name name : forallb isWordChar name = true -> dotStar name = true.
Proof.
  unfold dotStar. rewrite !forallb_forall. intros H c Hc.
  now rewrite (isWordChar_not_terminator c (H c Hc)).
Qed.

(** What [parseToolCodeString] accepts: the code, with or without the print
    wrapper, is a name of word characters, an opening parenthesis, the
    argument text and a closing parenthesis at the very end; and nothing
    with a line break in it is ever accepted. *)
Theorem parseToolCodeString_accepts_one_line_calls toolCode name args :
  parseToolCodeString toolCode = Some (name, args) ->
  isName name /\ dotStar toolCode = true /\
  exists argsString,
    toolCode = name ++ chars "(" ++ argsString ++ chars ")" \/
    toolCode = chars "print(" ++ (name ++ chars "(" ++ argsString ++ chars ")") ++ chars ")".
Proof.
  unfold parseToolCodeString.
  destruct (matchPrint toolCode) as [inner|] eqn:Ep.
  - apply matchPrint_Some in Ep as [-> Hd].
    destruct (matchCall inner) as [[n a]|] eqn:Ec; [|discriminate].
    apply matchCall_Some in Ec as (-> & Hn & Ha). intros [= <- _].
    split; [assumption|]. split.
    + rewrite !dotStar_app in *. rewrite Hd. reflexivity.
    + exists a. now right.
  - destruct (matchCall toolCode) as [[n a]|] eqn:Ec; [|discriminate].
    apply matchCall_Some in Ec as (-> & Hn & Ha). intros [= <- _].
    split; [assumption|]. split.
    + rewrite !dotStar_app, Ha, (dotStar_name n (proj2 Hn)). reflexivity.
    + exists a. now left.
Qed.

Lemma parseToolCodeString_accepts_one_line_calls_witness :
  isName (chars "buy") /\ dotStar buyCall = true.
Proof.
  destruct (parseToolCodeString_accepts_one_line_calls buyCall (chars "buy")
              (argsOf [(chars "ticker", chars "AAPL"); (chars "shares", chars "10")]))
    as (H1 & H2 & _); [vm_compute; reflexivity|].
  split; assumption.
Defined.

(** *** Reading back a written call *)

Lemma isWordChar_plain c :
  isWordChar c = true ->
  isWhiteSpace c = false /\ isEquals c = false /\ isQuote c = false /\ isComma c = false.
Proof.
  destruct c as [[] [] [] [] [] [] [] []]; vm_compute; intros H;
    try discriminate H; repeat split.
Qed.

Lemma isBackslash_eqb d : Ascii.eqb "\" d = false -> isBackslash d = false.
Proof.
  destruct d as [[] [] [] [] [] [] [] []]; vm_compute; intros H;
    try discriminate H; reflexivity.
Qed.

Lemma not_single_quote c :
  (code c =? 39) = false -> c <> "'"%char /\ (isQuote c = true -> c = doubleQuote).
Proof.
  destruct c as [[] [] [] [] [] [] [] []]; vm_compute; intros H;
    try discriminate H; split; try discriminate; try reflexivity; intros H'; discriminate H'.
Qed.

Lemma trimStart_id s : startsNonWs s -> trimStart s = s.
Proof. destruct s as [|c s]; [reflexivity|]. cbn. now intros ->. Qed.

Lemma trimStart_ws ws core :
  forallb isWhiteSpace ws = true -> trimStart (ws ++ core) = trimStart core.
Proof.
  induction ws as [|c ws IH]; [reflexivity|]. cbn [forallb app trimStart].
  intros H. apply andb_true_iff in H as [-> H]. now apply IH.
Qed.

Lemma trim_core ws core :
  forallb isWhiteSpace ws = true -> startsNonWs core -> startsNonWs (rev core) ->
  trim (ws ++ core) = core.
Proof.
  intros Hws H1 H2. unfold trim.
  now rewrite (trimStart_ws _ _ Hws), (trimStart_id _ H1), (trimStart_id _ H2), rev_involutive.
Qed.

Lemma startsNonWs_rev_snoc s d : isWhiteSpace d = false -> startsNonWs (rev (s ++ [d])).
Proof. intros H. now rewrite rev_app_distr. Qed.

Lemma forallb_rev {A} (f : A -> bool) l : forallb f l = true -> forallb f (rev l) = true.
Proof.
  rewrite !forallb_forall. intros H x Hx. apply H. now apply in_rev.
Qed.

Lemma startsNonWs_word s : forallb isWordChar s = true -> startsNonWs s.
Proof.
  destruct s as [|c s]; [easy|]. cbn. intros H. apply andb_true_iff in H as [H _].
  now apply isWordChar_plain in H.
Qed.

Lemma trim_name ws name :
  forallb isWhiteSpace ws = true -> forallb isWordChar name = true -> trim (ws ++ name) = name.
Proof.
  intros Hws Hn. apply trim_core; [assumption | |]; apply startsNonWs_word;
    [assumption | now apply forallb_rev].
Qed.

Lemma splitEquals_key key rest :
  forallb (fun c => negb (isEquals c)) key = true ->
  splitEquals (key ++ "="%char :: rest) = (key, Some rest).
Proof.
  induction key as [|c key IH]; [reflexivity|]. cbn [forallb app splitEquals].
  intros H. apply andb_true_iff in H as [Hc H]. apply negb_true_iff in Hc.
  now rewrite Hc, (IH H).
Qed.

Lemma scan_app previous s1 s2 st :
  scan previous (s1 ++ s2) st = scan (previousAfter previous s1) s2 (scan previous s1 st).
Proof.
  revert previous st. induction s1 as [|c s1 IH]; intros previous st; [reflexivity|].
  cbn [app scan]. rewrite IH. unfold previousAfter. rewrite last_cons.
  now destruct (last s1).
Qed.

Lemma scan_plain s previous a cur :
  forallb plainChar s = true ->
  scan previous s (mkScan a cur false None) = mkScan a (cur ++ s) false None.
Proof.
  revert previous cur. induction s as [|c s IH]; intros previous cur H.
  - now rewrite app_nil_r.
  - cbn [forallb] in H. apply andb_true_iff in H as [Hc H].
    unfold plainChar in Hc. apply andb_true_iff in Hc as [Hq Hm].
    apply negb_true_iff in Hq, Hm.
    cbn [scan]. unfold scanChar. rewrite Hq. cbn [andb inQuotes]. rewrite Hm.
    cbn [andb args_temp currentPair inQuotes quoteChar].
    rewrite (IH _ _ H), <- app_assoc. reflexivity.
Qed.

Lemma scan_quoted s previous a cur :
  forallb (fun c => negb (code c =? 39)) s = true ->
  scan previous s (mkScan a cur true (Some "'"%char))
  = mkScan a (cur ++ s) true (Some "'"%char).
Proof.
  revert previous cur. induction s as [|c s IH]; intros previous cur H.
  - now rewrite app_nil_r.
  - cbn [forallb] in H. apply andb_true_iff in H as [Hc H].
    apply negb_true_iff in Hc. destruct (not_single_quote c Hc) as [Hne _].
    cbn [scan].
    assert (Hstep : scanChar previous c (mkScan a cur true (Some "'"%char))
                    = mkScan a (cur ++ [c]) true (Some "'"%char)).
    { unfold scanChar. cbn [inQuotes negb quoteChar].
      destruct (isQuote c && _).
      - destruct (decide (Some c = Some "'"%char)) as [E|_]; [congruence|].
        cbn [inQuotes negb]. now rewrite andb_false_r.
      - cbn [inQuotes negb]. now rewrite andb_false_r. }
    rewrite Hstep, (IH _ _ H), <- app_assoc. reflexivity.
Qed.

Lemma scanChar_open a cur :
  scanChar (Some "="%char) "'" (mkScan a cur false None)
  = mkScan a (cur ++ ["'"%char]) true (Some "'"%char).
Proof. reflexivity. Qed.

Lemma scanChar_close previous a cur :
  unescaped previous = true ->
  scanChar previous "'" (mkScan a cur true (Some "'"%char))
  = mkScan a (cur ++ ["'"%char]) false None.
Proof.
  intros H. unfold scanChar. fold (unescaped previous). rewrite H.
  cbn [isQuote code nat_of_ascii andb inQuotes negb quoteChar].
  destruct (decide (Some "'"%char = Some "'"%char)) as [_|E]; [reflexivity | congruence].
Qed.

Lemma unescaped_after_value value :
  endsWith "\" value = false -> unescaped (previousAfter (Some "'"%char) value) = true.
Proof.
  unfold previousAfter, endsWith.
  destruct value as [|c value _] using rev_ind; [reflexivity|].
  rewrite last_snoc, rev_app_distr. cbn [rev app startsWith unescaped].
  intros H. now rewrite (isBackslash_eqb _ H).
Qed.

Lemma scan_renderPair previous a cur arg :
  plainArg arg ->
  scan previous (renderPair arg) (mkScan a cur false None)
  = mkScan a (cur ++ renderPair arg) false None /\
  previousAfter previous (renderPair arg) = Some "'"%char.
Proof.
  destruct arg as [key value]. intros ((_ & Hk) & _ & Hv & He). cbn [fst snd] in *.
  unfold renderPair. cbn [fst snd chars list_ascii_of_string]. split.
  - change (key ++ ["="%char; "'"%char] ++ value ++ ["'"%char])
      with (key ++ ["="%char] ++ ["'"%char] ++ value ++ ["'"%char]).
    rewrite (app_assoc key), scan_app.
    assert (Hplain : forallb plainChar (key ++ ["="%char]) = true).
    { rewrite forallb_app. cbn. rewrite andb_true_r. apply forallb_forall. intros c Hc.
      rewrite forallb_forall in Hk. destruct (isWordChar_plain c (Hk c Hc)) as (_ & _ & Hq & Hm).
      unfold plainChar. now rewrite Hq, Hm. }
    rewrite (scan_plain _ _ _ _ Hplain).
    unfold previousAfter at 1. rewrite last_snoc.
    cbn [app scan]. rewrite scanChar_open, scan_app.
    assert (Hin : forallb (fun c => negb (code c =? 39)) value = true).
    { apply forallb_forall. intros c Hc. rewrite forallb_forall in Hv.
      specialize (Hv c Hc). now apply andb_true_iff in Hv as [Hv _]. }
    rewrite (scan_quoted _ _ _ _ Hin). cbn [scan].
    rewrite (scanChar_close _ _ _ (unescaped_after_value _ He)).
    rewrite <- !app_assoc. reflexivity.
  - unfold previousAfter.
    change (key ++ ["="%char; "'"%char] ++ value ++ ["'"%char])
      with (key ++ ["="%char; "'"%char] ++ value ++ ["'"%char]).
    rewrite !app_assoc, last_snoc. reflexivity.
Qed.

Lemma processPair_render ws arg a :
  forallb isWhiteSpace ws = true -> plainArg arg ->
  processPair (ws ++ renderPair arg) a = <[fst arg := snd arg]> a.
Proof.
  destruct arg as [key value]. intros Hws ((Hne & Hk) & Hproto & Hv & He).
  cbn [fst snd] in *. unfold renderPair. cbn [fst snd chars list_ascii_of_string].
  unfold processPair.
  assert (Hcore : trim (ws ++ key ++ ["="%char; "'"%char] ++ value ++ ["'"%char])
                  = key ++ ["="%char; "'"%char] ++ value ++ ["'"%char]).
  { apply trim_core; [assumption | |].
    - destruct key as [|c key]; [contradiction|]. cbn in Hk |- *.
      apply andb_true_iff in Hk as [Hc _]. now apply isWordChar_plain in Hc.
    - rewrite !app_assoc. now apply startsNonWs_rev_snoc. }
  rewrite Hcore. destruct key as [|c key]; [contradiction|]. cbn [app].
  assert (Hsplit : splitEquals (ws ++ (c :: key) ++ "="%char :: "'"%char :: value ++ ["'"%char])
                   = (ws ++ c :: key, Some ("'"%char :: value ++ ["'"%char]))).
  { rewrite app_assoc. apply splitEquals_key. rewrite forallb_app. apply andb_true_iff. split.
    - apply forallb_forall. intros x Hx. rewrite forallb_forall in Hws.
      specialize (Hws x Hx). revert Hws.
      destruct x as [[] [] [] [] [] [] [] []]; vm_compute; intros H; try discriminate H; reflexivity.
    - apply forallb_forall. intros x Hx. rewrite forallb_forall in Hk.
      destruct (isWordChar_plain x (Hk x Hx)) as (_ & Hq & _). now rewrite Hq. }
  cbn [app] in Hsplit. rewrite Hsplit.
  assert (Hkey : ws ++ c :: key = (ws ++ [c]) ++ key) by now rewrite <- app_assoc.
  destruct (ws ++ c :: key) as [|k0 kr] eqn:Ek; [now destruct ws|].
  rewrite <- Ek.
  assert (Hval : trim ("'"%char :: value ++ ["'"%char]) = "'"%char :: value ++ ["'"%char]).
  { apply (trim_core [] ("'"%char :: value ++ ["'"%char])); [reflexivity | reflexivity |].
    change ("'"%char :: value ++ ["'"%char]) with (("'"%char :: value) ++ ["'"%char]).
    now apply startsNonWs_rev_snoc. }
  rewrite Hval. cbn [startsWith Ascii.eqb Bool.eqb andb orb].
  assert (Hend : endsWith "'" ("'"%char :: value ++ ["'"%char]) = true).
  { unfold endsWith. change ("'"%char :: value ++ ["'"%char]) with (("'"%char :: value) ++ ["'"%char]).
    now rewrite rev_app_distr. }
  rewrite Hend. cbn [orb]. unfold slice_1_m1. cbn [tl]. rewrite removelast_last.
  rewrite (trim_name ws (c :: key) Hws Hk). unfold assign.
  destruct (decide (c :: key = chars "__proto__")) as [E|_]; [contradiction | reflexivity].
Qed.

Lemma scan_rest rest previous a cur :
  Forall plainArg rest ->
  let st := scan previous (concat (map (fun arg => chars ", " ++ renderPair arg) rest))
                 (mkScan a cur false None) in
  processPair (currentPair st) (args_temp st)
  = fold_left (fun m arg => <[fst arg := snd arg]> m) rest (processPair cur a).
Proof.
  revert previous a cur. induction rest as [|arg rest IH]; intros previous a cur Hall; cbv zeta.
  - reflexivity.
  - apply Forall_cons in Hall as [Harg Hall]. cbn [map concat fold_left].
    rewrite <- app_assoc, (scan_app _ (chars ", ")).
    assert (Hsep : scan previous (chars ", ") (mkScan a cur false None)
                   = mkScan (processPair cur a) [" "%char] false None) by reflexivity.
    assert (Hafter : previousAfter previous (chars ", ") = Some " "%char) by reflexivity.
    rewrite Hsep, Hafter, scan_app.
    destruct (scan_renderPair (Some " "%char) (processPair cur a) [" "%char] arg Harg)
      as [Hscan Hprev].
    rewrite Hscan, Hprev.
    specialize (IH (Some "'"%char) (processPair cur a) ([" "%char] ++ renderPair arg) Hall).
    cbv zeta in IH. rewrite IH.
    rewrite (processPair_render [" "%char] arg _ eq_refl Harg). reflexivity.
Qed.

Lemma parseArgs_render args :
  Forall plainArg args -> args <> [] -> parseArgs (renderArgs args) = argsOf args.
Proof.
  intros Hall Hne. destruct args as [|arg rest]; [contradiction|].
  apply Forall_cons in Hall as [Harg Hall].
  unfold parseArgs, renderArgs, argsOf. rewrite scan_app.
  destruct (scan_renderPair None ∅ [] arg Harg) as [Hscan Hprev].
  rewrite Hscan, Hprev.
  pose proof (scan_rest rest (Some "'"%char) ∅ ([] ++ renderPair arg) Hall) as H.
  cbv zeta in H. rewrite H.
  rewrite (processPair_render [] arg ∅ eq_refl Harg). reflexivity.
Qed.

Lemma dotStar_renderPair arg : plainArg arg -> dotStar (renderPair arg) = true.
Proof.
  destruct arg as [key value]. intros ((_ & Hk) & _ & Hv & _). cbn [fst snd] in *.
  unfold renderPair. cbn [fst snd]. rewrite !dotStar_app, (dotStar_name key Hk).
  cbn [andb]. rewrite andb_true_r.
  change (dotStar (chars "='")) with true. cbn [andb].
  apply forallb_forall. intros c Hc. rewrite forallb_forall in Hv.
  specialize (Hv c Hc). now apply andb_true_iff in Hv as [_ Hv].
Qed.

Lemma dotStar_renderArgs args : Forall plainArg args -> dotStar (renderArgs args) = true.
Proof.
  intros Hall. destruct args as [|arg rest]; [reflexivity|].
  apply Forall_cons in Hall as [Harg Hall]. unfold renderArgs.
  rewrite dotStar_app, (dotStar_renderPair arg Harg). cbn [andb].
  induction Hall as [|x rest Hx Hall IH]; [reflexivity|].
  cbn [map concat]. rewrite !dotStar_app, (dotStar_renderPair x Hx), IH. reflexivity.
Qed.

Lemma trimStart_snoc_nonempty l c : isWhiteSpace c = false -> trimStart (l ++ [c]) <> [].
Proof.
  intros Hc. induction l as [|x l IH]; cbn [app trimStart].
  - now rewrite Hc.
  - now destruct (isWhiteSpace x).
Qed.

Lemma trim_renderArgs arg rest :
  plainArg arg -> trim (renderArgs (arg :: rest)) <> [].
Proof.
  destruct arg as [key value]. intros ((Hne & Hk) & _). cbn [fst] in *.
  unfold renderArgs, renderPair, trim. cbn [fst snd].
  destruct key as [|c key]; [contradiction|]. cbn in Hk.
  apply andb_true_iff in Hk as [Hc _]. apply isWordChar_plain in Hc as (Hws & _).
  cbn [app trimStart]. rewrite Hws. cbn [rev].
  intros H. apply (f_equal (@rev ascii)) in H. rewrite rev_involutive in H.
  now apply trimStart_snoc_nonempty in H.
Qed.

Lemma matchPrint_name name rest :
  forallb isWordChar name = true -> name <> chars "print" ->
  matchPrint (name ++ chars "(" ++ rest) = None.
Proof.
  intros Hw Hne. unfold matchPrint.
  destruct (stripPrefix (chars "print(") (name ++ chars "(" ++ rest)) as [r|] eqn:E;
    [|reflexivity].
  exfalso. apply Hne. clear Hne. cbn [chars list_ascii_of_string app] in *.
  repeat (destruct name as [|? name];
          [cbn in E; try discriminate E |
           cbn [app stripPrefix] in E;
           match type of E with
           | (if Ascii.eqb ?a ?b then _ else _) = _ =>
               destruct (Ascii.eqb_spec a b) as [<-|]; [|discriminate E]
           end]).
  - reflexivity.
  - cbn in Hw. discriminate Hw.
Qed.

(** Reading back a written call.  A call written as a name, an opening
    parenthesis, arguments of the form key='value' separated by a comma and a
    space, and a closing parenthesis is parsed to that name and those
    arguments, a later argument replacing an earlier one of the same key;
    commas, equals signs and double quotes inside a value are kept.  The
    print wrapper makes no difference, except that an unwrapped call of a
    function called print is not read as one. *)
Theorem parseToolCodeString_reads_back name args :
  isName name -> Forall plainArg args ->
  parseToolCodeString (chars "print(" ++ renderCall name args ++ chars ")")
  = Some (name, argsOf args) /\
  (name <> chars "print" ->
   parseToolCodeString (renderCall name args) = Some (name, argsOf args)).
Proof.
  intros Hname Hall.
  assert (Hd : dotStar (renderCall name args) = true).
  { unfold renderCall. rewrite !dotStar_app, (dotStar_name name (proj2 Hname)),
      (dotStar_renderArgs args Hall). reflexivity. }
  assert (Hcall : match matchCall (renderCall name args) with
                  | None => None
                  | Some (functionName, argsString) =>
                      Some (functionName,
                            match trim argsString with
                            | [] => ∅
                            | _ :: _ => parseArgs argsString
                            end)
                  end = Some (name, argsOf args)).
  { unfold renderCall. rewrite (matchCall_render name _ Hname (dotStar_renderArgs args Hall)).
    destruct args as [|arg rest]; [reflexivity|].
    pose proof (trim_renderArgs arg rest (Forall_inv Hall)) as Hne.
    destruct (trim (renderArgs (arg :: rest))); [contradiction|].
    now rewrite (parseArgs_render (arg :: rest) Hall). }
  split.
  - unfold parseToolCodeString. rewrite (matchPrint_wrapped _ Hd). exact Hcall.
  - intros Hne. unfold parseToolCodeString.
    unfold renderCall at 1. rewrite (matchPrint_name name _ (proj2 Hname) Hne).
    exact Hcall.
Qed.

Lemma parseToolCodeString_reads_back_witness :
  parseToolCodeString buyCall
  = Some (chars "buy", argsOf [(chars "ticker", chars "AAPL"); (chars "shares", chars "10")]).
Proof.
  refine (proj1 (parseToolCodeString_reads_back (chars "buy")
            [(chars "ticker", chars "AAPL"); (chars "shares", chars "10")] _ _)).
  - split; [discriminate | reflexivity].
  - repeat constructor; try discriminate; reflexivity.
Defined.
End ToolCodeFacts.

(** ** Valued holdings *)

Module PortfolioValueFacts.
Import JSNum JSNumFacts Broker BrokerFacts PortfolioRead PortfolioFacts PortfolioFetchFacts.
Import PortfolioValue.
Local Open Scope Q_scope.











End PortfolioValueFacts.
